(** * Cryptopad: the encryption envelope and the ephemeral note store

    A shallow embedding of
    - [src/utils/encryption.ts]    (module [Encryption], over the crypto-js
                                    interface of module [CryptoJS]),
    - [server/index.js]            (module [Server]),
    - [src/lib/message-service.ts] (module [MessageService]),
    - [src/components/message-composer.tsx] (module [Composer]) and
      [src/components/message-viewer.tsx]  (module [Viewer]), as far as
      they check, encrypt, store, fetch and decrypt a note,
    followed by the properties of the specification: [EncryptionFacts],
    [ServerFacts] and [MirrorFacts] hold the theorems, [Model] a small
    instance of the crypto-js interface, and the [...Examples] modules the
    theorems applied to concrete notes. The other modules hold further
    properties of the same code: [EncryptionExtras], [ServerExtras],
    [MessageServiceExtras], [ComposerFacts] and, for a note on its way from
    the composer to the viewer, [AppFacts].

    JavaScript strings are modelled by [string] (sequences of code units
    below 256), numbers by [Z] where the code only produces integers and by
    [Q] where a request may carry a fraction, with the sums and products of
    the code rounded as binary64 does, [Map] and the local
    [Record<string, _>] by [gmap string _]. Randomness, the clock and the
    calls made to crypto-js are threaded through a state monad, thrown
    errors are the left summand of its results. *)

From Stdlib Require Import ZArith NArith QArith Qround Qminmax Qabs Qpower Lqa.
From Stdlib Require Import Ascii DecimalString List Lia Bool.
From Stdlib Require Import DecimalPos DecimalZ.
From Stdlib Require String.
From stdpp Require Import gmap strings list.

Local Open Scope Z_scope.

(** ** JavaScript helpers shared by the three modules *)

Module JS.

(** [!s] for a string: only the empty string is falsy. *)
Definition falsy (s : string) : bool := String.eqb s "".

(** [!o] for an optional string ([undefined], [null] or a string). *)
Definition falsy_opt (o : option string) : bool :=
  match o with
  | None => true
  | Some s => falsy s
  end.

(** [a ?? b]. *)
Definition nullish {A : Type} (o : option A) (d : A) : A :=
  match o with
  | Some a => a
  | None => d
  end.

(** [String(n)] on an integer. *)
Definition String_of_number (n : Z) : string :=
  NilZero.string_of_int (Z.to_int n).

(** [s.charCodeAt(i)]; out of range is [NaN], which [^] and [|] read as 0. *)
Definition charCodeAt (s : string) (index : nat) : N :=
  match String.get index s with
  | Some c => N_of_ascii c
  | None => 0%N
  end.

(** [s.slice(from, to)] for [0 <= from <= to]. *)
Definition slice (from to : nat) (s : string) : string :=
  String.substring from (to - from) s.

(** [new Error(message)]. *)
Inductive Error := Err (message : string).

(** [segments.join(sep)]. *)
Definition join (sep : string) (segments : list string) : string :=
  String.concat sep segments.

(** [s.includes(c)] for a one-character needle. *)
Fixpoint includes (c : ascii) (s : string) : bool :=
  match s with
  | EmptyString => false
  | String d r => Ascii.eqb d c || includes c r
  end.

(** White space and line terminators among the code units below 256:
    tab, line feed, vertical tab, form feed, carriage return, space and the
    no-break space. *)
Definition is_whitespace (c : ascii) : bool :=
  let n := N_of_ascii c in
  ((9 <=? n) && (n <=? 13))%N || (n =? 32)%N || (n =? 160)%N.

Fixpoint trimStart (s : string) : string :=
  match s with
  | EmptyString => EmptyString
  | String c r => if is_whitespace c then trimStart r else s
  end.

Fixpoint trimEnd (s : string) : string :=
  match s with
  | EmptyString => EmptyString
  | String c r =>
      match trimEnd r with
      | EmptyString => if is_whitespace c then EmptyString else String c EmptyString
      | t => String c t
      end
  end.

(** [s.trim()]. *)
Definition trim (s : string) : string := trimEnd (trimStart s).

(** [s.replace(/c/g, "")] for a one-character pattern. *)
Fixpoint remove (c : ascii) (s : string) : string :=
  match s with
  | EmptyString => EmptyString
  | String d r => if Ascii.eqb d c then remove c r else String d (remove c r)
  end.

(** [s.split(c)] for a one-character separator; the first component is
    the piece being read. *)
Fixpoint split_from (c : ascii) (piece : string) (s : string) : list string :=
  match s with
  | EmptyString => [piece]
  | String d r =>
      if Ascii.eqb d c then piece :: split_from c EmptyString r
      else split_from c (String.append piece (String d EmptyString)) r
  end.

Definition split (c : ascii) (s : string) : list string := split_from c EmptyString s.

(** *** Numbers: IEEE 754 binary64

    A finite number is the rational it stands for. [+] and [*] give the
    binary64 number nearest to the exact result, a tie going to the even
    significand. Results beyond the largest finite number, which the code
    below reaches only with a time-to-live above 10^300 minutes, are left
    unrounded: the source has [Infinity] there. *)

(** For [a > 0], the [e] with [2^e <= a < 2^(e+1)]. *)
Definition ilog2 (a : Q) : Z :=
  let e0 := Z.log2 (Qnum a) - Z.log2 (Zpos (Qden a)) in
  if Qle_bool (Qpower 2 e0) a then e0 else e0 - 1.

(** The nearest integer, a tie going to the even one. *)
Definition round_half_even (a : Q) : Z :=
  let f := Qfloor a in
  match (a - inject_Z f ?= 1 # 2)%Q with
  | Lt => f
  | Gt => f + 1
  | Eq => if Z.even f then f else f + 1
  end.

(** The binary64 number nearest to [q]: 53 bits of significand, the
    least exponent that of the subnormal numbers. *)
Definition round64 (q : Q) : Q :=
  if Qeq_bool q 0 then 0
  else
    let a := Qabs q in
    let e := ilog2 a in
    let u := Z.max (e - 52) (-1074) in
    let m := round_half_even (a / Qpower 2 u) in
    let r := (inject_Z m * Qpower 2 u)%Q in
    Qred (if Qle_bool 0 q then r else - r).

(** [x + y] and [x * y] on numbers. *)
Definition add (x y : Q) : Q := round64 (x + y).

Definition mul (x y : Q) : Q := round64 (x * y).

(** [now + minutes * 60 * 1000], as the server and the browser compute the
    expiry of a note. *)
Definition expiry (now : Z) (minutes : Q) : Q :=
  add (inject_Z now) (mul (mul minutes 60) 1000).

(** *** Property names and URL paths

    The names every plain object inherits from [Object.prototype]:
    [store[id]] finds them on an object that holds no [id] of its own, and
    [store["__proto__"] = entry] stores nothing. *)
Definition Object_prototype_names : list string :=
  [ "constructor"; "hasOwnProperty"; "isPrototypeOf"; "propertyIsEnumerable";
    "toLocaleString"; "toString"; "valueOf"; "__proto__";
    "__defineGetter__"; "__defineSetter__"; "__lookupGetter__"; "__lookupSetter__" ].

(** [id] names no inherited property: on a plain object [store[id]] is
    the object's own [id] or [undefined]. *)
Definition own_key (id : string) : bool :=
  negb (List.existsb (String.eqb id) Object_prototype_names).

(** Letters, digits, [-] and [_]: the characters of [nanoid], which a
    URL carries unchanged. *)
Definition url_safe_char (c : ascii) : bool :=
  let n := N_of_ascii c in
  ((48 <=? n) && (n <=? 57) || (65 <=? n) && (n <=? 90) || (97 <=? n) && (n <=? 122)
   || (n =? 45) || (n =? 95))%N.

Fixpoint all_chars (p : ascii -> bool) (s : string) : bool :=
  match s with
  | EmptyString => true
  | String c r => p c && all_chars p r
  end.

(** [`${base}/api/message/${id}`] reaches the route with [:id] equal to
    [id]. *)
Definition url_safe (id : string) : bool :=
  negb (falsy id) && all_chars url_safe_char id.

(** [Math.round(q)]: the nearest integer, halves going up. *)
Definition Math_round (q : Q) : Z := Qfloor (q + (1 # 2)).

(** [Math.ceil(q)]. *)
Definition Math_ceil (q : Q) : Z := Qceiling q.

End JS.

(** ** The crypto-js and JSON interface used by [encryption.ts]

    The library is not part of the repository: its operations are the fields
    of [CryptoJS.Lib], and what the proofs need of them the fields of
    [CryptoJS.Laws]. *)

Module CryptoJS.

(** The record a parsed payload is cast to ([EncryptionEnvelope]).
    [version] and [mode] are what [tryParseEnvelope] tests at run time;
    [iterations] and [createdAt] are read through [??]. *)
Record EncryptionEnvelope := {
  version : string;
  mode : string;
  ciphertext : string;
  iv : string;
  salt : option string;
  hmac : string;
  iterations : option Z;
  createdAt : option Z
}.

(** What [JSON.parse] can yield for [tryParseEnvelope]. *)
Inductive Parsed :=
| JThrows                              (* SyntaxError *)
| JNotObject                           (* falsy, or typeof is not "object" *)
| JObject (parsed : EncryptionEnvelope).

Record Lib := {
  WordArray : Type;
  sigBytes : WordArray -> nat;
  Rng : Type;
  WordArray_random : nat -> Rng -> WordArray * Rng;
  Base64_stringify : WordArray -> string;
  Base64_parse : string -> WordArray;
  Hex_stringify : WordArray -> string;
  Hex_parse : string -> WordArray;
  (* AES.encrypt(message, key, {iv, CBC, Pkcs7}).ciphertext *)
  AES_encrypt : string -> WordArray -> WordArray -> WordArray;
  (* AES.decrypt(params, key, {iv, CBC, Pkcs7}).toString(Utf8);
     [None] when the bytes are not UTF-8 and toString throws *)
  AES_decrypt : WordArray -> WordArray -> WordArray -> option string;
  (* AES.decrypt(payload, passphrase).toString(Utf8) *)
  AES_decrypt_passphrase : string -> string -> option string;
  (* PBKDF2(password, salt, {keySize, iterations}) *)
  PBKDF2 : string -> WordArray -> Z -> Z -> WordArray;
  HmacSHA256 : string -> WordArray -> WordArray;
  JSON_stringify : EncryptionEnvelope -> string;
  JSON_parse : string -> Parsed
}.

Record Laws (L : Lib) : Prop := {
  random_sigBytes :
    forall n g, sigBytes L (fst (WordArray_random L n g)) = n;
  Base64_roundtrip :
    forall w, Base64_parse L (Base64_stringify L w) = w;
  Base64_nonempty :
    forall w, sigBytes L w <> O -> Base64_stringify L w <> "";
  Hex_stringify_length :
    forall w, String.length (Hex_stringify L w) = (2 * sigBytes L w)%nat;
  Hex_parse_sigBytes :
    forall h n, String.length h = (2 * n)%nat -> sigBytes L (Hex_parse L h) = n;
  PBKDF2_sigBytes :
    forall pw s keySize it,
      sigBytes L (PBKDF2 L pw s keySize it) = Z.to_nat (4 * keySize);
  (* AES-256-CBC with PKCS#7 padding, then UTF-8 *)
  AES_roundtrip :
    forall m key iv,
      sigBytes L key = 32%nat -> sigBytes L iv = 16%nat ->
      AES_decrypt L (AES_encrypt L m key iv) key iv = Some m;
  JSON_roundtrip :
    forall e, JSON_parse L (JSON_stringify L e) = JObject e
}.

(** The idealisation of the MAC under which tampering is detected:
    distinct (message, key) pairs never share a tag. *)
Definition IdealMac (L : Lib) : Prop :=
  forall m k m' k',
    HmacSHA256 L m k = HmacSHA256 L m' k' -> m = m' /\ k = k'.

End CryptoJS.

(** ** [src/utils/encryption.ts] *)

Module Encryption.
Import CryptoJS.

Definition ENVELOPE_VERSION : string := "1.1.0".
Definition MASTER_KEY_BYTES : Z := 64.
Definition PBKDF2_ITERATIONS : Z := 150000.
Definition SALT_BYTES : nat := 16.
Definition IV_BYTES : nat := 16.

Abbreviation Error := JS.Error.
Abbreviation Err := JS.Err.

Definition LegacyKeyRequired : Error :=
  Err "Legacy note requires a key from the link.".
Definition LegacyDecryptionError : Error :=
  Err "Unable to decrypt legacy payload with provided key.".
Definition PasswordRequired : Error :=
  Err "This note is protected by a password.".
Definition MissingSalt : Error :=
  Err "Encrypted payload is missing salt information.".
Definition MissingLinkKey : Error :=
  Err "Missing secret key in link.".
Definition IntegrityError : Error :=
  Err "Message integrity check failed. The payload may have been altered.".
Definition DecryptionError : Error :=
  Err "Unable to decrypt with the supplied credentials.".
(** Thrown by crypto-js itself when decrypted bytes are not UTF-8. *)
Definition MalformedUtf8 : Error := Err "Malformed UTF-8 data".

Record EncryptOptions := { enc_password : option string }.

Record EncryptResult := {
  payload : string;
  shareKey : option string;
  requiresPassword : bool;
  integrity : string
}.

Record DecryptOptions := { key : option string; password : option string }.

Record EnvelopeInspection := {
  insp_mode : string;
  insp_version : string;
  insp_createdAt : option Z
}.

Section WithLib.
Context (L : Lib).

Record HmacPayload := {
  hp_mode : string;
  hp_ciphertext : string;
  hp_iv : string;
  hp_salt : option string;
  hp_createdAt : option Z
}.

Record Keys := { aesKey : WordArray L; hmacKey : WordArray L }.

(** *** Effects: randomness, the clock and the log of crypto-js calls *)

Inductive Call :=
| CallPBKDF2 (password : string) (salt : WordArray L) (keySize iterations : Z)
| CallHmacSHA256 (message : string) (key : WordArray L)
| CallAESEncrypt (message : string) (key iv : WordArray L)
| CallAESDecrypt (ciphertext key iv : WordArray L)
| CallAESDecryptPassphrase (payload passphrase : string).

Definition is_decrypt (c : Call) : bool :=
  match c with
  | CallAESDecrypt _ _ _ | CallAESDecryptPassphrase _ _ => true
  | _ => false
  end.

Record World := {
  entropy : Rng L;
  clock : Z;
  calls : list Call
}.

Definition M (A : Type) : Type := World -> (Error + A) * World.

Definition ret {A} (a : A) : M A := fun w => (inr a, w).

Definition throw {A} (e : Error) : M A := fun w => (inl e, w).

Definition bind {A B} (m : M A) (f : A -> M B) : M B :=
  fun w =>
    match m w with
    | (inl e, w') => (inl e, w')
    | (inr a, w') => f a w'
    end.

(** The world after the calls of [log] were made. *)
Definition logged (w : World) (log : list Call) : World :=
  {| entropy := entropy w; clock := clock w; calls := calls w ++ log |}.

Definition invoke {A} (c : Call) (a : A) : M A :=
  fun w => (inr a, logged w [c]).

Definition random (n : nat) : M (WordArray L) :=
  fun w =>
    let (x, g) := WordArray_random L n (entropy w) in
    (inr x, {| entropy := g; clock := clock w; calls := calls w |}).

Definition Date_now : M Z := fun w => (inr (clock w), w).

Notation "x <- m ;; k" := (bind m (fun x => k))
  (at level 100, m at next level, right associativity).

(** *** Helpers of the source, bottom up *)

Fixpoint timingSafeEqual_loop (a b : string) (index steps : nat) (result : N) : N :=
  match steps with
  | O => result
  | S steps' =>
      timingSafeEqual_loop a b (S index) steps'
        (N.lor result (N.lxor (JS.charCodeAt a index) (JS.charCodeAt b index)))
  end.

Definition timingSafeEqual (a b : string) : bool :=
  if negb (Nat.eqb (String.length a) (String.length b)) then false
  else N.eqb (timingSafeEqual_loop a b O (String.length a) 0%N) 0%N.

Definition tryParseEnvelope (payload : string) : option EncryptionEnvelope :=
  match JSON_parse L payload with
  | JThrows => None
  | JNotObject => None
  | JObject parsed =>
      if negb (String.eqb (version parsed) ENVELOPE_VERSION) then None
      else if negb (String.eqb (mode parsed) "link")
              && negb (String.eqb (mode parsed) "password") then None
      else Some parsed
  end.

Definition integrityMessage (payload : HmacPayload) : string :=
  let segments :=
    [ hp_mode payload;
      hp_ciphertext payload;
      hp_iv payload;
      JS.nullish (hp_salt payload) "";
      JS.String_of_number (JS.nullish (hp_createdAt payload) 0);
      ENVELOPE_VERSION ] in
  JS.join "|" segments.

Definition computeIntegrity (payload : HmacPayload) (key : WordArray L) : M string :=
  let message := integrityMessage payload in
  digest <- invoke (CallHmacSHA256 message key) (HmacSHA256 L message key) ;;
  ret (Base64_stringify L digest).

Definition splitDerivedKey (derived : WordArray L) : Keys :=
  let hex := Hex_stringify L derived in
  let aesHex := JS.slice 0 64 hex in
  let hmacHex := JS.slice 64 128 hex in
  {| aesKey := Hex_parse L aesHex; hmacKey := Hex_parse L hmacHex |}.

Definition splitMasterKey (masterKey : WordArray L) : Keys :=
  let hex := Hex_stringify L masterKey in
  let aesHex := JS.slice 0 64 hex in
  let hmacHex := JS.slice 64 128 hex in
  {| aesKey := Hex_parse L aesHex; hmacKey := Hex_parse L hmacHex |}.

Definition deriveKeyFromPassword (password : string) (salt : WordArray L)
    (iterations : Z) : M Keys :=
  let keySize := MASTER_KEY_BYTES / 4 in
  derived <- invoke (CallPBKDF2 password salt keySize iterations)
                    (PBKDF2 L password salt keySize iterations) ;;
  ret (splitDerivedKey derived).

Definition aesEncrypt (message : string) (key iv : WordArray L) : M (WordArray L) :=
  invoke (CallAESEncrypt message key iv) (AES_encrypt L message key iv).

Definition aesDecrypt (ciphertext key iv : WordArray L) : M string :=
  r <- invoke (CallAESDecrypt ciphertext key iv) (AES_decrypt L ciphertext key iv) ;;
  match r with
  | Some s => ret s
  | None => throw MalformedUtf8
  end.

Definition aesDecryptPassphrase (payload passphrase : string) : M string :=
  r <- invoke (CallAESDecryptPassphrase payload passphrase)
              (AES_decrypt_passphrase L payload passphrase) ;;
  match r with
  | Some s => ret s
  | None => throw MalformedUtf8
  end.

(** *** The exported functions *)

Definition encryptMessage (message : string) (options : EncryptOptions)
    : M EncryptResult :=
  iv <- random IV_BYTES ;;
  let ivBase64 := Base64_stringify L iv in
  createdAt <- Date_now ;;
  if negb (JS.falsy_opt (enc_password options)) then
    let password := JS.nullish (enc_password options) "" in
    saltWord <- random SALT_BYTES ;;
    keys <- deriveKeyFromPassword password saltWord PBKDF2_ITERATIONS ;;
    cipher <- aesEncrypt message (aesKey keys) iv ;;
    let ciphertext := Base64_stringify L cipher in
    let saltBase64 := Base64_stringify L saltWord in
    hmac <- computeIntegrity
              {| hp_mode := "password"; hp_ciphertext := ciphertext;
                 hp_iv := ivBase64; hp_salt := Some saltBase64;
                 hp_createdAt := Some createdAt |}
              (hmacKey keys) ;;
    let envelope :=
      {| version := ENVELOPE_VERSION; mode := "password";
         ciphertext := ciphertext; iv := ivBase64; salt := Some saltBase64;
         hmac := hmac; iterations := Some PBKDF2_ITERATIONS;
         createdAt := Some createdAt |} in
    ret {| payload := JSON_stringify L envelope; shareKey := None;
           requiresPassword := true; integrity := hmac |}
  else
    masterKey <- random (Z.to_nat MASTER_KEY_BYTES) ;;
    let keys := splitMasterKey masterKey in
    cipher <- aesEncrypt message (aesKey keys) iv ;;
    let ciphertext := Base64_stringify L cipher in
    hmac <- computeIntegrity
              {| hp_mode := "link"; hp_ciphertext := ciphertext;
                 hp_iv := ivBase64; hp_salt := None;
                 hp_createdAt := Some createdAt |}
              (hmacKey keys) ;;
    let envelope :=
      {| version := ENVELOPE_VERSION; mode := "link";
         ciphertext := ciphertext; iv := ivBase64; salt := None;
         hmac := hmac; iterations := Some PBKDF2_ITERATIONS;
         createdAt := Some createdAt |} in
    ret {| payload := JSON_stringify L envelope;
           shareKey := Some (Base64_stringify L masterKey);
           requiresPassword := false; integrity := hmac |}.

(** The [if (envelope.mode === "password") ... else ...] block of
    [decryptMessage]: the key bundle of a versioned envelope, or the error
    thrown for a missing credential. *)
Definition resolveKeys (envelope : EncryptionEnvelope) (options : DecryptOptions)
    : M Keys :=
  if String.eqb (mode envelope) "password" then
    if JS.falsy_opt (password options) then throw PasswordRequired
    else if JS.falsy_opt (salt envelope) then throw MissingSalt
    else
      let saltWord := Base64_parse L (JS.nullish (salt envelope) "") in
      deriveKeyFromPassword (JS.nullish (password options) "") saltWord
        (JS.nullish (iterations envelope) PBKDF2_ITERATIONS)
  else
    if JS.falsy_opt (key options) then throw MissingLinkKey
    else
      let masterKey := Base64_parse L (JS.nullish (key options) "") in
      ret (splitMasterKey masterKey).

Definition decryptMessage (payload : string) (options : DecryptOptions) : M string :=
  match tryParseEnvelope payload with
  | None =>
      if JS.falsy_opt (key options) then throw LegacyKeyRequired
      else
        decrypted <- aesDecryptPassphrase payload (JS.nullish (key options) "") ;;
        if JS.falsy decrypted then throw LegacyDecryptionError
        else ret decrypted
  | Some envelope =>
      let iv := Base64_parse L (iv envelope) in
      keys <- resolveKeys envelope options ;;
      expectedIntegrity <-
        computeIntegrity
          {| hp_mode := mode envelope; hp_ciphertext := ciphertext envelope;
             hp_iv := CryptoJS.iv envelope; hp_salt := salt envelope;
             hp_createdAt := createdAt envelope |}
          (hmacKey keys) ;;
      if negb (timingSafeEqual expectedIntegrity (hmac envelope)) then
        throw IntegrityError
      else
        decrypted <- aesDecrypt (Base64_parse L (ciphertext envelope)) (aesKey keys) iv ;;
        if JS.falsy decrypted then throw DecryptionError
        else ret decrypted
  end.

Definition inspectEncryptedPayload (payload : string) : EnvelopeInspection :=
  match tryParseEnvelope payload with
  | None => {| insp_mode := "link"; insp_version := "legacy"; insp_createdAt := Some 0 |}
  | Some envelope =>
      {| insp_mode := mode envelope; insp_version := version envelope;
         insp_createdAt := createdAt envelope |}
  end.

(** *** Vocabulary of the properties *)

Definition hmacPayloadOf (envelope : EncryptionEnvelope) : HmacPayload :=
  {| hp_mode := mode envelope; hp_ciphertext := ciphertext envelope;
     hp_iv := iv envelope; hp_salt := salt envelope;
     hp_createdAt := createdAt envelope |}.

(** The tag [computeIntegrity] returns. *)
Definition integrityTag (payload : HmacPayload) (key : WordArray L) : string :=
  Base64_stringify L (HmacSHA256 L (integrityMessage payload) key).

(** The bundle [deriveKeyFromPassword] returns. *)
Definition derivedKeys (password : string) (salt : WordArray L) (iterations : Z) : Keys :=
  splitDerivedKey (PBKDF2 L password salt (MASTER_KEY_BYTES / 4) iterations).

(** The bundle [decryptMessage] resolves for a versioned envelope, when the
    credential its mode asks for is supplied. *)
Definition credentialKeys (envelope : EncryptionEnvelope) (options : DecryptOptions)
    : option Keys :=
  if String.eqb (mode envelope) "password" then
    match password options, salt envelope with
    | Some pw, Some s =>
        if JS.falsy pw || JS.falsy s then None
        else Some (derivedKeys pw (Base64_parse L s)
                     (JS.nullish (iterations envelope) PBKDF2_ITERATIONS))
    | _, _ => None
    end
  else
    match key options with
    | Some k => if JS.falsy k then None else Some (splitMasterKey (Base64_parse L k))
    | None => None
    end.

Definition versioned (envelope : EncryptionEnvelope) : Prop :=
  version envelope = ENVELOPE_VERSION
  /\ (mode envelope = "link" \/ mode envelope = "password").

(** A well-formed versioned envelope together with its matching credential:
    the stored tag is the one the credential's integrity key gives. *)
Definition authentic (envelope : EncryptionEnvelope) (options : DecryptOptions) : Prop :=
  versioned envelope
  /\ exists keys,
       credentialKeys envelope options = Some keys
       /\ hmac envelope = integrityTag (hmacPayloadOf envelope) (hmacKey keys).

(** [flipped s s']: [s'] is [s] with exactly one code unit changed. *)
Inductive flipped : string -> string -> Prop :=
| flipped_here (c c' : ascii) (s : string) :
    c <> c' -> flipped (String c s) (String c' s)
| flipped_later (c : ascii) (s s' : string) :
    flipped s s' -> flipped (String c s) (String c s').

Definition with_ciphertext (e : EncryptionEnvelope) (x : string) : EncryptionEnvelope :=
  {| version := version e; mode := mode e; ciphertext := x; iv := iv e;
     salt := salt e; hmac := hmac e; iterations := iterations e;
     createdAt := createdAt e |}.

Definition with_iv (e : EncryptionEnvelope) (x : string) : EncryptionEnvelope :=
  {| version := version e; mode := mode e; ciphertext := ciphertext e; iv := x;
     salt := salt e; hmac := hmac e; iterations := iterations e;
     createdAt := createdAt e |}.

Definition with_salt (e : EncryptionEnvelope) (x : string) : EncryptionEnvelope :=
  {| version := version e; mode := mode e; ciphertext := ciphertext e; iv := iv e;
     salt := Some x; hmac := hmac e; iterations := iterations e;
     createdAt := createdAt e |}.

Definition with_hmac (e : EncryptionEnvelope) (x : string) : EncryptionEnvelope :=
  {| version := version e; mode := mode e; ciphertext := ciphertext e; iv := iv e;
     salt := salt e; hmac := x; iterations := iterations e;
     createdAt := createdAt e |}.

(** One byte of [ciphertext], [iv], [salt] or the tag changed. *)
Inductive tampered (e : EncryptionEnvelope) : EncryptionEnvelope -> Prop :=
| tampered_ciphertext x : flipped (ciphertext e) x -> tampered e (with_ciphertext e x)
| tampered_iv x : flipped (iv e) x -> tampered e (with_iv e x)
| tampered_salt s x : salt e = Some s -> flipped s x -> tampered e (with_salt e x)
| tampered_hmac x : flipped (hmac e) x -> tampered e (with_hmac e x).

Definition with_iterations (e : EncryptionEnvelope) (x : option Z) : EncryptionEnvelope :=
  {| version := version e; mode := mode e; ciphertext := ciphertext e; iv := iv e;
     salt := salt e; hmac := hmac e; iterations := x; createdAt := createdAt e |}.

Definition with_createdAt (e : EncryptionEnvelope) (x : option Z) : EncryptionEnvelope :=
  {| version := version e; mode := mode e; ciphertext := ciphertext e; iv := iv e;
     salt := salt e; hmac := hmac e; iterations := iterations e; createdAt := x |}.

(** What [inspectEncryptedPayload] reports for a payload that is not a
    versioned envelope. *)
Definition legacyInspection : EnvelopeInspection :=
  {| insp_mode := "link"; insp_version := "legacy"; insp_createdAt := Some 0 |}.

(** The fields of an envelope hold no ["|"], as Base64 text does not. *)
Definition pipe_free (e : EncryptionEnvelope) : Prop :=
  JS.includes "|" (ciphertext e) = false
  /\ JS.includes "|" (iv e) = false
  /\ JS.includes "|" (JS.nullish (salt e) "") = false.

(** A log without any call of the MAC or of the KDF. *)
Definition no_mac_no_kdf (log : list Call) : Prop :=
  forallb (fun c => match c with
                    | CallHmacSHA256 _ _ | CallPBKDF2 _ _ _ _ => false
                    | _ => true
                    end) log = true.

(** The credential that goes with the result of [encryptMessage]. *)
Definition matchingCredential (r : EncryptResult) (options : EncryptOptions)
    : DecryptOptions :=
  {| key := shareKey r; password := enc_password options |}.

(** The key derivation [decryptMessage] performs for an envelope. *)
Definition derivationLog (envelope : EncryptionEnvelope) (options : DecryptOptions)
    : list Call :=
  if String.eqb (mode envelope) "password" then
    [CallPBKDF2 (JS.nullish (password options) "")
       (Base64_parse L (JS.nullish (salt envelope) ""))
       (MASTER_KEY_BYTES / 4)
       (JS.nullish (iterations envelope) PBKDF2_ITERATIONS)]
  else [].

(** A log without any call of the cipher's decrypt primitive. *)
Definition no_decrypt (log : list Call) : Prop :=
  forallb (fun c => negb (is_decrypt c)) log = true.

(** On [envelope], the KDF gives [pw] and [pw'] different integrity keys. *)
Definition separates (envelope : EncryptionEnvelope) (pw pw' : string) : Prop :=
  let saltWord := Base64_parse L (JS.nullish (salt envelope) "") in
  let iterations := JS.nullish (iterations envelope) PBKDF2_ITERATIONS in
  hmacKey (derivedKeys pw saltWord iterations)
  <> hmacKey (derivedKeys pw' saltWord iterations).

End WithLib.

End Encryption.


(** ** [server/index.js]: the in-memory note store behind the HTTP API *)

Module Server.

(** A JavaScript number: a finite value or one of the three special ones. *)
Inductive JsNumber :=
| NaN
| Infinity (negative : bool)
| Finite (q : Q).

(** The primitive values a JSON request body can hold in the fields the
    handler reads ([JsUndefined] for a field that is absent); arrays and
    objects are left out. *)
Inductive JsValue :=
| JsUndefined
| JsNull
| JsBool (b : bool)
| JsNum (n : JsNumber)
| JsStr (s : string).

(** [Boolean(v)]. *)
Definition Boolean (v : JsValue) : bool :=
  match v with
  | JsUndefined | JsNull => false
  | JsBool b => b
  | JsNum NaN => false
  | JsNum (Infinity _) => true
  | JsNum (Finite q) => negb (Qeq_bool q 0)
  | JsStr s => negb (JS.falsy s)
  end.

(** [Number.isFinite(n)], giving the finite value when there is one. *)
Definition Number_isFinite (n : JsNumber) : option Q :=
  match n with
  | Finite q => Some q
  | _ => None
  end.

(** [{ id, encrypted, expiresInMinutes, burnAfterRead, maxViews } = req.body ?? {}] *)
Record RequestBody := {
  id : JsValue;
  encrypted : JsValue;
  expiresInMinutes : JsValue;
  burnAfterRead : JsValue;
  maxViews : JsValue
}.

(** The values read from the environment, with the defaults of the source. *)
Record Config := {
  MAX_MINUTES : Z;
  DEFAULT_VIEWS : Z;
  MAX_VIEWS : Z
}.

Definition defaultConfig : Config :=
  {| MAX_MINUTES := 60 * 24 * 7; DEFAULT_VIEWS := 10; MAX_VIEWS := 50 |}.

(** An entry of [messageStore]. *)
Record Entry := {
  e_encrypted : string;
  e_expiresAt : Q;
  e_burnAfterRead : bool;
  e_remainingViews : Z;
  e_createdAt : Z
}.

Inductive ResponseBody :=
| Message (message : string)
| Created (expiresAt : Q) (remainingViews : option Z)
| Fetched (encrypted : string) (expiresAt : Q) (remainingViews : Z)
| NoContent.

Record Response := { status : Z; body : ResponseBody }.

Definition NotFound : Response :=
  {| status := 404; body := Message "Message not found or already burned" |}.
Definition Gone : Response :=
  {| status := 410; body := Message "Message expired" |}.
Definition AlreadyGone : Response :=
  {| status := 404; body := Message "Message already gone" |}.
Definition BadRequest (message : string) : Response :=
  {| status := 400; body := Message message |}.

(** [entry.remainingViews = n]. *)
Definition set_remainingViews (entry : Entry) (n : Z) : Entry :=
  {| e_encrypted := e_encrypted entry; e_expiresAt := e_expiresAt entry;
     e_burnAfterRead := e_burnAfterRead entry; e_remainingViews := n;
     e_createdAt := e_createdAt entry |}.

(** [entry.expiresAt <= now]. *)
Definition expired (now : Z) (entry : Entry) : bool :=
  Qle_bool (e_expiresAt entry) (inject_Z now).

Section Handlers.
(** [Number(s)] on a string is left to the runtime. *)
Context (StringToNumber : string -> JsNumber).
Context (cfg : Config).

(** [Number(v)]. *)
Definition Number (v : JsValue) : JsNumber :=
  match v with
  | JsUndefined => NaN
  | JsNull => Finite 0
  | JsBool b => Finite (if b then 1 else 0)
  | JsNum n => n
  | JsStr s => StringToNumber s
  end.

(** Lines 111-125 of the POST handler: the view budget of a new entry. *)
Definition resolveViews (burnFlag : bool) (maxViews : JsValue) : Z :=
  if burnFlag then 1
  else
    let parsedViews := Number maxViews in
    match Number_isFinite parsedViews with
    | Some v =>
        Z.min (Z.min (Z.max (Qfloor v) 2) (Z.max (DEFAULT_VIEWS cfg) 2)) (MAX_VIEWS cfg)
    | None => Z.max (DEFAULT_VIEWS cfg) 2
    end.

(** [app.post('/api/message', ...)]; [now] and [createdAt] are the two
    values of [Date.now()] the handler reads, in that order. *)
Definition post_api_message (now createdAt : Z) (req : RequestBody)
    (messageStore : gmap string Entry) : Response * gmap string Entry :=
  match id req with
  | JsStr id =>
      if (Z.of_nat (String.length id) <? 6) || (36 <? Z.of_nat (String.length id)) then
        (BadRequest "Invalid id supplied", messageStore)
      else
        match encrypted req with
        | JsStr encrypted =>
            if (Z.of_nat (String.length encrypted) =? 0)
               || (20000 <? Z.of_nat (String.length encrypted)) then
              (BadRequest "Encrypted payload is missing or too large", messageStore)
            else
              match Number_isFinite (Number (expiresInMinutes req)) with
              | Some minutes =>
                  if Qle_bool minutes 0 then
                    (BadRequest "Expiry must be a positive number", messageStore)
                  else
                    let safeMinutes := Qmin minutes (inject_Z (MAX_MINUTES cfg)) in
                    let expiresAt :=
                      JS.add (inject_Z now) (JS.mul (JS.mul safeMinutes 60) 1000) in
                    let burnFlag := Boolean (burnAfterRead req) in
                    let remainingViews := resolveViews burnFlag (maxViews req) in
                    ({| status := 201;
                        body := Created expiresAt
                                  (if burnFlag then None else Some remainingViews) |},
                     <[id := {| e_encrypted := encrypted; e_expiresAt := expiresAt;
                                e_burnAfterRead := burnFlag;
                                e_remainingViews := remainingViews;
                                e_createdAt := createdAt |}]> messageStore)
              | None => (BadRequest "Expiry must be a positive number", messageStore)
              end
        | _ => (BadRequest "Encrypted payload is missing or too large", messageStore)
        end
  | _ => (BadRequest "Invalid id supplied", messageStore)
  end.

(** [app.get('/api/message/:id', ...)] *)
Definition get_api_message (now : Z) (id : string) (messageStore : gmap string Entry)
    : Response * gmap string Entry :=
  match messageStore !! id with
  | None => (NotFound, messageStore)
  | Some entry =>
      if expired now entry then (Gone, delete id messageStore)
      else if e_remainingViews entry <=? 0 then (NotFound, delete id messageStore)
      else if e_burnAfterRead entry then
        ({| status := 200;
            body := Fetched (e_encrypted entry) (e_expiresAt entry) 0 |},
         delete id messageStore)
      else
        let entry' := set_remainingViews entry (Z.max 0 (e_remainingViews entry - 1)) in
        let remainingViews := e_remainingViews entry' in
        ({| status := 200;
            body := Fetched (e_encrypted entry') (e_expiresAt entry') remainingViews |},
         if e_remainingViews entry' <=? 0 then delete id messageStore
         else <[id := entry']> messageStore)
  end.

(** [app.delete('/api/message/:id', ...)] *)
Definition delete_api_message (id : string) (messageStore : gmap string Entry)
    : Response * gmap string Entry :=
  match messageStore !! id with
  | None => (AlreadyGone, messageStore)
  | Some _ => ({| status := 204; body := NoContent |}, delete id messageStore)
  end.

(** The callback of [setInterval]: drop what is expired or used up. *)
Definition sweep (now : Z) (messageStore : gmap string Entry) : gmap string Entry :=
  filter (fun kv => negb (expired now (snd kv) || (e_remainingViews (snd kv) <=? 0)) = true)
         messageStore.

(** *** Serial schedules

    Every handler above is synchronous, so Node runs it to completion before
    the next one starts: requests that arrive concurrently are served in some
    serial order, each at the clock value it observes. A POST comes with the
    second clock value its handler reads. *)

Inductive Request :=
| POST (body : RequestBody) (createdAt : Z)
| GET (id : string)
| DELETE (id : string)
| SWEEP.

Definition serve (now : Z) (r : Request) (messageStore : gmap string Entry)
    : option Response * gmap string Entry :=
  match r with
  | POST body createdAt =>
      let (res, s) := post_api_message now createdAt body messageStore in (Some res, s)
  | GET id => let (res, s) := get_api_message now id messageStore in (Some res, s)
  | DELETE id => let (res, s) := delete_api_message id messageStore in (Some res, s)
  | SWEEP => (None, sweep now messageStore)
  end.

Fixpoint run (schedule : list (Z * Request)) (messageStore : gmap string Entry)
    : list (Request * option Response) * gmap string Entry :=
  match schedule with
  | [] => ([], messageStore)
  | (now, r) :: rest =>
      let (res, s) := serve now r messageStore in
      let (out, s') := run rest s in
      ((r, res) :: out, s')
  end.

End Handlers.

(** Whether a request writes or removes the entry of [target] other than by
    reading it. *)
Definition rewrites (target : string) (r : Request) : bool :=
  match r with
  | POST body _ =>
      match id body with
      | JsStr i => String.eqb i target
      | _ => false
      end
  | DELETE i => String.eqb i target
  | GET _ | SWEEP => false
  end.

Definition is_read (target : string) (r : Request) : bool :=
  match r with
  | GET i => String.eqb i target
  | _ => false
  end.

(** The responses a schedule gave to the reads of [target]. *)
Definition reads_of (target : string) (out : list (Request * option Response))
    : list Response :=
  omap (fun rr => if is_read target (fst rr) then snd rr else None) out.

Definition has_status (code : Z) (r : Response) : bool := status r =? code.

(** The number of reads an entry still allows. *)
Definition budget (entry : Entry) : Z :=
  if e_burnAfterRead entry then 1 else e_remainingViews entry.

(** The reads the store still allows for [target]. *)
Definition views_left (target : string) (messageStore : gmap string Entry) : Z :=
  match messageStore !! target with
  | Some entry => budget entry
  | None => 0
  end.

(** The entry of [target], while there is one, expires at [expiresAt] and
    has views left. *)
Definition live (target : string) (expiresAt : Q) (messageStore : gmap string Entry)
    : Prop :=
  match messageStore !! target with
  | Some entry => e_expiresAt entry = expiresAt /\ 0 < e_remainingViews entry
  | None => True
  end.

(** [clamp(v, lo, hi)] as the specification writes it. *)
Definition clamp (v lo hi : Z) : Z := Z.min (Z.max v lo) hi.

(** The entry of [target], while there is one, has views left. *)
Definition alive (target : string) (messageStore : gmap string Entry) : Prop :=
  match messageStore !! target with
  | Some entry => 0 < e_remainingViews entry
  | None => True
  end.

Definition count_status (code : Z) (responses : list Response) : Z :=
  Z.of_nat (length (List.filter (has_status code) responses)).

(** The response that returns the blob of [entry], with [remainingViews]
    views left. *)
Definition served (entry : Entry) (remainingViews : Z) : Response :=
  {| status := 200;
     body := Fetched (e_encrypted entry) (e_expiresAt entry) remainingViews |}.

(** The counts that the successive reads of [entry] report: 0 for a
    burn-after-read entry, and for a vault one less each time, down to 0. *)
Definition countdown (entry : Entry) : list Z :=
  if e_burnAfterRead entry then [0]
  else List.map (fun k => e_remainingViews entry - 1 - Z.of_nat k)
         (seq 0 (Z.to_nat (e_remainingViews entry))).

(** The responses that return the blob of [entry], in the order of the
    reads that use up its views. *)
Definition blobs (entry : Entry) : list Response :=
  List.map (served entry) (countdown entry).

(** The same for the entry a store holds for [target], if any. *)
Definition blobs_left (target : string) (messageStore : gmap string Entry) : list Response :=
  match messageStore !! target with
  | Some entry => blobs entry
  | None => []
  end.

(** A schedule of reads of [target], one per clock value. *)
Definition reads_at (target : string) (times : list Z) : list (Z * Request) :=
  List.map (fun t => (t, GET target)) times.

(** A request the POST handler accepts, for a vault of [views] views. *)
Definition sample_request (views : Q) : RequestBody :=
  {| id := JsStr "note-0001"; encrypted := JsStr "opaque-envelope";
     expiresInMinutes := JsNum (Finite 1); burnAfterRead := JsBool false;
     maxViews := JsNum (Finite views) |}.

(** A request for a burn-after-read note. *)
Definition sample_burn_request : RequestBody :=
  {| id := JsStr "note-0001"; encrypted := JsStr "opaque-envelope";
     expiresInMinutes := JsNum (Finite 1); burnAfterRead := JsBool true;
     maxViews := JsUndefined |}.

Definition sample_entry (burn : bool) (views : Z) : Entry :=
  {| e_encrypted := "opaque-envelope"; e_expiresAt := 60000; e_burnAfterRead := burn;
     e_remainingViews := views; e_createdAt := 0 |}.

(** *** Vocabulary of the further properties *)

(** The three checks of the POST handler. *)
Definition valid_request (StringToNumber : string -> JsNumber) (req : RequestBody) : bool :=
  match id req, encrypted req with
  | JsStr i, JsStr blob =>
      (6 <=? Z.of_nat (String.length i)) && (Z.of_nat (String.length i) <=? 36)
      && (1 <=? Z.of_nat (String.length blob)) && (Z.of_nat (String.length blob) <=? 20000)
      && match Number_isFinite (Number StringToNumber (expiresInMinutes req)) with
         | Some minutes => negb (Qle_bool minutes 0)
         | None => false
         end
  | _, _ => false
  end.

(** The id a request addresses. *)
Definition target_of (r : Request) : option string :=
  match r with
  | POST body _ =>
      match id body with
      | JsStr i => Some i
      | _ => None
      end
  | GET i | DELETE i => Some i
  | SWEEP => None
  end.

(** What every entry of a store built by the handlers satisfies: at least
    one view left, and exactly one for a burn-after-read entry. *)
Definition sound_entry (entry : Entry) : Prop :=
  1 <= e_remainingViews entry
  /\ (e_burnAfterRead entry = true -> e_remainingViews entry = 1).

Definition sound_store (messageStore : gmap string Entry) : Prop :=
  forall i entry, messageStore !! i = Some entry -> sound_entry entry.

(** *** The origin allow-list (lines 20-64)

    [new RegExp(pattern).test(value)] is left to the runtime. *)

Section Cors.
Context (RegExp_test : string -> string -> bool).

(** [value.replace(/[-/\\^$+?.()|[\]{}]/g, "\\$&")] *)
Definition is_regex_special (c : ascii) : bool :=
  JS.includes c "-/\^$+?.()|[]{}".

Fixpoint escapeRegex (value : string) : string :=
  match value with
  | EmptyString => EmptyString
  | String c r =>
      if is_regex_special c then String "\" (String c (escapeRegex r))
      else String c (escapeRegex r)
  end.

Definition createOriginMatcher (entry : string) : string -> bool :=
  if String.eqb entry "*" then fun _ => true
  else if JS.includes "*" entry then
    let pattern :=
      String.append "^"
        (String.append (JS.join ".*" (List.map escapeRegex (JS.split "*" entry))) "$") in
    fun value => RegExp_test pattern value
  else fun value => String.eqb value entry.

(** [(process.env.ALLOWED_ORIGINS ?? "").split(",").map(trim).filter(Boolean)] *)
Definition allowedOrigins (ALLOWED_ORIGINS : option string) : list string :=
  List.filter (fun origin => negb (JS.falsy origin))
    (List.map JS.trim (JS.split "," (JS.nullish ALLOWED_ORIGINS ""))).

Definition isOriginAllowed (ALLOWED_ORIGINS : option string) (origin : option string) : bool :=
  let originMatchers := List.map createOriginMatcher (allowedOrigins ALLOWED_ORIGINS) in
  if JS.falsy_opt origin || (length originMatchers =? 0)%nat then true
  else List.existsb (fun matcher => matcher (JS.nullish origin "")) originMatchers.

End Cors.

(** The samples carry no number written as a string. *)
Definition sample_StringToNumber (s : string) : JsNumber := NaN.

End Server.


(** ** [src/lib/message-service.ts]: the client of the store and its
    in-browser fallback *)

Module MessageService.

Abbreviation Error := JS.Error.
Abbreviation Err := JS.Err.

(** [maxViews?: number | null] *)
Inductive MaxViews :=
| mvUndefined
| mvNull
| mvNumber (q : Q).

Record PersistPayload := {
  id : string;
  encrypted : string;
  expiresInMinutes : Q;
  burnAfterRead : bool;
  maxViews : MaxViews
}.

Inductive ServedBy := remote | local.

Record PersistResponse := {
  pr_expiresAt : Q;
  pr_servedBy : ServedBy;
  pr_remainingViews : option Z
}.

Record FetchResponse := {
  fr_encrypted : string;
  fr_expiresAt : Q;
  fr_servedBy : ServedBy;
  fr_remainingViews : option Z
}.

Record LocalEntry := {
  l_encrypted : string;
  l_expiresAt : Q;
  l_burnAfterRead : bool;
  l_remainingViews : Z
}.

(** *** The remote path: one HTTP exchange with the server of [Server]

    The request of [fetchRemote] and [deleteRemote] carries the id inside
    the URL. The exchange is modelled for the ids a URL carries unchanged
    ([JS.url_safe], the alphabet of [nanoid]): the server then sees that
    very id. *)

(** [JSON.stringify(payload)] as the server reads it back. *)
Definition toRequestBody (payload : PersistPayload) : Server.RequestBody :=
  {| Server.id := Server.JsStr (id payload);
     Server.encrypted := Server.JsStr (encrypted payload);
     Server.expiresInMinutes := Server.JsNum (Server.Finite (expiresInMinutes payload));
     Server.burnAfterRead := Server.JsBool (burnAfterRead payload);
     Server.maxViews :=
       match maxViews payload with
       | mvUndefined => Server.JsUndefined
       | mvNull => Server.JsNull
       | mvNumber q => Server.JsNum (Server.Finite q)
       end |}.

(** [response.ok] *)
Definition ok (response : Server.Response) : bool :=
  (200 <=? Server.status response) && (Server.status response <=? 299).

Definition safeReadError (response : Server.Response) : option string :=
  match Server.body response with
  | Server.Message message => Some message
  | _ => None
  end.

(** What [persistRemote], [fetchRemote] and [deleteRemote] make of the
    answer. An answer with a 2xx status always carries the body of its
    handler; the last branch of the first two stands for answers this server
    never gives. *)
Definition persistRemote_response (response : Server.Response) : Error + PersistResponse :=
  if negb (ok response) then
    inl (Err (JS.nullish (safeReadError response) "Failed to reach Cryptopad API"))
  else
    match Server.body response with
    | Server.Created expiresAt remainingViews =>
        inr {| pr_expiresAt := expiresAt; pr_servedBy := remote;
               pr_remainingViews := remainingViews |}
    | _ => inl (Err "Failed to reach Cryptopad API")
    end.

Definition fetchRemote_response (response : Server.Response) : Error + FetchResponse :=
  if negb (ok response) then
    inl (Err (JS.nullish (safeReadError response) "Message is no longer available"))
  else
    match Server.body response with
    | Server.Fetched encrypted expiresAt remainingViews =>
        inr {| fr_encrypted := encrypted; fr_expiresAt := expiresAt;
               fr_servedBy := remote; fr_remainingViews := Some remainingViews |}
    | _ => inl (Err "Message is no longer available")
    end.

Definition deleteRemote_response (response : Server.Response) : Error + unit :=
  if negb (ok response) && negb (Server.status response =? 404) then
    inl (Err (JS.nullish (safeReadError response) "Failed to delete note"))
  else inr tt.

Section Remote.
Context (StringToNumber : string -> Server.JsNumber).
Context (cfg : Server.Config).

Definition persistRemote (now createdAt : Z) (payload : PersistPayload)
    (messageStore : gmap string Server.Entry)
    : (Error + PersistResponse) * gmap string Server.Entry :=
  let (response, s) :=
    Server.post_api_message StringToNumber cfg now createdAt (toRequestBody payload)
      messageStore in
  (persistRemote_response response, s).

(** [fetchRemote(id)], for an [id] with [JS.url_safe]: the server reads
    that [id] from the path. *)
Definition fetchRemote (now : Z) (id : string) (messageStore : gmap string Server.Entry)
    : (Error + FetchResponse) * gmap string Server.Entry :=
  let (response, s) := Server.get_api_message now id messageStore in
  (fetchRemote_response response, s).

(** [deleteRemote(id)], for an [id] with [JS.url_safe]. *)
Definition deleteRemote (id : string) (messageStore : gmap string Server.Entry)
    : (Error + unit) * gmap string Server.Entry :=
  let (response, s) := Server.delete_api_message id messageStore in
  (deleteRemote_response response, s).

End Remote.

(** *** The local path: [localStorage] holds the map of [LocalEntry] *)

Definition clampViews (value : Q) : Z :=
  let min := 2 in
  let max := 50 in
  Z.min (Z.max (Qfloor value) min) max.

Definition pruneExpired (now : Z) (store : gmap string LocalEntry) : gmap string LocalEntry :=
  filter
    (fun kv =>
       negb (Qle_bool (l_expiresAt (snd kv)) (inject_Z now))
       && negb (negb (l_burnAfterRead (snd kv)) && (l_remainingViews (snd kv) <=? 0)) = true)
    store.

(** [readStore()]: the stored map, pruned in memory at the clock value
    [now]; nothing is written back. The store is a plain object, and
    [store[id]] is modelled for the ids that name no property of
    [Object.prototype] ([JS.own_key]): the object's own [id] or nothing. *)
Definition readStore (now : Z) (localStorage : gmap string LocalEntry)
    : gmap string LocalEntry :=
  pruneExpired now localStorage.

(** [persistLocal(payload)]; [readAt] is the clock seen by [readStore],
    [now] the one used for [expiresAt]. The result map is what [writeStore]
    leaves in [localStorage]; [store[payload.id] = entry] adds the entry for
    an id with [JS.own_key]. *)
Definition persistLocal (readAt now : Z) (payload : PersistPayload)
    (localStorage : gmap string LocalEntry)
    : PersistResponse * gmap string LocalEntry :=
  let store := readStore readAt localStorage in
  let remainingViews :=
    if burnAfterRead payload then 1
    else clampViews (match maxViews payload with
                     | mvNumber q => q
                     | _ => 10
                     end) in
  let entry :=
    {| l_encrypted := encrypted payload;
       l_expiresAt :=
         JS.add (inject_Z now) (JS.mul (JS.mul (expiresInMinutes payload) 60) 1000);
       l_burnAfterRead := burnAfterRead payload;
       l_remainingViews := remainingViews |} in
  ({| pr_expiresAt := l_expiresAt entry; pr_servedBy := local;
      pr_remainingViews := if burnAfterRead payload then None else Some remainingViews |},
   <[id payload := entry]> store).

(** [fetchLocal(id)], for an [id] with [JS.own_key]: [store[id]] is the
    entry stored under [id] or nothing. *)
Definition fetchLocal (readAt now : Z) (id : string)
    (localStorage : gmap string LocalEntry)
    : (Error + FetchResponse) * gmap string LocalEntry :=
  let store := readStore readAt localStorage in
  match store !! id with
  | None => (inl (Err "Message is no longer available"), localStorage)
  | Some record =>
      if Qle_bool (l_expiresAt record) (inject_Z now) then
        (inl (Err "This link has expired"), delete id store)
      else if l_burnAfterRead record then
        (inr {| fr_encrypted := l_encrypted record; fr_expiresAt := l_expiresAt record;
                fr_servedBy := local; fr_remainingViews := Some 0 |},
         delete id store)
      else
        let record' :=
          {| l_encrypted := l_encrypted record; l_expiresAt := l_expiresAt record;
             l_burnAfterRead := l_burnAfterRead record;
             l_remainingViews := Z.max 0 (l_remainingViews record - 1) |} in
        let remaining := l_remainingViews record' in
        (inr {| fr_encrypted := l_encrypted record'; fr_expiresAt := l_expiresAt record';
                fr_servedBy := local; fr_remainingViews := Some remaining |},
         if remaining <=? 0 then delete id store else <[id := record']> store)
  end.

(** [deleteLocal(id)], for an [id] with [JS.own_key]. *)
Definition deleteLocal (readAt : Z) (id : string) (localStorage : gmap string LocalEntry)
    : gmap string LocalEntry :=
  let store := readStore readAt localStorage in
  match store !! id with
  | Some _ => delete id store
  | None => localStorage
  end.

(** *** The exported functions: the API when [NEXT_PUBLIC_API_BASE_URL] is
    set, the browser's storage otherwise

    [messageStore] is the server's map and [localStorage] the browser's;
    the local functions are run in the browser, where [window] is defined. *)

Record Stores := {
  messageStore : gmap string Server.Entry;
  localStorage : gmap string LocalEntry
}.

Section Client.
Context (StringToNumber : string -> Server.JsNumber).
Context (cfg : Server.Config).
Context (API_BASE_URL : option string).

Definition persistMessage (readAt now createdAt : Z) (payload : PersistPayload)
    (st : Stores) : (Error + PersistResponse) * Stores :=
  if negb (JS.falsy_opt API_BASE_URL) then
    let (r, s) := persistRemote StringToNumber cfg now createdAt payload (messageStore st) in
    (r, {| messageStore := s; localStorage := localStorage st |})
  else
    let (r, l) := persistLocal readAt now payload (localStorage st) in
    (inr r, {| messageStore := messageStore st; localStorage := l |}).

Definition fetchMessage (readAt now : Z) (id : string) (st : Stores)
    : (Error + FetchResponse) * Stores :=
  if negb (JS.falsy_opt API_BASE_URL) then
    let (r, s) := fetchRemote now id (messageStore st) in
    (r, {| messageStore := s; localStorage := localStorage st |})
  else
    let (r, l) := fetchLocal readAt now id (localStorage st) in
    (r, {| messageStore := messageStore st; localStorage := l |}).

Definition deleteMessage (readAt : Z) (id : string) (st : Stores)
    : (Error + unit) * Stores :=
  if negb (JS.falsy_opt API_BASE_URL) then
    let (r, s) := deleteRemote id (messageStore st) in
    (r, {| messageStore := s; localStorage := localStorage st |})
  else
    (inr tt, {| messageStore := messageStore st;
                localStorage := deleteLocal readAt id (localStorage st) |}).

(** *** A caller's history

    The calls a caller makes of the three exported functions, each with the
    clock values it observes, and in between the runs of the server's
    sweeper, which happen on the server only. *)



Inductive Outcome :=
| Persisted (r : Error + PersistResponse)
| Fetched (r : Error + FetchResponse)
| Deleted (r : Error + unit)
| Swept.



End Client.

(** What [pruneExpired] keeps at the clock value [now]. *)
Definition kept (now : Z) (entry : LocalEntry) : bool :=
  negb (Qle_bool (l_expiresAt entry) (inject_Z now))
  && negb (negb (l_burnAfterRead entry) && (l_remainingViews entry <=? 0)).

(** The ids on which the model of both paths follows the code. *)
Definition plain_id (id : string) : bool := JS.url_safe id && JS.own_key id.

(** The backend the exported functions use. *)
Definition backend (API_BASE_URL : option string) : ServedBy :=
  if negb (JS.falsy_opt API_BASE_URL) then remote else local.

(** The limits the server puts on a request and the local path does not. *)
Definition within_limits (payload : PersistPayload) : Prop :=
  6 <= Z.of_nat (String.length (id payload)) <= 36
  /\ 1 <= Z.of_nat (String.length (encrypted payload)) <= 20000.

(** The views a read after [response] reports as left. *)
Definition views_after_first_read (response : PersistResponse) : Z :=
  match pr_remainingViews response with
  | Some views => views - 1
  | None => 0
  end.

Definition no_stores : Stores := {| messageStore := ∅; localStorage := ∅ |}.




Definition sample_local_entry (views : Z) : LocalEntry :=
  {| l_encrypted := "opaque-envelope"; l_expiresAt := 60000; l_burnAfterRead := false;
     l_remainingViews := views |}.










End MessageService.


(** ** [src/components/message-composer.tsx]: what the form checks and
    what it sends *)

Module Composer.
Import CryptoJS.

Definition MAX_EXPIRY_MINUTES : Z := 60 * 24 * 7.
Definition MIN_CUSTOM_MINUTES : Z := 5.
Definition MAX_VIEW_LIMIT : Z := 50.
Definition MIN_VIEW_LIMIT : Z := 2.
Definition DEFAULT_VIEW_LIMIT : Z := 5.
Definition PASSWORD_MIN_LENGTH : Z := 8.
Definition MAX_MESSAGE_LENGTH : Z := 4000.

(** The code unit U+0000. *)
Definition NUL : ascii := "000"%char.

Definition cleanMessage (raw : string) : string :=
  JS.trim (JS.remove NUL raw).

Definition clampViewLimit (value : Server.JsNumber) : Z :=
  match Server.Number_isFinite value with
  | None => MIN_VIEW_LIMIT
  | Some v =>
      let rounded := JS.Math_round v in
      Z.min (Z.max rounded MIN_VIEW_LIMIT) MAX_VIEW_LIMIT
  end.

Inductive ExpiryMode := preset | custom.

Record CustomExpirySummary := { minutes : Z; exceedsWindow : bool }.

(** The memo [customExpirySummary], computed at the clock value [now] of
    the render; [new Date(customExpiry).getTime()] is left to the runtime. *)
Definition customExpirySummary (Date_getTime : string -> Server.JsNumber) (now : Z)
    (expiryMode : ExpiryMode) (customExpiry : string) : option CustomExpirySummary :=
  match expiryMode with
  | preset => None
  | custom =>
      if JS.falsy customExpiry then None
      else
        match Server.Number_isFinite (Date_getTime customExpiry) with
        | None => None
        | Some timestamp =>
            let diffMinutes := JS.Math_ceil ((timestamp - inject_Z now) / 60000) in
            if diffMinutes <=? 0 then None
            else Some {| minutes := diffMinutes;
                         exceedsWindow := MAX_EXPIRY_MINUTES <? diffMinutes |}
        end
  end.

(** The state of the form that [handleSubmit] reads. *)
Record Form := {
  message : string;
  expiryMinutes : Q;
  expiryMode : ExpiryMode;
  customExpiry : string;
  burnAfterRead : bool;
  viewLimit : Server.JsNumber;
  protectWithPassword : bool;
  password : string;
  confirmPassword : string
}.

(** What the checks of [handleSubmit] leave for its [try] block. *)
Record Submission := {
  sanitized : string;
  finalPassword : string;
  minutesUntilExpiry : Q
}.

(** Lines 120-177 of [handleSubmit]: every [setError(...); return]. *)
Definition checks (summary : option CustomExpirySummary) (form : Form)
    : string + Submission :=
  let sanitized := cleanMessage (message form) in
  if JS.falsy sanitized then inl "Drop a message in before encrypting."
  else if MAX_MESSAGE_LENGTH <? Z.of_nat (String.length sanitized) then
    inl "Messages cap at 4k characters for now."
  else
    let finalPassword := if protectWithPassword form then JS.trim (password form) else "" in
    let confirmation := JS.trim (confirmPassword form) in
    if protectWithPassword form
       && (Z.of_nat (String.length finalPassword) <? PASSWORD_MIN_LENGTH) then
      inl "Password needs at least 8 characters."
    else if protectWithPassword form && negb (String.eqb finalPassword confirmation) then
      inl "Passwords do not match."
    else
      let safeLimit := clampViewLimit (viewLimit form) in
      if negb (burnAfterRead form) && (safeLimit <? MIN_VIEW_LIMIT) then
        inl (String.append "Team vault mode needs at least "
               (String.append (JS.String_of_number MIN_VIEW_LIMIT) " views."))
      else if negb (burnAfterRead form) && (MAX_VIEW_LIMIT <? safeLimit) then
        inl (String.append "Vault view limits max out at "
               (String.append (JS.String_of_number MAX_VIEW_LIMIT) " openings."))
      else
        match expiryMode form with
        | preset =>
            inr {| sanitized := sanitized; finalPassword := finalPassword;
                   minutesUntilExpiry := expiryMinutes form |}
        | custom =>
            match summary with
            | None => inl "Pick a future date and time for the expiry."
            | Some summary =>
                if minutes summary <? MIN_CUSTOM_MINUTES then
                  inl (String.append "Custom expiry needs to be at least "
                         (String.append (JS.String_of_number MIN_CUSTOM_MINUTES)
                            " minutes away."))
                else if exceedsWindow summary then
                  inl "That schedule goes beyond our 7 day window."
                else
                  inr {| sanitized := sanitized; finalPassword := finalPassword;
                         minutesUntilExpiry := inject_Z (minutes summary) |}
            end
        end.

(** The search parameters of the share link, [id] and, when there is a
    share key, [key]; writing them into the URL and reading them back is the
    runtime's. *)
Record ShareLink := { link_id : string; link_key : option string }.

(** What [handleSubmit] leaves in the state of the component. *)
Record Shared := {
  shareLink : ShareLink;
  expiresAt : Q;
  servedBy : MessageService.ServedBy;
  requiresPassword : bool;
  shareKey : option string;
  viewsAllowed : option Z
}.

Inductive Outcome :=
| Refused (error : string)
| Failed (error : string)
| Done (shared : Shared).

Section WithLib.
Context (L : Lib).
Context (StringToNumber : string -> Server.JsNumber).
Context (cfg : Server.Config).
Context (API_BASE_URL : option string).

(** What [handleSubmit] sends to [persistMessage]. *)
Definition toPersistPayload (form : Form) (submission : Submission) (id : string)
    (encryption : Encryption.EncryptResult) : MessageService.PersistPayload :=
  {| MessageService.id := id;
     MessageService.encrypted := Encryption.payload encryption;
     MessageService.expiresInMinutes := minutesUntilExpiry submission;
     MessageService.burnAfterRead := burnAfterRead form;
     MessageService.maxViews :=
       if burnAfterRead form then MessageService.mvUndefined
       else MessageService.mvNumber (inject_Z (clampViewLimit (viewLimit form))) |}.

(** [handleSubmit]; [id] is what [nanoid(21)] returned, [w] the browser's
    randomness and clock as [encryptMessage] sees them, [readAt], [now] and
    [createdAt] the clock values [persistMessage] observes. *)
Definition handleSubmit (summary : option CustomExpirySummary) (form : Form) (id : string)
    (readAt now createdAt : Z) (w : Encryption.World L) (st : MessageService.Stores)
    : Outcome * Encryption.World L * MessageService.Stores :=
  match checks summary form with
  | inl error => (Refused error, w, st)
  | inr submission =>
      let options :=
        {| Encryption.enc_password :=
             if protectWithPassword form then Some (finalPassword submission) else None |} in
      match Encryption.encryptMessage L (sanitized submission) options w with
      | (inl (JS.Err error), w') => (Failed error, w', st)
      | (inr encryption, w') =>
          match MessageService.persistMessage StringToNumber cfg API_BASE_URL readAt now
                  createdAt (toPersistPayload form submission id encryption) st with
          | (inl (JS.Err error), st') => (Failed error, w', st')
          | (inr response, st') =>
              (Done
                 {| shareLink :=
                      {| link_id := id;
                         link_key :=
                           if JS.falsy_opt (Encryption.shareKey encryption) then None
                           else Encryption.shareKey encryption |};
                    expiresAt := MessageService.pr_expiresAt response;
                    servedBy := MessageService.pr_servedBy response;
                    requiresPassword := Encryption.requiresPassword encryption;
                    shareKey := Encryption.shareKey encryption;
                    viewsAllowed :=
                      if burnAfterRead form then None
                      else
                        match MessageService.pr_remainingViews response with
                        | Some views => Some views
                        | None => Some (clampViewLimit (viewLimit form))
                        end |},
               w', st')
          end
      end
  end.

End WithLib.

Definition sample_form (protect burn : bool) : Form :=
  {| message := " hello "; expiryMinutes := 60; expiryMode := preset; customExpiry := "";
     burnAfterRead := burn; viewLimit := Server.Finite 5;
     protectWithPassword := protect;
     password := " correct horse "; confirmPassword := "correct horse" |}.

Definition sample_id : string := "V1StGXR8_Z5jdHi6B-myT".

End Composer.


(** ** [src/components/message-viewer.tsx]: opening a share link *)

Module Viewer.
Import CryptoJS.

Inductive ViewerPhase := idle | loading | awaiting_password | ready | error | burned.

Record NoteMeta := {
  nm_encrypted : string;
  nm_expiresAt : Q;
  nm_servedBy : MessageService.ServedBy;
  nm_mode : string;
  nm_remainingViews : option Z
}.

(** The state of the component that [hydrate] and [handlePasswordSubmit]
    read and set. *)
Record State := {
  phase : ViewerPhase;
  error_message : option string;
  noteMeta : option NoteMeta;
  message : string;
  passwordInput : string;
  passwordError : option string
}.

Definition initial : State :=
  {| phase := idle; error_message := None; noteMeta := None; message := "";
     passwordInput := ""; passwordError := None |}.

Definition setPhase (p : ViewerPhase) (v : State) : State :=
  {| phase := p; error_message := error_message v; noteMeta := noteMeta v;
     message := message v; passwordInput := passwordInput v;
     passwordError := passwordError v |}.

Definition setError (e : option string) (v : State) : State :=
  {| phase := phase v; error_message := e; noteMeta := noteMeta v;
     message := message v; passwordInput := passwordInput v;
     passwordError := passwordError v |}.

Definition setNoteMeta (m : NoteMeta) (v : State) : State :=
  {| phase := phase v; error_message := error_message v; noteMeta := Some m;
     message := message v; passwordInput := passwordInput v;
     passwordError := passwordError v |}.

Definition setMessage (m : string) (v : State) : State :=
  {| phase := phase v; error_message := error_message v; noteMeta := noteMeta v;
     message := m; passwordInput := passwordInput v;
     passwordError := passwordError v |}.

Definition setPasswordInput (p : string) (v : State) : State :=
  {| phase := phase v; error_message := error_message v; noteMeta := noteMeta v;
     message := message v; passwordInput := p;
     passwordError := passwordError v |}.

Definition setPasswordError (e : option string) (v : State) : State :=
  {| phase := phase v; error_message := error_message v; noteMeta := noteMeta v;
     message := message v; passwordInput := passwordInput v;
     passwordError := e |}.

Section WithLib.
Context (L : Lib).
Context (StringToNumber : string -> Server.JsNumber).
Context (cfg : Server.Config).
Context (API_BASE_URL : option string).

(** The effect of mounting the component with [id] and [keyParam]; it is
    not unmounted while [hydrate] runs. [readAt] and [now] are the clock
    values [fetchMessage] observes, [w] the call log of crypto-js. *)
Definition hydrate (id keyParam : option string) (readAt now : Z) (v : State)
    (w : Encryption.World L) (st : MessageService.Stores)
    : State * Encryption.World L * MessageService.Stores :=
  if JS.falsy_opt id then
    (setError (Some "Missing note id in the URL.") (setPhase error v), w, st)
  else
    let noteId := JS.nullish id "" in
    let v := setPasswordError None (setError None (setPhase loading v)) in
    match MessageService.fetchMessage API_BASE_URL readAt now noteId st with
    | (inl (JS.Err reason), st') => (setError (Some reason) (setPhase error v), w, st')
    | (inr payload, st') =>
        let inspection :=
          Encryption.inspectEncryptedPayload L (MessageService.fr_encrypted payload) in
        let mode :=
          if String.eqb (Encryption.insp_version inspection) "legacy" then "legacy"
          else Encryption.insp_mode inspection in
        let meta :=
          {| nm_encrypted := MessageService.fr_encrypted payload;
             nm_expiresAt := MessageService.fr_expiresAt payload;
             nm_servedBy := MessageService.fr_servedBy payload;
             nm_mode := mode;
             nm_remainingViews := MessageService.fr_remainingViews payload |} in
        let v := setNoteMeta meta v in
        if String.eqb mode "password" then (setPhase awaiting_password v, w, st')
        else if JS.falsy_opt keyParam then
          (setError (Some "This link is missing its secret key.") (setPhase error v), w, st')
        else
          match Encryption.decryptMessage L (MessageService.fr_encrypted payload)
                  {| Encryption.key := keyParam; Encryption.password := None |} w with
          | (inr decrypted, w') => (setPhase ready (setMessage decrypted v), w', st')
          | (inl (JS.Err reason), w') =>
              (setError (Some reason) (setPhase error v), w', st')
          end
    end.

Definition handlePasswordSubmit (v : State) (w : Encryption.World L)
    : State * Encryption.World L :=
  match noteMeta v with
  | None => (v, w)
  | Some meta =>
      let trimmed := JS.trim (passwordInput v) in
      if JS.falsy trimmed then
        (setPasswordError (Some "Enter the password you received.") v, w)
      else
        let v := setPasswordError None v in
        match Encryption.decryptMessage L (nm_encrypted meta)
                {| Encryption.key := None; Encryption.password := Some trimmed |} w with
        | (inr decrypted, w') =>
            (setPasswordInput "" (setPhase ready (setMessage decrypted v)), w')
        | (inl (JS.Err reason), w') => (setPasswordError (Some reason) v, w')
        end
  end.

End WithLib.

End Viewer.


(** ** A small instance of the crypto-js interface

    It shows the laws of [CryptoJS.Laws] and [CryptoJS.IdealMac] consistent
    and lets the functions of [Encryption] run on concrete inputs. Word
    arrays are byte strings; the cipher masks every byte with one drawn from
    the key and the iv. *)

Module Model.
Import CryptoJS.

Fixpoint repeat_char (n : nat) (c : ascii) : string :=
  match n with
  | O => ""
  | S n' => String c (repeat_char n' c)
  end.

(** Two characters per byte, as a hexadecimal rendering has. *)
Fixpoint double (s : string) : string :=
  match s with
  | "" => ""
  | String c r => String c (String c (double r))
  end.

Fixpoint halve (s : string) : string :=
  match s with
  | String a (String _ r) => String a (halve r)
  | _ => ""
  end.

(** [n] characters read cyclically from [seed]. *)
Fixpoint fill (n : nat) (seed cur : string) : string :=
  match n with
  | O => ""
  | S n' =>
      match cur with
      | String c r => String c (fill n' seed r)
      | "" =>
          match seed with
          | String c r => String c (fill n' seed r)
          | "" => String "0" (fill n' seed seed)
          end
      end
  end.

Definition xor_ascii (a b : ascii) : ascii :=
  match a, b with
  | Ascii a0 a1 a2 a3 a4 a5 a6 a7, Ascii b0 b1 b2 b3 b4 b5 b6 b7 =>
      Ascii (xorb a0 b0) (xorb a1 b1) (xorb a2 b2) (xorb a3 b3)
            (xorb a4 b4) (xorb a5 b5) (xorb a6 b6) (xorb a7 b7)
  end.

Definition first_byte (s : string) : ascii :=
  match s with
  | String c _ => c
  | "" => Ascii.zero
  end.

Fixpoint mask (pad : ascii) (s : string) : string :=
  match s with
  | "" => ""
  | String c r => String (xor_ascii c pad) (mask pad r)
  end.

Definition cipher (text key iv : string) : string :=
  mask (xor_ascii (first_byte key) (first_byte iv)) text.

(** The key, preceded by its length in unary, then the message. *)
Definition mac (message key : string) : string :=
  repeat_char (String.length key) "1" +:+ String "0" (key +:+ message).

Definition kdf (password salt : string) (keySize iterations : Z) : string :=
  let seed := password +:+ salt +:+ JS.String_of_number iterations in
  fill (Z.to_nat (4 * keySize)) seed seed.

Definition draw (n : nat) (g : nat) : string * nat :=
  (repeat_char n (ascii_of_nat (65 + g mod 26)), S g).

Fixpoint pos_bits (p : positive) : string :=
  match p with
  | xH => ""
  | xO q => String "0" (pos_bits q)
  | xI q => String "1" (pos_bits q)
  end.

Fixpoint bits_pos (s : string) : option positive :=
  match s with
  | "" => Some xH
  | String c r =>
      if Ascii.eqb c "0" then xO <$> bits_pos r
      else if Ascii.eqb c "1" then xI <$> bits_pos r
      else None
  end.

Definition envelope_to_tuple (e : EncryptionEnvelope) :=
  (version e, mode e, ciphertext e, iv e, salt e, hmac e, iterations e, createdAt e).

Definition envelope_of_tuple
    (t : string * string * string * string * option string * string * option Z * option Z)
    : EncryptionEnvelope :=
  let '(v, m, c, i, s, h, it, cr) := t in
  {| version := v; mode := m; ciphertext := c; iv := i; salt := s; hmac := h;
     iterations := it; createdAt := cr |}.

#[local] Instance envelope_eq_dec : EqDecision EncryptionEnvelope.
Proof. solve_decision. Defined.

#[local] Instance envelope_countable : Countable EncryptionEnvelope.
Proof.
  refine (inj_countable' envelope_to_tuple envelope_of_tuple _).
  intros []; reflexivity.
Defined.

Definition stringify (e : EncryptionEnvelope) : string := pos_bits (encode e).

Definition parse (s : string) : Parsed :=
  match bits_pos s ≫= decode with
  | Some e => JObject e
  | None => JThrows
  end.

Definition lib : Lib :=
  {| WordArray := string;
     sigBytes := String.length;
     Rng := nat;
     WordArray_random := draw;
     Base64_stringify := fun w => w;
     Base64_parse := fun s => s;
     Hex_stringify := double;
     Hex_parse := halve;
     AES_encrypt := cipher;
     AES_decrypt := fun c key iv => Some (cipher c key iv);
     AES_decrypt_passphrase := fun c _ => Some c;
     PBKDF2 := kdf;
     HmacSHA256 := mac;
     JSON_stringify := stringify;
     JSON_parse := parse |}.

Definition world (g : nat) (now : Z) : Encryption.World lib :=
  Encryption.Build_World lib g now [].

(** Sample envelopes, tagged under the sample credentials. *)
Definition sample_key : string := repeat_char 64 "K".

Definition sample_link_envelope : EncryptionEnvelope :=
  let p := {| Encryption.hp_mode := "link"; Encryption.hp_ciphertext := "hello";
              Encryption.hp_iv := repeat_char 16 "A"; Encryption.hp_salt := None;
              Encryption.hp_createdAt := Some 1700000000000 |} in
  {| version := Encryption.ENVELOPE_VERSION; mode := "link"; ciphertext := "hello";
     iv := repeat_char 16 "A"; salt := None;
     hmac := Encryption.integrityTag lib p
               (Encryption.hmacKey lib (Encryption.splitMasterKey lib sample_key));
     iterations := Some Encryption.PBKDF2_ITERATIONS;
     createdAt := Some 1700000000000 |}.

Definition sample_password_envelope (count : option Z) : EncryptionEnvelope :=
  let p := {| Encryption.hp_mode := "password"; Encryption.hp_ciphertext := "hello";
              Encryption.hp_iv := repeat_char 16 "A";
              Encryption.hp_salt := Some (repeat_char 16 "S");
              Encryption.hp_createdAt := Some 1700000000000 |} in
  {| version := Encryption.ENVELOPE_VERSION; mode := "password"; ciphertext := "hello";
     iv := repeat_char 16 "A"; salt := Some (repeat_char 16 "S");
     hmac := Encryption.integrityTag lib p
               (Encryption.hmacKey lib
                  (Encryption.derivedKeys lib "hunter2" (repeat_char 16 "S")
                     (JS.nullish count Encryption.PBKDF2_ITERATIONS)));
     iterations := count;
     createdAt := Some 1700000000000 |}.

(** A password-mode envelope that lost its salt. *)
Definition sample_saltless_envelope : EncryptionEnvelope :=
  {| version := Encryption.ENVELOPE_VERSION; mode := "password"; ciphertext := "hello";
     iv := repeat_char 16 "A"; salt := None; hmac := "tag";
     iterations := None; createdAt := None |}.

Definition link_credential : Encryption.DecryptOptions :=
  {| Encryption.key := Some sample_key; Encryption.password := None |}.

Definition password_credential (pw : string) : Encryption.DecryptOptions :=
  {| Encryption.key := None; Encryption.password := Some pw |}.

(** A form submitted at time 1700000000000 with empty stores, against the
    API when [api] is set and against the browser's storage otherwise. *)
Definition sample_submit (api : option string) (protect burn : bool)
    : Composer.Outcome * Encryption.World lib * MessageService.Stores :=
  Composer.handleSubmit lib Server.sample_StringToNumber Server.defaultConfig api None
    (Composer.sample_form protect burn) Composer.sample_id
    1700000000000 1700000000000 1700000000001 (world 0 1700000000000)
    MessageService.no_stores.

Definition sample_shared (api : option string) (protect burn : bool) : Composer.Shared :=
  match fst (fst (sample_submit api protect burn)) with
  | Composer.Done shared => shared
  | _ =>
      {| Composer.shareLink := {| Composer.link_id := ""; Composer.link_key := None |};
         Composer.expiresAt := 0; Composer.servedBy := MessageService.local;
         Composer.requiresPassword := false; Composer.shareKey := None;
         Composer.viewsAllowed := None |}
  end.

Definition sample_api : option string := Some "https://api.cryptopad.example".

End Model.



(** ** Properties of [encryption.ts] *)

Module EncryptionFacts.
Import CryptoJS Encryption.

(** *** Strings *)

Lemma get_lt (s : string) (i : nat) :
  (i < String.length s)%nat -> exists c, String.get i s = Some c.
Proof.
  revert i. induction s as [|c s IH]; intros i Hi; simpl in *; [lia|].
  destruct i as [|i]; [eauto|]. apply IH. lia.
Qed.

Lemma get_ge (s : string) (i : nat) :
  (String.length s <= i)%nat -> String.get i s = None.
Proof.
  revert i. induction s as [|c s IH]; intros i Hi; simpl in *; [reflexivity|].
  destruct i as [|i]; [lia|]. apply IH. lia.
Qed.

Lemma N_of_ascii_inj (c d : ascii) : N_of_ascii c = N_of_ascii d -> c = d.
Proof.
  intros H. rewrite <- (ascii_N_embedding c), <- (ascii_N_embedding d). now rewrite H.
Qed.

Lemma charCodeAt_ext (a b : string) :
  String.length a = String.length b ->
  (forall i, (i < String.length a)%nat -> JS.charCodeAt a i = JS.charCodeAt b i) ->
  a = b.
Proof.
  intros Hlen Hcode. apply String.get_correct. intros i.
  destruct (Nat.lt_ge_cases i (String.length a)) as [Hi|Hi].
  - specialize (Hcode i Hi). unfold JS.charCodeAt in Hcode.
    destruct (get_lt a i Hi) as [c Hc].
    destruct (get_lt b i ltac:(lia)) as [d Hd].
    rewrite Hc, Hd in *. f_equal. now apply N_of_ascii_inj.
  - rewrite !get_ge by lia. reflexivity.
Qed.

Lemma length_substring (s : string) (n m : nat) :
  (n + m <= String.length s)%nat -> String.length (String.substring n m s) = m.
Proof.
  revert n m. induction s as [|c s IH]; intros n m H; simpl in *.
  - destruct n, m; simpl; lia.
  - destruct n as [|n].
    + destruct m as [|m]; simpl; [reflexivity|]. f_equal. apply IH. lia.
    + apply IH. lia.
Qed.

Lemma append_inv_tail (x y t : string) :
  String.length x = String.length y -> x +:+ t = y +:+ t -> x = y.
Proof.
  revert y. induction x as [|c x IH]; intros [|d y] Hlen H; simpl in *;
    try discriminate; [reflexivity|].
  injection H as -> H. f_equal. apply IH; [lia|assumption].
Qed.

(** *** [timingSafeEqual] decides equality *)

Lemma timingSafeEqual_loop_zero (a b : string) (steps index : nat) (result : N) :
  timingSafeEqual_loop a b index steps result = 0%N <->
  result = 0%N /\
  forall i, (index <= i < index + steps)%nat -> JS.charCodeAt a i = JS.charCodeAt b i.
Proof.
  revert index result. induction steps as [|steps IH]; intros index result; simpl.
  - split; [intros ->; split; [reflexivity|intros; lia]|tauto].
  - rewrite IH, N.lor_eq_0_iff, N.lxor_eq_0_iff. split.
    + intros [[-> Heq] Hrest]. split; [reflexivity|].
      intros i Hi. destruct (Nat.eq_dec i index) as [->|]; [assumption|].
      apply Hrest. lia.
    + intros [-> Hall]. repeat split.
      * apply Hall. lia.
      * intros i Hi. apply Hall. lia.
Qed.

Lemma timingSafeEqual_true (a b : string) : timingSafeEqual a b = true <-> a = b.
Proof.
  unfold timingSafeEqual.
  destruct (Nat.eqb_spec (String.length a) (String.length b)) as [Hlen|Hlen]; simpl.
  - rewrite N.eqb_eq, timingSafeEqual_loop_zero. split.
    + intros [_ H]. apply charCodeAt_ext; [assumption|]. intros i Hi. apply H. lia.
    + intros ->. split; [reflexivity|reflexivity].
  - split; [discriminate|]. intros ->. now destruct Hlen.
Qed.

Lemma timingSafeEqual_refl (a : string) : timingSafeEqual a a = true.
Proof. now apply timingSafeEqual_true. Qed.

Lemma timingSafeEqual_false (a b : string) : a <> b -> timingSafeEqual a b = false.
Proof.
  intros H. destruct (timingSafeEqual a b) eqn:E; [|reflexivity].
  now apply timingSafeEqual_true in E.
Qed.

(** *** One changed code unit *)

Lemma flipped_neq (s s' : string) : flipped s s' -> s <> s'.
Proof. induction 1; congruence. Qed.

Lemma flipped_length (s s' : string) : flipped s s' -> String.length s = String.length s'.
Proof. induction 1; simpl; congruence. Qed.

Lemma flipped_truthy (s s' : string) : flipped s s' -> JS.falsy s' = false.
Proof. now destruct 1. Qed.

Lemma flipped_append (s s' t : string) : flipped s s' -> s +:+ t <> s' +:+ t.
Proof.
  intros H E. apply (flipped_neq _ _ H).
  eapply append_inv_tail; [now apply flipped_length|eassumption].
Qed.

Section WithLib.
Context (L : Lib).

Implicit Types (w : World L) (e : EncryptionEnvelope) (o : DecryptOptions).

Lemma logged_nil w : logged L w [] = w.
Proof. destruct w. unfold logged. simpl. now rewrite app_nil_r. Qed.

Lemma logged_app w (l1 l2 : list (Call L)) :
  logged L (logged L w l1) l2 = logged L w (l1 ++ l2).
Proof. unfold logged. simpl. now rewrite app_assoc. Qed.

Lemma tryParseEnvelope_versioned payload e :
  JSON_parse L payload = JObject e -> versioned e ->
  tryParseEnvelope L payload = Some e.
Proof.
  intros Hp [Hv Hm]. unfold tryParseEnvelope. rewrite Hp, Hv. simpl.
  destruct Hm as [-> | ->]; reflexivity.
Qed.

Lemma tryParseEnvelope_Some payload e :
  tryParseEnvelope L payload = Some e -> versioned e.
Proof.
  unfold tryParseEnvelope, versioned.
  destruct (JSON_parse L payload) as [| |p]; try discriminate.
  destruct (String.eqb_spec (version p) ENVELOPE_VERSION) as [Hv|]; simpl; [|discriminate].
  destruct (String.eqb_spec (mode p) "link") as [Hl|]; simpl.
  - intros [= <-]. auto.
  - destruct (String.eqb_spec (mode p) "password") as [Hp|]; simpl; [|discriminate].
    intros [= <-]. auto.
Qed.

Lemma computeIntegrity_run (p : HmacPayload) (k : WordArray L) w :
  computeIntegrity L p k w
  = (inr (integrityTag L p k),
     logged L w [CallHmacSHA256 L (integrityMessage p) k]).
Proof. reflexivity. Qed.

Lemma resolveKeys_run e o keys w :
  credentialKeys L e o = Some keys ->
  resolveKeys L e o w = (inr keys, logged L w (derivationLog L e o)).
Proof.
  unfold credentialKeys, resolveKeys, derivationLog.
  destruct (String.eqb (mode e) "password").
  - destruct (password o) as [pw|]; [|discriminate].
    destruct (salt e) as [s|]; [|discriminate]. simpl.
    destruct (JS.falsy pw); [discriminate|]. destruct (JS.falsy s); [discriminate|].
    simpl. intros [= <-]. reflexivity.
  - destruct (key o) as [k|]; [|discriminate]. simpl.
    destruct (JS.falsy k); [discriminate|]. intros [= <-].
    unfold ret. now rewrite logged_nil.
Qed.

Lemma derivationLog_no_decrypt e o : no_decrypt L (derivationLog L e o).
Proof. unfold derivationLog, no_decrypt. now destruct (String.eqb (mode e) "password"). Qed.

(** The integrity check is the gate of [decryptMessage]: a mismatch stops
    it before the cipher is called. *)
Lemma decryptMessage_mismatch payload e o keys w :
  tryParseEnvelope L payload = Some e ->
  credentialKeys L e o = Some keys ->
  integrityTag L (hmacPayloadOf e) (hmacKey L keys) <> hmac e ->
  decryptMessage L payload o w
  = (inl IntegrityError,
     logged L w (derivationLog L e o
                 ++ [CallHmacSHA256 L (integrityMessage (hmacPayloadOf e)) (hmacKey L keys)])).
Proof.
  intros Hp Hk Hne. unfold decryptMessage. rewrite Hp. unfold bind.
  rewrite (resolveKeys_run _ _ _ _ Hk).
  change (computeIntegrity L _ (hmacKey L keys))
    with (computeIntegrity L (hmacPayloadOf e) (hmacKey L keys)).
  rewrite computeIntegrity_run, (timingSafeEqual_false _ _ Hne). simpl.
  unfold throw. now rewrite logged_app.
Qed.

Lemma decryptMessage_match payload e o keys w :
  tryParseEnvelope L payload = Some e ->
  credentialKeys L e o = Some keys ->
  integrityTag L (hmacPayloadOf e) (hmacKey L keys) = hmac e ->
  let ct := Base64_parse L (ciphertext e) in
  let ivw := Base64_parse L (iv e) in
  let w' := logged L w (derivationLog L e o
                 ++ [CallHmacSHA256 L (integrityMessage (hmacPayloadOf e)) (hmacKey L keys);
                     CallAESDecrypt L ct (aesKey L keys) ivw]) in
  decryptMessage L payload o w
  = match AES_decrypt L ct (aesKey L keys) ivw with
    | Some decrypted =>
        if JS.falsy decrypted then (inl DecryptionError, w') else (inr decrypted, w')
    | None => (inl MalformedUtf8, w')
    end.
Proof.
  intros Hp Hk Heq. simpl. unfold decryptMessage. rewrite Hp. unfold bind.
  rewrite (resolveKeys_run _ _ _ _ Hk).
  change (computeIntegrity L _ (hmacKey L keys))
    with (computeIntegrity L (hmacPayloadOf e) (hmacKey L keys)).
  rewrite computeIntegrity_run, Heq, timingSafeEqual_refl. simpl.
  unfold aesDecrypt, bind, invoke. rewrite !logged_app. simpl.
  destruct (AES_decrypt L _ _ _) as [d|]; [|reflexivity].
  unfold ret, throw. now destruct (JS.falsy d).
Qed.

Lemma credentialKeys_password e o pw :
  mode e = "password" -> password o = Some pw -> JS.falsy pw = false ->
  JS.falsy_opt (salt e) = false ->
  credentialKeys L e o
  = Some (derivedKeys L pw (Base64_parse L (JS.nullish (salt e) ""))
            (JS.nullish (iterations e) PBKDF2_ITERATIONS)).
Proof.
  intros Hm Hp Hpw Hs. unfold credentialKeys. rewrite Hm, Hp. simpl.
  destruct (salt e) as [s|]; [|discriminate]. simpl in *. now rewrite Hpw, Hs.
Qed.

(** Whatever the outcome of the integrity check, the log of a versioned
    decryption starts with the key derivation and the MAC. *)
Lemma decryptMessage_log payload e o keys w :
  tryParseEnvelope L payload = Some e ->
  credentialKeys L e o = Some keys ->
  exists r rest,
    decryptMessage L payload o w
    = (r, logged L w (derivationLog L e o
                      ++ CallHmacSHA256 L (integrityMessage (hmacPayloadOf e)) (hmacKey L keys)
                      :: rest)).
Proof.
  intros Hp Hk.
  destruct (String.eqb_spec (integrityTag L (hmacPayloadOf e) (hmacKey L keys)) (hmac e))
    as [Heq|Hne].
  - rewrite (decryptMessage_match _ _ _ _ w Hp Hk Heq).
    destruct (AES_decrypt L _ _ _) as [d|]; [destruct (JS.falsy d)|]; eauto.
  - rewrite (decryptMessage_mismatch _ _ _ _ w Hp Hk Hne). eauto.
Qed.

(** C10. For a versioned password-mode envelope (password supplied, salt
    present) [decryptMessage] calls the KDF with the envelope's own
    [iterations], whatever its value (1 stays 1: no minimum is enforced),
    and with 150000 when the field is absent; the integrity key it then
    uses is the one that derivation gives. *)
Theorem decrypt_uses_envelope_iterations payload e o pw w :
  tryParseEnvelope L payload = Some e ->
  mode e = "password" ->
  password o = Some pw -> JS.falsy pw = false ->
  JS.falsy_opt (salt e) = false ->
  let count := match iterations e with Some n => n | None => 150000 end in
  let saltWord := Base64_parse L (JS.nullish (salt e) "") in
  exists r rest,
    decryptMessage L payload o w
    = (r, logged L w
            (CallPBKDF2 L pw saltWord 16 count
             :: CallHmacSHA256 L (integrityMessage (hmacPayloadOf e))
                  (hmacKey L (splitDerivedKey L (PBKDF2 L pw saltWord 16 count)))
             :: rest)).
Proof.
  intros Hp Hm Ho Hpw Hs. simpl.
  pose proof (credentialKeys_password e o pw Hm Ho Hpw Hs) as Hk.
  destruct (decryptMessage_log payload e o _ w Hp Hk) as (r & rest & Hrun).
  exists r, rest. rewrite Hrun. unfold derivationLog. rewrite Hm, Ho. simpl.
  destruct (iterations e); reflexivity.
Qed.

(** C3, as amended. A password-mode envelope opened without a password,
    absent or empty, fails with the password-required error and the world
    unchanged. Opened with a non-empty password other than the right one, it
    fails with the integrity error exactly when the KDF maps that password to
    another integrity key than the right one, and then before the cipher is
    called. A link-mode envelope opened without a key, absent or empty, fails
    with the missing-key error before any call of the KDF, the MAC or the
    cipher. *)
Theorem wrong_or_missing_credential (HL : Laws L) (HM : IdealMac L) :
  (forall payload e o w,
      tryParseEnvelope L payload = Some e ->
      mode e = "password" ->
      JS.falsy_opt (password o) = true ->
      decryptMessage L payload o w = (inl PasswordRequired, w))
  /\ (forall payload e k pw pw' w,
        tryParseEnvelope L payload = Some e ->
        mode e = "password" ->
        authentic L e {| key := k; password := Some pw |} ->
        JS.falsy pw' = false ->
        (separates L e pw pw' ->
         exists log,
           decryptMessage L payload {| key := k; password := Some pw' |} w
           = (inl IntegrityError, logged L w log)
           /\ no_decrypt L log)
        /\ (fst (decryptMessage L payload {| key := k; password := Some pw' |} w)
            = inl IntegrityError ->
            separates L e pw pw'))
  /\ (forall payload e k pw w,
        tryParseEnvelope L payload = Some e ->
        mode e = "link" ->
        JS.falsy_opt k = true ->
        decryptMessage L payload {| key := k; password := pw |} w
        = (inl MissingLinkKey, w)).
Proof.
  split; [|split].
  - intros payload e o w Hp Hm Ho. unfold decryptMessage. rewrite Hp.
    unfold bind, resolveKeys. rewrite Hm. simpl. now rewrite Ho.
  - intros payload e k pw pw' w Hp Hm (_ & keys & Hk & Htag) Hpw'.
    assert (Hs : JS.falsy_opt (salt e) = false /\ JS.falsy pw = false).
    { unfold credentialKeys in Hk. rewrite Hm in Hk. simpl in Hk.
      destruct (salt e) as [s|]; [|discriminate]. simpl.
      destruct (JS.falsy pw), (JS.falsy s); try discriminate. auto. }
    destruct Hs as [Hs Hpw].
    rewrite (credentialKeys_password e {| key := k; password := Some pw |} pw
               Hm eq_refl Hpw Hs) in Hk.
    injection Hk as <-.
    pose proof (credentialKeys_password e {| key := k; password := Some pw' |}
                  pw' Hm eq_refl Hpw' Hs) as Hk'.
    split.
    + intros Hsep. eexists. split.
      * apply (decryptMessage_mismatch payload e _ _ w Hp Hk').
        rewrite Htag. unfold integrityTag. intros Heq.
        apply (f_equal (Base64_parse L)) in Heq.
        rewrite !(Base64_roundtrip L HL) in Heq.
        apply HM in Heq. destruct Heq as [_ Heq]. apply Hsep. now symmetry.
      * unfold no_decrypt. rewrite forallb_app. simpl.
        rewrite (derivationLog_no_decrypt e). reflexivity.
    + intros Herr Heq. unfold separates in *.
      assert (Hsame : integrityTag L (hmacPayloadOf e)
                        (hmacKey L (derivedKeys L pw'
                                      (Base64_parse L (JS.nullish (salt e) ""))
                                      (JS.nullish (iterations e) PBKDF2_ITERATIONS)))
                      = hmac e).
      { rewrite Htag. unfold integrityTag. now rewrite Heq. }
      pose proof (decryptMessage_match payload e _ _ w Hp Hk' Hsame) as Hrun.
      cbv zeta in Hrun. rewrite Hrun in Herr.
      destruct (AES_decrypt L _ _ _) as [d|]; [destruct (JS.falsy d)|];
        cbn [fst] in Herr; discriminate.
  - intros payload e k pw w Hp Hm Hk. unfold decryptMessage. rewrite Hp.
    unfold bind, resolveKeys. rewrite Hm. simpl. now rewrite Hk.
Qed.

(** *** Tampering *)

Lemma integrityMessage_unfold (p : HmacPayload) :
  integrityMessage p
  = hp_mode p +:+ "|" +:+ hp_ciphertext p +:+ "|" +:+ hp_iv p +:+ "|"
    +:+ JS.nullish (hp_salt p) "" +:+ "|"
    +:+ JS.String_of_number (JS.nullish (hp_createdAt p) 0) +:+ "|" +:+ ENVELOPE_VERSION.
Proof. reflexivity. Qed.

Lemma tampered_versioned e e' : tampered e e' -> versioned e -> versioned e'.
Proof. now destruct 1. Qed.

(** Changing one byte of a MAC-ed field changes the MAC-ed message. *)
Lemma tampered_message e e' :
  tampered e e' -> hmac e' = hmac e ->
  integrityMessage (hmacPayloadOf e') <> integrityMessage (hmacPayloadOf e).
Proof.
  intros Ht Hh. rewrite !integrityMessage_unfold.
  destruct Ht as [x Hx | x Hx | s x Hs Hx | x Hx]; simpl in *.
  - intros E. apply (inj (String.append _)) in E. apply (inj (String.append _)) in E.
    symmetry in E. revert E. now apply flipped_append.
  - intros E. do 4 apply (inj (String.append _)) in E.
    symmetry in E. revert E. now apply flipped_append.
  - rewrite Hs. simpl. intros E. do 6 apply (inj (String.append _)) in E.
    symmetry in E. revert E. now apply flipped_append.
  - symmetry in Hh. now apply flipped_neq in Hx.
Qed.

Lemma tampered_credentialKeys e e' o keys :
  tampered e e' -> credentialKeys L e o = Some keys ->
  exists keys', credentialKeys L e' o = Some keys'
                /\ (salt e' = salt e -> keys' = keys).
Proof.
  intros Ht Hk.
  destruct Ht as [x Hx | x Hx | s x Hs Hx | x Hx]; try (exists keys; now split).
  unfold credentialKeys in *. simpl.
  destruct (String.eqb (mode e) "password").
  - destruct (password o) as [pw|]; [|discriminate]. rewrite Hs in Hk.
    destruct (JS.falsy pw); [discriminate|]. simpl.
    rewrite (flipped_truthy _ _ Hx). eexists. split; [reflexivity|].
    rewrite Hs. intros [= ->]. now apply flipped_neq in Hx.
  - exists keys. now split.
Qed.

Lemma integrityTag_injective (HL : Laws L) (HM : IdealMac L)
    (p p' : HmacPayload) (k k' : WordArray L) :
  integrityTag L p k = integrityTag L p' k' ->
  integrityMessage p = integrityMessage p' /\ k = k'.
Proof.
  unfold integrityTag. intros H. apply (f_equal (Base64_parse L)) in H.
  rewrite !(Base64_roundtrip L HL) in H. now apply HM.
Qed.

(** C2. Take a versioned envelope whose tag is the one its credential
    gives, change one byte of its ciphertext, iv, salt or tag, and hand the
    result to [decryptMessage] with that credential: it fails with the
    integrity error, so no plaintext comes back, and the log of the run holds
    no call of the cipher's decrypt primitive. *)
Theorem tamper_detection (HL : Laws L) (HM : IdealMac L) e e' o w :
  authentic L e o ->
  tampered e e' ->
  exists log,
    decryptMessage L (JSON_stringify L e') o w = (inl IntegrityError, logged L w log)
    /\ no_decrypt L log.
Proof.
  intros (Hv & keys & Hk & Htag) Ht.
  assert (Hp : tryParseEnvelope L (JSON_stringify L e') = Some e').
  { apply tryParseEnvelope_versioned; [apply (JSON_roundtrip L HL)|].
    now apply (tampered_versioned e). }
  destruct (tampered_credentialKeys e e' o keys Ht Hk) as (keys' & Hk' & Hsame).
  eexists. split.
  - apply (decryptMessage_mismatch _ e' o keys' w Hp Hk').
    destruct (String.eqb_spec (hmac e') (hmac e)) as [Hh|Hh].
    + rewrite Hh, Htag. intros E.
      apply (integrityTag_injective HL HM) in E. destruct E as [E _].
      now apply (tampered_message e e' Ht Hh).
    + assert (Hs : salt e' = salt e /\ hmacPayloadOf e' = hmacPayloadOf e).
      { destruct Ht; simpl in *; try (exfalso; now apply Hh). now split. }
      destruct Hs as [Hs Hpay]. rewrite (Hsame Hs), Hpay, <- Htag. congruence.
  - unfold no_decrypt. rewrite forallb_app. simpl.
    rewrite (derivationLog_no_decrypt e'). reflexivity.
Qed.

(** *** Round trip *)

Lemma truthy_of_nonempty (s : string) : s <> "" -> JS.falsy s = false.
Proof. intros H. unfold JS.falsy. now destruct (String.eqb_spec s ""). Qed.

Lemma split_sigBytes (HL : Laws L) (secret : WordArray L) :
  sigBytes L secret = 64%nat ->
  sigBytes L (aesKey L (splitMasterKey L secret)) = 32%nat
  /\ sigBytes L (aesKey L (splitDerivedKey L secret)) = 32%nat.
Proof.
  intros H. pose proof (Hex_stringify_length L HL secret) as Hlen. rewrite H in Hlen.
  split; simpl; apply (Hex_parse_sigBytes L HL); unfold JS.slice;
    rewrite length_substring; simpl; lia.
Qed.

(** What [encryptMessage] returns: the serialised envelope is versioned,
    carries the tag of the credential handed back to the caller, and its
    ciphertext decrypts to the message under that credential's cipher key. *)
Lemma encryptMessage_sound (HL : Laws L) message options w :
  exists r e keys w',
    encryptMessage L message options w = (inr r, w')
    /\ payload r = JSON_stringify L e
    /\ versioned e
    /\ credentialKeys L e (matchingCredential r options) = Some keys
    /\ hmac e = integrityTag L (hmacPayloadOf e) (hmacKey L keys)
    /\ AES_decrypt L (Base64_parse L (ciphertext e)) (aesKey L keys)
         (Base64_parse L (iv e)) = Some message.
Proof.
  unfold encryptMessage, bind, random, Date_now.
  destruct (WordArray_random L IV_BYTES (entropy L w)) as [ivw g1] eqn:E1.
  pose proof (random_sigBytes L HL IV_BYTES (entropy L w)) as Hiv.
  rewrite E1 in Hiv. simpl in Hiv.
  destruct (JS.falsy_opt (enc_password options)) eqn:Hpw; simpl.
  - (* link mode *)
    destruct (WordArray_random L (Z.to_nat MASTER_KEY_BYTES) g1) as [mk g2] eqn:E2.
    pose proof (random_sigBytes L HL (Z.to_nat MASTER_KEY_BYTES) g1) as Hmk.
    rewrite E2 in Hmk. simpl in Hmk.
    unfold aesEncrypt, invoke, computeIntegrity, bind, invoke, ret. simpl.
    eexists _, (Build_EncryptionEnvelope _ _ _ _ _ _ _ _), (splitMasterKey L mk), _.
    split; [reflexivity|]. split; [reflexivity|].
    split; [split; [reflexivity|now left]|].
    split.
    { unfold credentialKeys, matchingCredential. simpl.
      rewrite truthy_of_nonempty.
      - now rewrite (Base64_roundtrip L HL).
      - apply (Base64_nonempty L HL). rewrite Hmk. discriminate. }
    split; [reflexivity|]. simpl.
    rewrite !(Base64_roundtrip L HL). apply (AES_roundtrip L HL); [|assumption].
    apply (split_sigBytes HL mk). exact Hmk.
  - (* password mode *)
    destruct (enc_password options) as [pw|] eqn:Hopt; [|discriminate]. simpl in Hpw.
    destruct (WordArray_random L SALT_BYTES g1) as [sw g2] eqn:E2.
    pose proof (random_sigBytes L HL SALT_BYTES g1) as Hsw.
    rewrite E2 in Hsw. simpl in Hsw.
    unfold deriveKeyFromPassword, aesEncrypt, computeIntegrity, bind, invoke, ret. simpl.
    eexists _, (Build_EncryptionEnvelope _ _ _ _ _ _ _ _),
      (derivedKeys L pw sw PBKDF2_ITERATIONS), _.
    split; [reflexivity|]. split; [reflexivity|].
    split; [split; [reflexivity|now right]|].
    split.
    { unfold credentialKeys, matchingCredential. simpl. rewrite Hopt, Hpw.
      rewrite truthy_of_nonempty.
      - simpl. now rewrite (Base64_roundtrip L HL).
      - apply (Base64_nonempty L HL). rewrite Hsw. discriminate. }
    split; [reflexivity|]. simpl.
    rewrite !(Base64_roundtrip L HL). apply (AES_roundtrip L HL); [|assumption].
    apply (split_sigBytes HL). now rewrite (PBKDF2_sigBytes L HL).
Qed.

(** In particular the envelope is authentic for the credential handed
    back, so the tamper theorem applies to every payload [encryptMessage]
    produces. *)
Lemma encryptMessage_authentic (HL : Laws L) message options w :
  exists r e w',
    encryptMessage L message options w = (inr r, w')
    /\ payload r = JSON_stringify L e
    /\ authentic L e (matchingCredential r options).
Proof.
  destruct (encryptMessage_sound HL message options w)
    as (r & e & keys & w' & Hrun & Hpay & Hv & Hk & Htag & _).
  exists r, e, w'. split; [exact Hrun|]. split; [exact Hpay|].
  split; [exact Hv|]. exists keys. auto.
Qed.

Lemma decrypt_after_encrypt (HL : Laws L) message options w w2 :
  exists r w' w2',
    encryptMessage L message options w = (inr r, w')
    /\ decryptMessage L (payload r) (matchingCredential r options) w2
       = (if JS.falsy message then inl DecryptionError else inr message, w2').
Proof.
  destruct (encryptMessage_sound HL message options w)
    as (r & e & keys & w' & Hrun & Hpay & Hv & Hk & Htag & Hdec).
  exists r, w'. eexists. split; [exact Hrun|].
  assert (Hp : tryParseEnvelope L (payload r) = Some e).
  { rewrite Hpay. apply tryParseEnvelope_versioned; [apply (JSON_roundtrip L HL)|exact Hv]. }
  rewrite (decryptMessage_match _ _ _ _ w2 Hp Hk (eq_sym Htag)), Hdec.
  destruct (JS.falsy message); reflexivity.
Qed.

(** C1, as amended. For every non-empty message, in link mode with the
    returned share key and in password mode with the same password,
    [decryptMessage] applied to the payload of [encryptMessage] returns the
    message. *)
Theorem roundtrip_nonempty (HL : Laws L) message options w w2 :
  message <> "" ->
  exists r w',
    encryptMessage L message options w = (inr r, w')
    /\ fst (decryptMessage L (payload r) (matchingCredential r options) w2) = inr message.
Proof.
  intros Hne.
  destruct (decrypt_after_encrypt HL message options w w2) as (r & w' & w2' & Henc & Hdec).
  exists r, w'. split; [exact Henc|].
  rewrite Hdec. simpl. now rewrite (truthy_of_nonempty _ Hne).
Qed.

End WithLib.

End EncryptionFacts.

(** ** The sample instance satisfies the laws *)

Module ModelFacts.
Import CryptoJS Encryption Model.

Lemma length_repeat_char (n : nat) (c : ascii) : String.length (repeat_char n c) = n.
Proof. induction n; simpl; congruence. Qed.

Lemma length_double (s : string) : String.length (double s) = (2 * String.length s)%nat.
Proof. induction s as [|c s IH]; simpl; [reflexivity|]. rewrite IH. lia. Qed.

Lemma length_halve (n : nat) (h : string) :
  String.length h = (2 * n)%nat -> String.length (halve h) = n.
Proof.
  revert h. induction n as [|n IH]; intros h H.
  - destruct h; [reflexivity|discriminate].
  - destruct h as [|a [|b r]]; simpl in *; try lia. f_equal. apply IH. lia.
Qed.

Lemma length_fill (n : nat) (seed cur : string) : String.length (fill n seed cur) = n.
Proof.
  revert cur. induction n as [|n IH]; intros cur; simpl; [reflexivity|].
  destruct cur; [destruct seed|]; simpl; now rewrite IH.
Qed.

Lemma bits_pos_bits (p : positive) : bits_pos (pos_bits p) = Some p.
Proof. induction p as [p IH|p IH|]; simpl; [now rewrite IH..|reflexivity]. Qed.

Lemma unary_prefix_inj (a b : nat) (x y : string) :
  repeat_char a "1" +:+ String "0" x = repeat_char b "1" +:+ String "0" y ->
  a = b /\ x = y.
Proof.
  revert b. induction a as [|a IH]; intros [|b] H; simpl in *; try discriminate.
  - injection H as ->. auto.
  - injection H as H. apply IH in H. destruct H. auto.
Qed.

Lemma append_inj_length (x y s t : string) :
  String.length x = String.length y -> x +:+ s = y +:+ t -> x = y /\ s = t.
Proof.
  revert y. induction x as [|c x IH]; intros [|d y] Hlen H; simpl in *;
    try discriminate; [auto|].
  injection H as -> H. destruct (IH y ltac:(lia) H) as [-> ->]. auto.
Qed.

Lemma xor_ascii_involutive (c pad : ascii) : xor_ascii (xor_ascii c pad) pad = c.
Proof.
  destruct c, pad. simpl.
  now rewrite !xorb_assoc, !xorb_nilpotent, !xorb_false_r.
Qed.

Lemma mask_involutive (pad : ascii) (s : string) : mask pad (mask pad s) = s.
Proof.
  induction s as [|c s IH]; simpl; [reflexivity|].
  now rewrite xor_ascii_involutive, IH.
Qed.

Lemma model_laws : Laws lib.
Proof.
  constructor; simpl.
  - intros n g. apply length_repeat_char.
  - reflexivity.
  - intros [|c w] H; [now destruct H|discriminate].
  - apply length_double.
  - intros h n. apply length_halve.
  - intros pw s keySize it. apply length_fill.
  - intros m key iv _ _. unfold cipher. now rewrite mask_involutive.
  - intros e. unfold parse, stringify. rewrite bits_pos_bits. simpl.
    now rewrite decode_encode.
Qed.

Lemma model_ideal_mac : IdealMac lib.
Proof.
  intros m k m' k'. simpl. unfold mac. intros H.
  apply unary_prefix_inj in H. destruct H as [Hlen H].
  destruct (append_inj_length _ _ _ _ Hlen H). auto.
Qed.

End ModelFacts.

(** ** The envelope properties on the sample instance *)

Module EncryptionExamples.
Import CryptoJS Encryption Model.

Lemma sample_link_authentic : authentic lib sample_link_envelope link_credential.
Proof.
  split; [split; [reflexivity|left; reflexivity]|].
  eexists. split; reflexivity.
Defined.

Lemma sample_password_authentic (count : option Z) :
  authentic lib (sample_password_envelope count) (password_credential "hunter2").
Proof.
  split; [split; [reflexivity|right; reflexivity]|].
  eexists. split; reflexivity.
Defined.

Lemma flipped_hello : flipped "hello" "hellp".
Proof. do 4 apply flipped_later. apply flipped_here. discriminate. Defined.

(** The round trip on a password-protected note. *)
Lemma roundtrip_nonempty_witness :
  "hello" <> ""
  /\ exists r w',
       encryptMessage lib "hello" {| enc_password := Some "hunter2" |}
         (world 0 1700000000000) = (inr r, w')
       /\ fst (decryptMessage lib (payload r)
                 (matchingCredential r {| enc_password := Some "hunter2" |})
                 (world 1 1700000000001)) = inr "hello".
Proof.
  split; [discriminate|].
  apply (EncryptionFacts.roundtrip_nonempty lib ModelFacts.model_laws). discriminate.
Defined.

(** C1 as stated fails on the empty message: its ciphertext decrypts to the
    empty string, which [decryptMessage] takes for a failed decryption. *)
Lemma roundtrip_empty_message_fails :
  Laws lib
  /\ exists r w',
       encryptMessage lib "" {| enc_password := None |} (world 0 1700000000000)
       = (inr r, w')
       /\ fst (decryptMessage lib (payload r)
                 (matchingCredential r {| enc_password := None |})
                 (world 1 1700000000001)) = inl DecryptionError.
Proof.
  split; [exact ModelFacts.model_laws|].
  destruct (EncryptionFacts.decrypt_after_encrypt lib ModelFacts.model_laws ""
              {| enc_password := None |} (world 0 1700000000000) (world 1 1700000000001))
    as (r & w' & w2' & Henc & Hdec).
  exists r, w'. split; [exact Henc|]. now rewrite Hdec.
Qed.

(** One changed byte in the ciphertext of the sample link envelope. *)
Lemma tamper_detection_witness :
  authentic lib sample_link_envelope link_credential
  /\ tampered sample_link_envelope (with_ciphertext sample_link_envelope "hellp")
  /\ exists log,
       decryptMessage lib (JSON_stringify lib (with_ciphertext sample_link_envelope "hellp"))
         link_credential (world 0 0)
       = (inl IntegrityError, logged lib (world 0 0) log)
       /\ no_decrypt lib log.
Proof.
  split; [exact sample_link_authentic|].
  split; [apply tampered_ciphertext; exact flipped_hello|].
  apply (EncryptionFacts.tamper_detection lib ModelFacts.model_laws ModelFacts.model_ideal_mac
           sample_link_envelope).
  - exact sample_link_authentic.
  - apply tampered_ciphertext. exact flipped_hello.
Defined.

(** C3 as stated fails on the empty password: it is a password other than
    the right one, and [decryptMessage] takes it for no password at all. *)
Lemma empty_password_is_not_an_integrity_error :
  decryptMessage lib (JSON_stringify lib (sample_password_envelope None))
    (password_credential "") (world 0 0)
  = (inl PasswordRequired, world 0 0)
  /\ PasswordRequired <> IntegrityError.
Proof. split; [vm_compute; reflexivity|discriminate]. Qed.

(** The condition on the KDF cannot be left out: the KDF of the sample
    instance reads 64 characters of password, salt and count, gives a second
    password the keys of the right one, and the note opens under both. *)
Lemma colliding_password_opens_the_note :
  let other := "hunter2SSSSSSSSSSSSSSSS150000hunter2SSSSSSSSSSSSSSSS150000hunter"%string in
  other <> "hunter2"%string
  /\ ~ separates lib (sample_password_envelope None) "hunter2" other
  /\ fst (decryptMessage lib (JSON_stringify lib (sample_password_envelope None))
            (password_credential other) (world 0 0))
     = fst (decryptMessage lib (JSON_stringify lib (sample_password_envelope None))
              (password_credential "hunter2") (world 0 0)).
Proof.
  split; [discriminate|]. split.
  - intros H. apply H. vm_compute. reflexivity.
  - vm_compute. reflexivity.
Qed.

(** The sample password envelope opened with no password and with a wrong
    one, and the sample link envelope opened without a key. *)
Lemma wrong_or_missing_credential_witness :
  decryptMessage lib (JSON_stringify lib (sample_password_envelope None))
    {| key := None; password := None |} (world 0 0)
  = (inl PasswordRequired, world 0 0)
  /\ ((exists log,
         decryptMessage lib (JSON_stringify lib (sample_password_envelope None))
           (password_credential "letmein") (world 0 0)
         = (inl IntegrityError, logged lib (world 0 0) log)
         /\ no_decrypt lib log)
      /\ (fst (decryptMessage lib (JSON_stringify lib (sample_password_envelope None))
                 (password_credential "letmein") (world 0 0))
          = inl IntegrityError ->
          separates lib (sample_password_envelope None) "hunter2" "letmein"))
  /\ decryptMessage lib (JSON_stringify lib sample_link_envelope)
       {| key := None; password := None |} (world 0 0)
     = (inl MissingLinkKey, world 0 0).
Proof.
  pose proof (EncryptionFacts.wrong_or_missing_credential lib
                ModelFacts.model_laws ModelFacts.model_ideal_mac) as (HA & HB & HC).
  assert (Hparse : tryParseEnvelope lib (JSON_stringify lib (sample_password_envelope None))
                   = Some (sample_password_envelope None)) by (vm_compute; reflexivity).
  assert (Hsep : separates lib (sample_password_envelope None) "hunter2" "letmein")
    by (vm_compute; discriminate).
  split; [|split].
  - apply (HA _ (sample_password_envelope None)); [exact Hparse|reflexivity|reflexivity].
  - destruct (HB _ (sample_password_envelope None) None "hunter2" "letmein" (world 0 0)
                Hparse eq_refl (sample_password_authentic None) eq_refl)
      as [H1 H2].
    split; [exact (H1 Hsep)|exact H2].
  - apply (HC _ sample_link_envelope).
    + vm_compute. reflexivity.
    + reflexivity.
    + reflexivity.
Defined.

(** An envelope that claims a single iteration is derived with one. *)
Lemma decrypt_uses_envelope_iterations_witness :
  exists r rest,
    decryptMessage lib (JSON_stringify lib (sample_password_envelope (Some 1)))
      (password_credential "hunter2") (world 0 0)
    = (r, logged lib (world 0 0)
            (CallPBKDF2 lib "hunter2" (repeat_char 16 "S") 16 1
             :: CallHmacSHA256 lib
                  (integrityMessage (hmacPayloadOf (sample_password_envelope (Some 1))))
                  (hmacKey lib (splitDerivedKey lib (kdf "hunter2" (repeat_char 16 "S") 16 1)))
             :: rest)).
Proof.
  assert (Hparse : tryParseEnvelope lib
                     (JSON_stringify lib (sample_password_envelope (Some 1)))
                   = Some (sample_password_envelope (Some 1)))
    by (vm_compute; reflexivity).
  vm_cast_no_check
    (EncryptionFacts.decrypt_uses_envelope_iterations lib
       (JSON_stringify lib (sample_password_envelope (Some 1)))
       (sample_password_envelope (Some 1)) (password_credential "hunter2") "hunter2"
       (world 0 0) Hparse eq_refl eq_refl eq_refl eq_refl).
Defined.

End EncryptionExamples.

(** ** Properties of the note store of [server/index.js] *)

Module ServerFacts.
Import Server.

Section Handlers.
Context (StringToNumber : string -> JsNumber).
Context (cfg : Config).

Implicit Types (s : gmap string Entry) (e : Entry) (i target : string).

(** *** One read *)

Lemma get_absent now i s :
  s !! i = None -> get_api_message now i s = (NotFound, s).
Proof. intros H. unfold get_api_message. now rewrite H. Qed.

Lemma get_expired now i s e :
  s !! i = Some e -> expired now e = true ->
  get_api_message now i s = (Gone, delete i s).
Proof. intros H Hx. unfold get_api_message. now rewrite H, Hx. Qed.

Lemma get_burn now i s e :
  s !! i = Some e -> expired now e = false -> 0 < e_remainingViews e ->
  e_burnAfterRead e = true ->
  get_api_message now i s
  = ({| status := 200; body := Fetched (e_encrypted e) (e_expiresAt e) 0 |}, delete i s).
Proof.
  intros H Hx Hr Hb. unfold get_api_message. rewrite H, Hx, Hb.
  destruct (Z.leb_spec (e_remainingViews e) 0); [lia|reflexivity].
Qed.

Lemma get_vault now i s e :
  s !! i = Some e -> expired now e = false -> 0 < e_remainingViews e ->
  e_burnAfterRead e = false ->
  get_api_message now i s
  = ({| status := 200;
        body := Fetched (e_encrypted e) (e_expiresAt e) (e_remainingViews e - 1) |},
     if e_remainingViews e - 1 <=? 0 then delete i s
     else <[i := set_remainingViews e (e_remainingViews e - 1)]> s).
Proof.
  intros H Hx Hr Hb. unfold get_api_message. rewrite H, Hx, Hb.
  destruct (Z.leb_spec (e_remainingViews e) 0); [lia|]. simpl.
  now rewrite Z.max_r by lia.
Qed.

(** *** What a request leaves of another id's entry *)

Lemma post_other now createdAt req s target :
  rewrites target (POST req createdAt) = false ->
  snd (post_api_message StringToNumber cfg now createdAt req s) !! target = s !! target.
Proof.
  unfold rewrites, post_api_message. intros H.
  destruct (id req) as [| | | |i]; try reflexivity.
  apply String.eqb_neq in H.
  destruct (_ || _); [reflexivity|].
  destruct (encrypted req) as [| | | |enc]; try reflexivity.
  destruct (_ || _); [reflexivity|].
  destruct (Number_isFinite _) as [minutes|]; [|reflexivity].
  destruct (Qle_bool minutes 0); [reflexivity|]. simpl.
  now rewrite lookup_insert_ne.
Qed.

Lemma get_other now i s target :
  i <> target -> snd (get_api_message now i s) !! target = s !! target.
Proof.
  intros H. unfold get_api_message.
  destruct (s !! i) as [e|]; [|reflexivity].
  destruct (expired now e); [simpl; now rewrite lookup_delete_ne|].
  destruct (e_remainingViews e <=? 0); [simpl; now rewrite lookup_delete_ne|].
  destruct (e_burnAfterRead e); [simpl; now rewrite lookup_delete_ne|]. simpl.
  destruct (_ <=? 0); [now rewrite lookup_delete_ne|now rewrite lookup_insert_ne].
Qed.

Lemma delete_other i s target :
  i <> target -> snd (delete_api_message i s) !! target = s !! target.
Proof.
  intros H. unfold delete_api_message.
  destruct (s !! i); [simpl; now rewrite lookup_delete_ne|reflexivity].
Qed.

Lemma sweep_absent now s target : s !! target = None -> sweep now s !! target = None.
Proof. intros H. unfold sweep. apply map_lookup_filter_None. now left. Qed.

Lemma sweep_keeps now s target e :
  s !! target = Some e -> expired now e = false -> 0 < e_remainingViews e ->
  sweep now s !! target = Some e.
Proof.
  intros H Hx Hr. unfold sweep. apply map_lookup_filter_Some. split; [exact H|].
  simpl. rewrite Hx. destruct (Z.leb_spec (e_remainingViews e) 0); [lia|reflexivity].
Qed.

(** *** Serial schedules of requests *)

Lemma expired_false_of_live target expiresAt s e now :
  live target expiresAt s -> s !! target = Some e ->
  Qle_bool expiresAt (inject_Z now) = false ->
  expired now e = false /\ 0 < e_remainingViews e.
Proof.
  unfold live, expired. intros Hl He Hx. rewrite He in Hl. destruct Hl as [-> Hr]. auto.
Qed.

Lemma serve_lookup now r s target expiresAt :
  rewrites target r = false -> is_read target r = false ->
  Qle_bool expiresAt (inject_Z now) = false ->
  live target expiresAt s ->
  snd (serve StringToNumber cfg now r s) !! target = s !! target.
Proof.
  intros Hw Hr Hx Hl. destruct r as [req createdAt|i|i|]; simpl in *.
  - pose proof (post_other now createdAt req s target Hw) as H.
    now destruct (post_api_message StringToNumber cfg now createdAt req s).
  - apply String.eqb_neq in Hr. pose proof (get_other now i s target Hr) as H.
    now destruct (get_api_message now i s).
  - apply String.eqb_neq in Hw. pose proof (delete_other i s target Hw) as H.
    now destruct (delete_api_message i s).
  - destruct (s !! target) as [e|] eqn:He.
    + destruct (expired_false_of_live _ _ _ _ now Hl He Hx).
      now apply sweep_keeps.
    + now apply sweep_absent.
Qed.

Lemma live_lookup target expiresAt s s' :
  s' !! target = s !! target -> live target expiresAt s -> live target expiresAt s'.
Proof. unfold live. now intros ->. Qed.

Lemma views_left_lookup target s s' :
  s' !! target = s !! target -> views_left target s' = views_left target s.
Proof. unfold views_left. now intros ->. Qed.

(** A read of a live entry: it is refused exactly when no view is left, and
    otherwise takes one view. *)
Lemma read_step now s target expiresAt :
  Qle_bool expiresAt (inject_Z now) = false ->
  live target expiresAt s ->
  exists res s',
    get_api_message now target s = (res, s')
    /\ live target expiresAt s'
    /\ ((views_left target s = 0 /\ res = NotFound /\ views_left target s' = 0)
        \/ (0 < views_left target s /\ status res = 200
            /\ views_left target s' = views_left target s - 1)).
Proof.
  intros Hx Hl. destruct (s !! target) as [e|] eqn:He.
  - destruct (expired_false_of_live _ _ _ _ now Hl He Hx) as [Hne Hr].
    assert (Hexp : e_expiresAt e = expiresAt).
    { unfold live in Hl. rewrite He in Hl. tauto. }
    destruct (e_burnAfterRead e) eqn:Hb.
    + rewrite (get_burn now target s e He Hne Hr Hb). eexists _, _.
      split; [reflexivity|]. unfold live, views_left, budget.
      rewrite lookup_delete_eq, He, Hb. split; [exact I|]. right. auto with zarith.
    + rewrite (get_vault now target s e He Hne Hr Hb). eexists _, _.
      split; [reflexivity|]. unfold live, views_left, budget. rewrite He, Hb.
      destruct (Z.leb_spec (e_remainingViews e - 1) 0).
      * rewrite lookup_delete_eq. split; [exact I|]. right. simpl. lia.
      * rewrite lookup_insert_eq. simpl. rewrite Hb.
        split; [split; [exact Hexp|lia]|]. right. simpl. lia.
  - rewrite (get_absent now target s He). eexists _, _. split; [reflexivity|].
    split; [exact Hl|]. left. unfold views_left. rewrite He. auto.
Qed.

Lemma count_status_cons code (r : Response) rs :
  count_status code (r :: rs)
  = (if has_status code r then 1 else 0) + count_status code rs.
Proof. unfold count_status. simpl. destruct (has_status code r); simpl; lia. Qed.

(** The reads of [target] in a schedule that neither rewrites the entry nor
    outlives it: as many succeed as there are views left, or all of them if
    they are fewer, and every other read is answered [NotFound]. *)
Lemma run_reads target expiresAt schedule :
  forall s,
    Forall (fun tr => rewrites target (snd tr) = false
                      /\ Qle_bool expiresAt (inject_Z (fst tr)) = false) schedule ->
    live target expiresAt s ->
    let rs := reads_of target (fst (run StringToNumber cfg schedule s)) in
    count_status 200 rs = Z.min (views_left target s) (Z.of_nat (length rs))
    /\ count_status 404 rs = Z.of_nat (length rs) - count_status 200 rs
    /\ Forall (fun r => status r = 200 \/ r = NotFound) rs.
Proof.
  induction schedule as [|[now r] rest IH]; intros s Hall Hl; simpl.
  - unfold count_status, views_left. simpl.
    split; [destruct (s !! target) as [e|] eqn:He|auto].
    + unfold live in Hl. rewrite He in Hl. unfold budget.
      destruct (e_burnAfterRead e); lia.
    + reflexivity.
  - inversion Hall as [|? ? [Hw Hx] Hrest]; subst. simpl in Hw, Hx.
    destruct (is_read target r) eqn:Hr.
    + destruct r as [|i| |]; try discriminate. simpl in Hr.
      apply String.eqb_eq in Hr. subst i. simpl.
      destruct (read_step now s target expiresAt Hx Hl) as (res & s' & Hget & Hl' & Hcase).
      rewrite Hget. specialize (IH s' Hrest Hl').
      destruct (run StringToNumber cfg rest s') as [out s''] eqn:Hrun. simpl in *.
      unfold reads_of. simpl. rewrite String.eqb_refl. simpl.
      fold (reads_of target out). destruct IH as (IH1 & IH2 & IH3).
      rewrite !count_status_cons.
      destruct Hcase as [(Hz & -> & Hz') | (Hpos & Hst & Hv')].
      * simpl. rewrite IH1, Hz, Hz' in *. repeat split; [lia|lia|].
        constructor; [now right|exact IH3].
      * unfold has_status. rewrite Hst. simpl. rewrite IH1, Hv' in *.
        repeat split; [lia|lia|]. constructor; [now left|exact IH3].
    + pose proof (serve_lookup now r s target expiresAt Hw Hr Hx Hl) as Hsame.
      destruct (serve StringToNumber cfg now r s) as [res s'] eqn:Hserve. simpl in Hsame.
      specialize (IH s' Hrest (live_lookup _ _ _ _ Hsame Hl)).
      destruct (run StringToNumber cfg rest s') as [out s''] eqn:Hrun. simpl in *.
      unfold reads_of. simpl. rewrite Hr. fold (reads_of target out).
      now rewrite <- (views_left_lookup _ _ _ Hsame).
Qed.

(** Without the bound on the clock: an entry can also expire, under a read
    or under the sweep, and the views it had left are then lost. *)

Lemma serve_lookup_weak now r s target :
  rewrites target r = false -> is_read target r = false ->
  snd (serve StringToNumber cfg now r s) !! target = s !! target
  \/ snd (serve StringToNumber cfg now r s) !! target = None.
Proof.
  intros Hw Hr. destruct r as [req createdAt|i|i|]; simpl in *.
  - left. pose proof (post_other now createdAt req s target Hw) as H.
    now destruct (post_api_message StringToNumber cfg now createdAt req s).
  - left. apply String.eqb_neq in Hr. pose proof (get_other now i s target Hr) as H.
    now destruct (get_api_message now i s).
  - left. apply String.eqb_neq in Hw. pose proof (delete_other i s target Hw) as H.
    now destruct (delete_api_message i s).
  - destruct (sweep now s !! target) as [e|] eqn:He; [left|now right].
    unfold sweep in He. apply map_lookup_filter_Some in He. now destruct He as [-> _].
Qed.

Lemma views_left_nonneg target s : alive target s -> 0 <= views_left target s.
Proof.
  unfold alive, views_left, budget. destruct (s !! target) as [e|]; [|lia].
  destruct (e_burnAfterRead e); lia.
Qed.

Lemma read_step_weak now s target :
  alive target s ->
  exists res s',
    get_api_message now target s = (res, s')
    /\ alive target s'
    /\ ((status res = 200 /\ views_left target s' = views_left target s - 1)
        \/ ((res = NotFound \/ res = Gone)
            /\ views_left target s' <= views_left target s)).
Proof.
  intros Ha. pose proof (views_left_nonneg target s Ha) as Hnn.
  destruct (s !! target) as [e|] eqn:He.
  - assert (Hr : 0 < e_remainingViews e) by (unfold alive in Ha; now rewrite He in Ha).
    destruct (expired now e) eqn:Hx.
    + rewrite (get_expired now target s e He Hx). eexists _, _. split; [reflexivity|].
      unfold alive, views_left. rewrite lookup_delete_eq. split; [exact I|].
      right. split; [now right|]. exact Hnn.
    + destruct (e_burnAfterRead e) eqn:Hb.
      * rewrite (get_burn now target s e He Hx Hr Hb). eexists _, _.
        split; [reflexivity|]. unfold alive, views_left, budget.
        rewrite lookup_delete_eq, He, Hb. split; [exact I|]. left. auto with zarith.
      * rewrite (get_vault now target s e He Hx Hr Hb). eexists _, _.
        split; [reflexivity|]. unfold alive, views_left, budget. rewrite He, Hb.
        destruct (Z.leb_spec (e_remainingViews e - 1) 0).
        -- rewrite lookup_delete_eq. split; [exact I|]. left. simpl. lia.
        -- rewrite lookup_insert_eq. simpl. rewrite Hb. split; [lia|]. left. auto.
  - rewrite (get_absent now target s He). eexists _, _. split; [reflexivity|].
    split; [exact Ha|]. right. split; [now left|]. lia.
Qed.

(** Whatever the clock values, no more reads succeed than there are views
    left, and every other read is answered [NotFound] or [Gone]. *)
Lemma run_reads_bound target schedule :
  forall s,
    Forall (fun tr => rewrites target (snd tr) = false) schedule ->
    alive target s ->
    let rs := reads_of target (fst (run StringToNumber cfg schedule s)) in
    count_status 200 rs <= views_left target s
    /\ Forall (fun r => status r = 200 \/ r = NotFound \/ r = Gone) rs.
Proof.
  induction schedule as [|[now r] rest IH]; intros s Hall Ha; simpl.
  - split; [apply (views_left_nonneg _ _ Ha)|constructor].
  - inversion Hall as [|? ? Hw Hrest]; subst. simpl in Hw.
    destruct (is_read target r) eqn:Hr.
    + destruct r as [|i| |]; try discriminate. simpl in Hr.
      apply String.eqb_eq in Hr. subst i. simpl.
      destruct (read_step_weak now s target Ha) as (res & s' & Hget & Ha' & Hcase).
      rewrite Hget. specialize (IH s' Hrest Ha').
      destruct (run StringToNumber cfg rest s') as [out s''] eqn:Hrun. simpl in *.
      unfold reads_of. simpl. rewrite String.eqb_refl. simpl.
      fold (reads_of target out). destruct IH as (IH1 & IH2).
      rewrite count_status_cons.
      destruct Hcase as [(Hst & Hv') | (Hres & Hv')].
      * unfold has_status. rewrite Hst. simpl. split; [lia|].
        constructor; [now left|exact IH2].
      * split.
        -- destruct Hres as [-> | ->]; simpl; lia.
        -- constructor; [now right|exact IH2].
    + pose proof (serve_lookup_weak now r s target Hw Hr) as Hsame.
      destruct (serve StringToNumber cfg now r s) as [res s'] eqn:Hserve. simpl in Hsame.
      assert (Ha' : alive target s' /\ views_left target s' <= views_left target s).
      { pose proof (views_left_nonneg _ _ Ha). unfold alive, views_left in *.
        destruct Hsame as [-> | ->]; [split; [exact Ha|lia]|split; [exact I|lia]]. }
      destruct Ha' as [Ha' Hle]. specialize (IH s' Hrest Ha').
      destruct (run StringToNumber cfg rest s') as [out s''] eqn:Hrun. simpl in *.
      unfold reads_of. simpl. rewrite Hr. fold (reads_of target out).
      destruct IH as (IH1 & IH2). split; [lia|exact IH2].
Qed.

(** *** Creation *)

Lemma Qle_bool_false_of_lt (x y : Q) : (x < y)%Q -> Qle_bool y x = false.
Proof.
  intros H. destruct (Qle_bool y x) eqn:E; [|reflexivity].
  apply Qle_bool_iff in E. now apply Qle_not_lt in E.
Qed.

(** What the POST handler does with a request that passes its checks. *)
Lemma post_accepts now createdAt req i enc minutes s :
  id req = JsStr i -> 6 <= Z.of_nat (String.length i) <= 36 ->
  encrypted req = JsStr enc -> 1 <= Z.of_nat (String.length enc) <= 20000 ->
  Number StringToNumber (expiresInMinutes req) = Finite minutes -> (0 < minutes)%Q ->
  let expiresAt := JS.expiry now (Qmin minutes (inject_Z (MAX_MINUTES cfg))) in
  let burnFlag := Boolean (burnAfterRead req) in
  let views := resolveViews StringToNumber cfg burnFlag (maxViews req) in
  post_api_message StringToNumber cfg now createdAt req s
  = ({| status := 201;
        body := Created expiresAt (if burnFlag then None else Some views) |},
     <[i := {| e_encrypted := enc; e_expiresAt := expiresAt;
               e_burnAfterRead := burnFlag; e_remainingViews := views;
               e_createdAt := createdAt |}]> s).
Proof.
  intros Hi Hil He Hel Hm Hpos. simpl. unfold post_api_message. rewrite Hi, He, Hm.
  destruct (Z.ltb_spec (Z.of_nat (String.length i)) 6); [lia|].
  destruct (Z.ltb_spec 36 (Z.of_nat (String.length i))); [lia|].
  destruct (Z.eqb_spec (Z.of_nat (String.length enc)) 0); [lia|].
  destruct (Z.ltb_spec 20000 (Z.of_nat (String.length enc))); [lia|].
  cbn [orb Number_isFinite]. now rewrite (Qle_bool_false_of_lt _ _ Hpos).
Qed.

(** The budget of the entry the POST handler stores is the resolved one:
    1 for burn-after-read, the resolved count for a vault. *)
Lemma budget_of_created enc expiresAt burnFlag (v : JsValue) created :
  budget {| e_encrypted := enc; e_expiresAt := expiresAt; e_burnAfterRead := burnFlag;
            e_remainingViews := resolveViews StringToNumber cfg burnFlag v;
            e_createdAt := created |}
  = resolveViews StringToNumber cfg burnFlag v.
Proof. unfold budget, resolveViews. simpl. now destruct burnFlag. Qed.

(** The budget the POST handler resolves for a vault, for a finite
    [maxViews]: its floor, raised to 2, then capped by [DEFAULT_VIEWS]
    (itself raised to 2) and by [MAX_VIEWS]. *)
Lemma resolveViews_finite (v : JsValue) (q : Q) :
  Number StringToNumber v = Finite q ->
  resolveViews StringToNumber cfg false v
  = Z.min (Z.min (Z.max (Qfloor q) 2) (Z.max (DEFAULT_VIEWS cfg) 2)) (MAX_VIEWS cfg).
Proof. intros H. unfold resolveViews. now rewrite H. Qed.

Lemma run_cons now (r : Request) rest s :
  run StringToNumber cfg ((now, r) :: rest) s
  = ((r, fst (serve StringToNumber cfg now r s))
       :: fst (run StringToNumber cfg rest (snd (serve StringToNumber cfg now r s))),
     snd (run StringToNumber cfg rest (snd (serve StringToNumber cfg now r s)))).
Proof.
  cbn [run]. destruct (serve StringToNumber cfg now r s) as [res s']. cbn [fst snd].
  now destruct (run StringToNumber cfg rest s').
Qed.

Lemma serve_get now i s :
  serve StringToNumber cfg now (GET i) s
  = (Some (fst (get_api_message now i s)), snd (get_api_message now i s)).
Proof. simpl. now destruct (get_api_message now i s). Qed.

Lemma serve_post now createdAt req s :
  serve StringToNumber cfg now (POST req createdAt) s
  = (Some (fst (post_api_message StringToNumber cfg now createdAt req s)),
     snd (post_api_message StringToNumber cfg now createdAt req s)).
Proof.
  cbn [serve]. now destruct (post_api_message StringToNumber cfg now createdAt req s).
Qed.

(** Reads of an id the store does not hold change nothing. *)
Lemma reads_of_absent target times s :
  s !! target = None ->
  run StringToNumber cfg (reads_at target times) s
  = (List.map (fun _ => (GET target, Some NotFound)) times, s).
Proof.
  intros H. induction times as [|t times IH]; [reflexivity|].
  unfold reads_at in *. simpl List.map. rewrite run_cons, serve_get, (get_absent t _ _ H).
  simpl fst. simpl snd. now rewrite IH.
Qed.

(** *** The blobs that the reads return *)

Lemma blobs_burn e : e_burnAfterRead e = true -> blobs e = [served e 0].
Proof. intros B. unfold blobs, countdown. now rewrite B. Qed.

Lemma blobs_last e :
  e_burnAfterRead e = false -> e_remainingViews e = 1 -> blobs e = [served e 0].
Proof. intros B R. unfold blobs, countdown. now rewrite B, R. Qed.

Lemma blobs_vault e :
  e_burnAfterRead e = false -> 1 < e_remainingViews e ->
  blobs e
  = served e (e_remainingViews e - 1)
      :: blobs (set_remainingViews e (e_remainingViews e - 1)).
Proof.
  intros B R. unfold blobs, countdown. cbn [set_remainingViews e_burnAfterRead e_remainingViews].
  rewrite B.
  replace (Z.to_nat (e_remainingViews e)) with (S (Z.to_nat (e_remainingViews e - 1))) by lia.
  cbn [seq List.map]. rewrite <- seq_shift, !List.map_map.
  f_equal; [f_equal; lia|].
  apply List.map_ext. intros k. unfold served. cbn. f_equal. f_equal. lia.
Qed.

Lemma length_blobs e :
  0 < e_remainingViews e -> Z.of_nat (length (blobs e)) = budget e.
Proof.
  intros R. unfold blobs, countdown, budget.
  destruct (e_burnAfterRead e); [reflexivity|].
  rewrite !List.length_map, List.length_seq. lia.
Qed.

Lemma length_blobs_left target s :
  alive target s -> Z.of_nat (length (blobs_left target s)) = views_left target s.
Proof.
  unfold alive, blobs_left, views_left. destruct (s !! target) as [e|]; [|reflexivity].
  apply length_blobs.
Qed.

Lemma blobs_left_lookup target s s' :
  s' !! target = s !! target -> blobs_left target s' = blobs_left target s.
Proof. unfold blobs_left. now intros ->. Qed.

Lemma firstn_whole {A} (k : nat) (l : list A) :
  length (firstn k l) = length l -> firstn k l = l.
Proof.
  rewrite List.length_firstn. intros H. apply List.firstn_all2. lia.
Qed.

(** A read of an entry with a view left: it returns the first of the blobs
    left and leaves the others, or it returns none and none is left. *)
Lemma read_step_blobs now s target :
  alive target s ->
  exists res s',
    get_api_message now target s = (res, s')
    /\ alive target s'
    /\ ((has_status 200 res = true /\ blobs_left target s = res :: blobs_left target s')
        \/ (has_status 200 res = false /\ (s' = s \/ blobs_left target s' = []))).
Proof.
  intros Ha. destruct (s !! target) as [e|] eqn:He.
  - assert (Hr : 0 < e_remainingViews e) by (unfold alive in Ha; now rewrite He in Ha).
    destruct (expired now e) eqn:Hx.
    + rewrite (get_expired now target s e He Hx). eexists _, _. split; [reflexivity|].
      unfold alive, blobs_left. rewrite lookup_delete_eq. split; [exact I|].
      right. split; [reflexivity|now right].
    + destruct (e_burnAfterRead e) eqn:Hb.
      * rewrite (get_burn now target s e He Hx Hr Hb). eexists _, _.
        split; [reflexivity|]. unfold alive, blobs_left.
        rewrite lookup_delete_eq, He. split; [exact I|]. left.
        split; [reflexivity|]. now rewrite (blobs_burn e Hb).
      * rewrite (get_vault now target s e He Hx Hr Hb). eexists _, _.
        split; [reflexivity|]. unfold alive, blobs_left. rewrite He.
        destruct (Z.leb_spec (e_remainingViews e - 1) 0).
        -- rewrite lookup_delete_eq. split; [exact I|]. left. split; [reflexivity|].
           rewrite (blobs_last e Hb) by lia. unfold served. do 3 f_equal. lia.
        -- rewrite lookup_insert_eq. split; [cbn; lia|]. left. split; [reflexivity|].
           now rewrite (blobs_vault e Hb) by lia.
  - rewrite (get_absent now target s He). eexists _, _. split; [reflexivity|].
    split; [exact Ha|]. right. split; [reflexivity|now left].
Qed.

Lemma reads_of_cons target (r : Request) (res : option Response) out :
  reads_of target ((r, res) :: out)
  = if is_read target r then
      match res with
      | Some x => x :: reads_of target out
      | None => reads_of target out
      end
    else reads_of target out.
Proof. unfold reads_of. cbn. now destruct (is_read target r). Qed.

(** The reads of [target] that return the blob return, in order, the first
    of the blobs left. *)
Lemma run_reads_blobs target schedule :
  forall s,
    Forall (fun tr => rewrites target (snd tr) = false) schedule ->
    alive target s ->
    exists k,
      List.filter (has_status 200)
        (reads_of target (fst (run StringToNumber cfg schedule s)))
      = firstn k (blobs_left target s).
Proof.
  induction schedule as [|[now r] rest IH]; intros s Hall Ha.
  - exists 0%nat. reflexivity.
  - inversion Hall as [|? ? Hw Hrest]; subst. cbn [snd] in Hw.
    rewrite run_cons. cbn [fst]. rewrite reads_of_cons.
    destruct (is_read target r) eqn:Hr.
    + destruct r as [|i| |]; try discriminate. cbn in Hr.
      apply String.eqb_eq in Hr. subst i. rewrite serve_get. cbn [fst snd].
      destruct (read_step_blobs now s target Ha) as (res & s' & Hget & Ha' & Hcase).
      rewrite Hget. cbn [fst snd].
      destruct (IH s' Hrest Ha') as [k Hk].
      cbn [List.filter]. destruct Hcase as [(H200 & Hb)|(H200 & Hb)]; rewrite H200.
      * exists (S k). rewrite Hb. cbn [firstn]. now rewrite Hk.
      * destruct Hb as [->|Hb]; [now exists k|].
        exists 0%nat. rewrite Hk, Hb. now destruct k.
    + destruct (serve_lookup_weak now r s target Hw Hr) as [Hsame|Hnone].
      * destruct (IH (snd (serve StringToNumber cfg now r s)) Hrest) as [k Hk].
        { unfold alive in *. now rewrite Hsame. }
        exists k. rewrite Hk. now rewrite (blobs_left_lookup _ _ _ Hsame).
      * destruct (IH (snd (serve StringToNumber cfg now r s)) Hrest) as [k Hk].
        { unfold alive. now rewrite Hnone. }
        exists 0%nat. unfold blobs_left in Hk. rewrite Hnone in Hk.
        rewrite Hk. now destruct k.
Qed.

(** With as many reads as there are views and none after the expiry, they
    return all the blobs left. *)
Lemma run_reads_all_blobs target expiresAt schedule s :
  Forall (fun tr => rewrites target (snd tr) = false
                    /\ Qle_bool expiresAt (inject_Z (fst tr)) = false) schedule ->
  live target expiresAt s ->
  let rs := reads_of target (fst (run StringToNumber cfg schedule s)) in
  views_left target s <= Z.of_nat (length rs) ->
  List.filter (has_status 200) rs = blobs_left target s.
Proof.
  intros Hall Hl rs Hn.
  assert (Ha : alive target s).
  { unfold live, alive in *. destruct (s !! target); tauto. }
  destruct (run_reads_blobs target schedule s) as [k Hk]; [|exact Ha|].
  { eapply Forall_impl; [exact Hall|]. now intros tr [H _]. }
  destruct (run_reads target expiresAt schedule s Hall Hl) as (H1 & _).
  fold rs in Hk, H1. unfold count_status in H1. rewrite Hk in H1 |- *.
  apply firstn_whole. pose proof (length_blobs_left target s Ha). lia.
Qed.

Lemma resolveViews_positive burnFlag (v : JsValue) :
  1 <= MAX_VIEWS cfg -> 1 <= resolveViews StringToNumber cfg burnFlag v.
Proof.
  intros HM. unfold resolveViews. destruct burnFlag; [lia|].
  destruct (Number_isFinite (Number StringToNumber v)); lia.
Qed.

(** C9. The handlers are synchronous, so concurrent requests are served in
    some serial order. A valid POST stores an entry whose budget is the one
    the handler resolved: 1 for burn-after-read, and the count asked for a
    vault of 2 to [DEFAULT_VIEWS] views. In every serial order of requests
    after it that does not create the entry again or delete it (other ids
    may be created, read and deleted, and the sweep may run), the reads of
    the entry that answer 200 return the blob that was posted with its
    expiry and the counts of views left, in the order of the countdown, no
    more of them than the budget, and every other read is answered
    [NotFound] or [Gone]; and when the order ends before the entry expires
    and holds at least as many reads as the budget, the reads that answer
    200 are exactly the countdown, as many as the budget, and each of the
    others is answered [NotFound]. *)
Theorem concurrent_reads_consume_budget now createdAt req i enc minutes schedule s :
  id req = JsStr i -> 6 <= Z.of_nat (String.length i) <= 36 ->
  encrypted req = JsStr enc -> 1 <= Z.of_nat (String.length enc) <= 20000 ->
  Number StringToNumber (expiresInMinutes req) = Finite minutes -> (0 < minutes)%Q ->
  1 <= MAX_VIEWS cfg -> Z.abs (MAX_MINUTES cfg) <= 2 ^ 53 ->
  Forall (fun tr => rewrites i (snd tr) = false) schedule ->
  let burnFlag := Boolean (burnAfterRead req) in
  let entry :=
    {| e_encrypted := enc;
       e_expiresAt := JS.expiry now (Qmin minutes (inject_Z (MAX_MINUTES cfg)));
       e_burnAfterRead := burnFlag;
       e_remainingViews := resolveViews StringToNumber cfg burnFlag (maxViews req);
       e_createdAt := createdAt |} in
  let created := post_api_message StringToNumber cfg now createdAt req s in
  let rs := reads_of i (fst (run StringToNumber cfg schedule (snd created))) in
  (snd created !! i = Some entry
   /\ (burnFlag = true -> budget entry = 1)
   /\ (forall v, burnFlag = false ->
         Number StringToNumber (maxViews req) = Finite v ->
         2 <= Qfloor v <= DEFAULT_VIEWS cfg -> Qfloor v <= MAX_VIEWS cfg ->
         budget entry = Qfloor v))
  /\ ((exists k, List.filter (has_status 200) rs = firstn k (blobs entry))
      /\ count_status 200 rs <= budget entry
      /\ Forall (fun r => status r = 200 \/ r = NotFound \/ r = Gone) rs)
  /\ (Forall (fun tr => expired (fst tr) entry = false) schedule ->
      budget entry <= Z.of_nat (length rs) ->
      List.filter (has_status 200) rs = blobs entry
      /\ count_status 200 rs = budget entry
      /\ count_status 404 rs = Z.of_nat (length rs) - budget entry
      /\ Forall (fun r => status r = 200 \/ r = NotFound) rs).
Proof.
  intros Hi Li He Le Hn Hm HV _ Hw burnFlag entry created rs.
  pose proof (post_accepts now createdAt req i enc minutes s
                Hi Li He Le Hn Hm) as HP.
  cbv zeta in HP. fold burnFlag in HP. fold entry in HP.
  assert (Hs : snd created = <[i := entry]> s) by (unfold created; now rewrite HP).
  assert (Hlook : snd created !! i = Some entry) by (rewrite Hs; apply lookup_insert_eq).
  assert (Hpos : 0 < e_remainingViews entry).
  { pose proof (resolveViews_positive burnFlag (maxViews req) HV). cbn. lia. }
  assert (Ha : alive i (snd created)) by (unfold alive; now rewrite Hlook).
  assert (Hbl : blobs_left i (snd created) = blobs entry)
    by (unfold blobs_left; now rewrite Hlook).
  assert (Hvl : views_left i (snd created) = budget entry)
    by (unfold views_left; now rewrite Hlook).
  split; [|split].
  - split; [exact Hlook|]. split.
    + intros B. unfold budget. cbn. now rewrite B.
    + intros v B Hv H1 H2. unfold budget. cbn. rewrite B.
      rewrite (resolveViews_finite _ v Hv). lia.
  - destruct (run_reads_blobs i schedule (snd created) Hw Ha) as [k Hk].
    split; [exists k; now rewrite <- Hbl|].
    rewrite <- Hvl. exact (run_reads_bound i schedule (snd created) Hw Ha).
  - intros Hx Hlen.
    assert (Hl : live i (e_expiresAt entry) (snd created)).
    { unfold live. rewrite Hlook. auto. }
    assert (Hall : Forall (fun tr => rewrites i (snd tr) = false
                                     /\ Qle_bool (e_expiresAt entry) (inject_Z (fst tr)) = false)
                     schedule).
    { apply Forall_and. split; assumption. }
    split.
    + rewrite <- Hbl. apply (run_reads_all_blobs i (e_expiresAt entry)); auto.
      now rewrite Hvl.
    + destruct (run_reads i (e_expiresAt entry) schedule (snd created)
                  Hall Hl) as (H1 & H2 & H3).
      fold rs in H1, H2, H3. rewrite Hvl in H1.
      rewrite H2, H1. repeat split; [lia|lia|exact H3].
Qed.

(** C4. A vault created with [burnAfterRead = false] and [maxViews = 5]
    (under a configuration that allows five views) serves five reads made
    before the expiry it was given, reporting 4, 3, 2, 1 and 0 views left,
    removes the entry with the fifth, and answers the sixth read [NotFound].
    The expiry is the one the handler computes in binary64 arithmetic, and
    the window is within 2^53 minutes, so that it is a finite number. *)
Theorem vault_of_five_decrements now createdAt req i enc minutes t1 t2 t3 t4 t5 t6 s :
  id req = JsStr i -> 6 <= Z.of_nat (String.length i) <= 36 ->
  encrypted req = JsStr enc -> 1 <= Z.of_nat (String.length enc) <= 20000 ->
  Number StringToNumber (expiresInMinutes req) = Finite minutes -> (0 < minutes)%Q ->
  Boolean (burnAfterRead req) = false ->
  maxViews req = JsNum (Finite 5) ->
  5 <= DEFAULT_VIEWS cfg -> 5 <= MAX_VIEWS cfg -> Z.abs (MAX_MINUTES cfg) <= 2 ^ 53 ->
  let expiresAt := JS.expiry now (Qmin minutes (inject_Z (MAX_MINUTES cfg))) in
  Forall (fun t => (inject_Z t < expiresAt)%Q) [t1; t2; t3; t4; t5] ->
  let served n := (GET i, Some {| status := 200; body := Fetched enc expiresAt n |}) in
  run StringToNumber cfg
    ((now, POST req createdAt) :: reads_at i [t1; t2; t3; t4; t5; t6]) s
  = ([ (POST req createdAt,
        Some {| status := 201; body := Created expiresAt (Some 5) |});
       served 4; served 3; served 2; served 1; served 0;
       (GET i, Some NotFound) ],
     delete i (<[i := {| e_encrypted := enc; e_expiresAt := expiresAt;
                         e_burnAfterRead := false; e_remainingViews := 1;
                         e_createdAt := createdAt |}]> s)).
Proof.
  intros Hi Hil He Hel Hm Hpos Hb Hv HD HM _ expiresAt Ht served.
  assert (Hviews : resolveViews StringToNumber cfg false (maxViews req) = 5).
  { rewrite (resolveViews_finite _ 5) by now rewrite Hv.
    change (Qfloor 5) with 5%Z. lia. }
  pose proof (post_accepts now createdAt req i enc minutes s Hi Hil He Hel Hm Hpos) as Hpost.
  cbv zeta in Hpost. rewrite Hb, Hviews in Hpost. fold expiresAt in Hpost.
  repeat match goal with
         | H : Forall _ (_ :: _) |- _ => inversion H; clear H; subst
         end.
  unfold reads_at. cbn [List.map].
  rewrite run_cons, serve_post, Hpost. cbn [fst snd].
  do 5 (rewrite run_cons, serve_get;
        erewrite get_vault;
        [ | apply lookup_insert_eq
          | unfold expired; cbn [e_expiresAt]; now apply Qle_bool_false_of_lt
          | cbn [e_remainingViews]; lia
          | reflexivity ];
        unfold set_remainingViews;
        cbn [fst snd e_remainingViews e_encrypted e_expiresAt e_burnAfterRead
             e_createdAt];
        match goal with
        | |- context [?a - 1 <=? 0] =>
            let b := eval vm_compute in (a - 1 <=? 0) in
            let c := eval vm_compute in (a - 1) in
            change (a - 1 <=? 0) with b; change (a - 1) with c; cbv iota
        end;
        rewrite ?insert_insert_eq).
  rewrite run_cons, serve_get, get_absent by apply lookup_delete_eq.
  reflexivity.
Qed.

(** C6. A read of an entry whose [expiresAt] has passed deletes it and is
    answered [Gone] (410); afterwards every read of that id, at whatever
    time, is answered [NotFound] (404) and the store stays without it. *)
Theorem expired_read_gone_then_not_found now target s e times :
  s !! target = Some e ->
  expired now e = true ->
  get_api_message now target s = (Gone, delete target s)
  /\ run StringToNumber cfg (reads_at target times) (delete target s)
     = (List.map (fun _ => (GET target, Some NotFound)) times, delete target s).
Proof.
  intros He Hx. split; [exact (get_expired now target s e He Hx)|].
  apply reads_of_absent, lookup_delete_eq.
Qed.

(** C7, as amended. The DELETE handler removes the entry if there is one
    and leaves the store as it is otherwise; it answers 204 in the first
    case and 404 ("already gone") in the second; repeating it changes
    nothing more; and [deleteRemote] takes either answer for a success. *)
Theorem delete_removes_and_client_succeeds target s :
  let first := delete_api_message target s in
  let second := delete_api_message target (snd first) in
  snd first = delete target s
  /\ snd second = snd first
  /\ status (fst first) = match s !! target with Some _ => 204 | None => 404 end
  /\ fst second = AlreadyGone
  /\ MessageService.deleteRemote_response (fst first) = inr tt
  /\ MessageService.deleteRemote_response (fst second) = inr tt.
Proof.
  simpl. unfold delete_api_message.
  destruct (s !! target) as [e|] eqn:He; simpl.
  - rewrite lookup_delete_eq. simpl. repeat split; reflexivity.
  - rewrite He. simpl. rewrite delete_id by exact He. repeat split; reflexivity.
Qed.

End Handlers.

(** C5. Under the default configuration a vault asked for 1000 views is
    given 10, the value of [DEFAULT_VIEWS], where the clamp of the
    specification gives [MAX_VIEWS] = 50; a vault asked for one view is given
    the floor of 2. *)
Theorem thousand_views_resolve_to_ten (StringToNumber : string -> JsNumber)
    (now createdAt : Z) :
  resolveViews StringToNumber defaultConfig false (JsNum (Finite 1000)) = 10
  /\ clamp 1000 2 (MAX_VIEWS defaultConfig) = 50
  /\ resolveViews StringToNumber defaultConfig false (JsNum (Finite 1)) = 2
  /\ exists expiresAt entries,
       post_api_message StringToNumber defaultConfig now createdAt (sample_request 1000) ∅
       = ({| status := 201; body := Created expiresAt (Some 10) |}, entries).
Proof.
  split; [reflexivity|]. split; [reflexivity|]. split; [reflexivity|].
  eexists _, _.
  apply (post_accepts StringToNumber defaultConfig now createdAt (sample_request 1000)
           "note-0001" "opaque-envelope" 1); try reflexivity; simpl; lia.
Qed.

(** C7 as stated fails for an id the store does not hold: the DELETE
    handler answers 404, which is not a success status. *)
Lemma delete_unknown_id_not_success :
  delete_api_message "note-0001" ∅ = (AlreadyGone, ∅)
  /\ status AlreadyGone = 404
  /\ MessageService.ok AlreadyGone = false.
Proof. repeat split; reflexivity. Qed.

End ServerFacts.

(** ** Where the in-browser fallback and the server resolve alike *)

Module MessageServiceFacts.
Import MessageService.



End MessageServiceFacts.

(** ** The store properties on sample requests *)

Module StoreExamples.
Import Server.

(** A vault of five created at time 0 for one minute and read every ten
    seconds. *)
Lemma vault_of_five_decrements_witness :
  let served n :=
    (GET "note-0001",
     Some {| status := 200; body := Fetched "opaque-envelope" 60000 n |}) in
  run sample_StringToNumber defaultConfig
    ((0, POST (sample_request 5) 3)
       :: reads_at "note-0001" [10000; 20000; 30000; 40000; 50000; 59999]) ∅
  = ([ (POST (sample_request 5) 3,
        Some {| status := 201; body := Created 60000 (Some 5) |});
       served 4; served 3; served 2; served 1; served 0;
       (GET "note-0001", Some NotFound) ],
     delete "note-0001"
       (<["note-0001" := {| e_encrypted := "opaque-envelope"; e_expiresAt := 60000;
                            e_burnAfterRead := false; e_remainingViews := 1;
                            e_createdAt := 3 |}]> ∅)).
Proof.
  assert (Hlen : 6 <= Z.of_nat (String.length "note-0001") <= 36) by (simpl; lia).
  assert (Hblob : 1 <= Z.of_nat (String.length "opaque-envelope") <= 20000)
    by (simpl; lia).
  assert (Hpos : (0 < 1)%Q) by reflexivity.
  assert (HD : 5 <= DEFAULT_VIEWS defaultConfig) by (simpl; lia).
  assert (HM : 5 <= MAX_VIEWS defaultConfig) by (simpl; lia).
  assert (HW : Z.abs (MAX_MINUTES defaultConfig) <= 2 ^ 53) by (vm_compute; discriminate).
  assert (Ht : Forall (fun t => (inject_Z t
                                 < JS.expiry 0 (Qmin 1 (inject_Z (MAX_MINUTES defaultConfig))))%Q)
                 [10000; 20000; 30000; 40000; 50000])
    by (repeat constructor).
  vm_cast_no_check
    (ServerFacts.vault_of_five_decrements sample_StringToNumber defaultConfig 0 3
       (sample_request 5) "note-0001" "opaque-envelope" 1
       10000 20000 30000 40000 50000 59999 ∅
       eq_refl Hlen eq_refl Hblob eq_refl Hpos eq_refl eq_refl HD HM HW Ht).
Defined.

(** An entry that expired at 60000, read at that instant and twice later. *)
Lemma expired_read_gone_then_not_found_witness :
  get_api_message 60000 "note-0001" {["note-0001" := sample_entry false 3]}
  = (Gone, delete "note-0001" {["note-0001" := sample_entry false 3]})
  /\ run sample_StringToNumber defaultConfig (reads_at "note-0001" [60001; 90000])
       (delete "note-0001" {["note-0001" := sample_entry false 3]})
     = ([(GET "note-0001", Some NotFound); (GET "note-0001", Some NotFound)],
        delete "note-0001" {["note-0001" := sample_entry false 3]}).
Proof.
  apply (ServerFacts.expired_read_gone_then_not_found sample_StringToNumber defaultConfig
           60000 "note-0001" _ (sample_entry false 3) [60001; 90000]).
  - apply lookup_singleton_eq.
  - reflexivity.
Defined.

(** A burn-after-read note created at time 0 and read three times, around
    a sweep and a read of another id: one read returns the blob, two are
    answered [NotFound]. *)
Lemma concurrent_reads_consume_budget_witness :
  let schedule :=
    [(10, GET "note-0001"); (20, SWEEP); (20, GET "note-0001");
     (30, GET "other-note"); (40, GET "note-0001")] in
  let entry :=
    {| e_encrypted := "opaque-envelope"; e_expiresAt := 60000; e_burnAfterRead := true;
       e_remainingViews := 1; e_createdAt := 3 |} in
  let created :=
    post_api_message sample_StringToNumber defaultConfig 0 3 sample_burn_request ∅ in
  let rs :=
    reads_of "note-0001"
      (fst (run sample_StringToNumber defaultConfig schedule (snd created))) in
  (snd created !! "note-0001"%string = Some entry /\ budget entry = 1)
  /\ ((exists k, List.filter (has_status 200) rs = firstn k (blobs entry))
      /\ count_status 200 rs <= budget entry
      /\ Forall (fun r => status r = 200 \/ r = NotFound \/ r = Gone) rs)
  /\ List.filter (has_status 200) rs = [served entry 0]
  /\ count_status 200 rs = 1
  /\ count_status 404 rs = 3 - 1
  /\ Forall (fun r => status r = 200 \/ r = NotFound) rs.
Proof.
  assert (Hlen : 6 <= Z.of_nat (String.length "note-0001") <= 36) by (simpl; lia).
  assert (Hblob : 1 <= Z.of_nat (String.length "opaque-envelope") <= 20000)
    by (simpl; lia).
  assert (Hpos : (0 < 1)%Q) by reflexivity.
  assert (HV : 1 <= MAX_VIEWS defaultConfig) by (simpl; lia).
  assert (HW : Z.abs (MAX_MINUTES defaultConfig) <= 2 ^ 53) by (vm_compute; discriminate).
  assert (Hw : Forall (fun tr : Z * Request => rewrites "note-0001" (snd tr) = false)
                 [(10, GET "note-0001"); (20, SWEEP); (20, GET "note-0001");
                  (30, GET "other-note"); (40, GET "note-0001")])
    by (repeat constructor).
  pose proof (ServerFacts.concurrent_reads_consume_budget sample_StringToNumber
                defaultConfig 0 3 sample_burn_request "note-0001" "opaque-envelope" 1
                [(10, GET "note-0001"); (20, SWEEP); (20, GET "note-0001");
                 (30, GET "other-note"); (40, GET "note-0001")] ∅
                eq_refl Hlen eq_refl Hblob eq_refl Hpos HV HW Hw)
    as ((Hlook & Hburn & _) & Hbound & Hexact).
  split; [exact (conj Hlook (Hburn eq_refl))|].
  split; [exact Hbound|].
  apply Hexact.
  - repeat constructor.
  - vm_compute. discriminate.
Defined.

End StoreExamples.


(** ** More of [encryption.ts]: the comparator, the error paths, the
    inspection and what the MAC covers *)

Module EncryptionExtras.
Import CryptoJS Encryption.

(** X1. [timingSafeEqual] answers [true] exactly on equal strings, whatever
    their lengths. *)
Theorem timingSafeEqual_decides_equality (a b : string) :
  timingSafeEqual a b = true <-> a = b.
Proof.
  split.
  - intros H. now apply EncryptionFacts.timingSafeEqual_true.
  - intros ->. apply EncryptionFacts.timingSafeEqual_refl.
Qed.

(** *** Strings and numbers *)

Lemma length_append (x y : string) :
  String.length (x +:+ y) = (String.length x + String.length y)%nat.
Proof. induction x as [|c x IH]; simpl; [reflexivity|]. now rewrite IH. Qed.

Lemma append_inv_tail_any (x y t : string) : x +:+ t = y +:+ t -> x = y.
Proof.
  intros H. apply (EncryptionFacts.append_inv_tail x y t); [|exact H].
  apply (f_equal String.length) in H. rewrite !length_append in H. lia.
Qed.

(** [String(n)] tells integers apart. *)
Lemma String_of_number_inj (n m : Z) :
  JS.String_of_number n = JS.String_of_number m -> n = m.
Proof.
  unfold JS.String_of_number. intros H.
  assert (Hn : forall z, NilZero.int_of_string (NilZero.string_of_int (Z.to_int z))
                         = Some (Z.to_int z)).
  { intros z. apply NilZero.isi; destruct z; simpl; try discriminate;
      intros [= E]; now apply Unsigned.to_uint_nonnil in E. }
  apply (f_equal NilZero.int_of_string) in H. rewrite !Hn in H.
  injection H as H. now apply to_int_inj.
Qed.

(** A separator found at the first ["|"] of both sides cuts them alike. *)
Lemma split_at_pipe (x x' r r' : string) :
  JS.includes "|" x = false -> JS.includes "|" x' = false ->
  x +:+ String "|" r = x' +:+ String "|" r' -> x = x' /\ r = r'.
Proof.
  revert x'. induction x as [|c x IH]; intros [|c' x'] Hx Hx' H; simpl in *.
  - injection H as ->. auto.
  - injection H as <- _. now rewrite Ascii.eqb_refl in Hx'.
  - injection H as -> _. now rewrite Ascii.eqb_refl in Hx.
  - injection H as -> H. apply orb_false_iff in Hx, Hx'.
    destruct (IH x' (proj2 Hx) (proj2 Hx') H) as [-> ->]. auto.
Qed.

(** X9. The text handed to the MAC determines the fields it is built
    from, as long as ciphertext, iv and salt hold no ["|"] (Base64 text holds
    none): two versioned envelopes with the same MAC input have the same
    mode, ciphertext, iv, salt (an absent salt counting as the empty one) and
    creation time (an absent one counting as 0). *)
Theorem integrityMessage_determines_fields (e e' : EncryptionEnvelope) :
  versioned e -> versioned e' -> pipe_free e -> pipe_free e' ->
  integrityMessage (hmacPayloadOf e) = integrityMessage (hmacPayloadOf e') ->
  mode e = mode e'
  /\ ciphertext e = ciphertext e'
  /\ iv e = iv e'
  /\ JS.nullish (salt e) "" = JS.nullish (salt e') ""
  /\ JS.nullish (createdAt e) 0 = JS.nullish (createdAt e') 0.
Proof.
  intros [_ Hm] [_ Hm'] (Hc & Hi & Hs) (Hc' & Hi' & Hs') H.
  rewrite !EncryptionFacts.integrityMessage_unfold in H. simpl in H.
  assert (Hpm : JS.includes "|" (mode e) = false) by (destruct Hm as [-> | ->]; reflexivity).
  assert (Hpm' : JS.includes "|" (mode e') = false)
    by (destruct Hm' as [-> | ->]; reflexivity).
  apply (split_at_pipe _ _ _ _ Hpm Hpm') in H. destruct H as [H1 H].
  apply (split_at_pipe _ _ _ _ Hc Hc') in H. destruct H as [H2 H].
  apply (split_at_pipe _ _ _ _ Hi Hi') in H. destruct H as [H3 H].
  apply (split_at_pipe _ _ _ _ Hs Hs') in H. destruct H as [H4 H].
  apply append_inv_tail_any in H. apply String_of_number_inj in H. auto.
Qed.

Section WithLib.
Context (L : Lib).

Implicit Types (w : World L) (e : EncryptionEnvelope) (o : DecryptOptions).

(** The two ways [resolveKeys] ends: with the bundle of [credentialKeys], or
    with one of the three missing-credential errors before any call. *)
Lemma resolveKeys_cases e o w :
  (exists keys, credentialKeys L e o = Some keys
                /\ resolveKeys L e o w = (inr keys, logged L w (derivationLog L e o)))
  \/ (credentialKeys L e o = None
      /\ exists err, resolveKeys L e o w = (inl err, w)
                     /\ (err = PasswordRequired \/ err = MissingSalt \/ err = MissingLinkKey)).
Proof.
  destruct (credentialKeys L e o) as [keys|] eqn:Hk.
  - left. exists keys. split; [reflexivity|]. now apply EncryptionFacts.resolveKeys_run.
  - right. split; [reflexivity|]. unfold credentialKeys in Hk. unfold resolveKeys.
    destruct (String.eqb (mode e) "password").
    + destruct (password o) as [pw|]; simpl.
      * destruct (JS.falsy pw) eqn:Hpw; [eauto|].
        destruct (salt e) as [s|]; simpl; [|eauto].
        destruct (JS.falsy s) eqn:Hs; [eauto|]. simpl in Hk. discriminate.
      * eauto.
    + destruct (key o) as [k|]; simpl; [|eauto].
      destruct (JS.falsy k); [eauto|discriminate].
Qed.

(** X2. A plaintext comes back from a versioned envelope only if its tag
    is the one the supplied credential gives: the envelope is authentic for
    that credential, and the plaintext is what the cipher gives for its
    ciphertext under the credential's cipher key. *)
Theorem decrypt_success_is_authentic payload e o s w w' :
  tryParseEnvelope L payload = Some e ->
  decryptMessage L payload o w = (inr s, w') ->
  authentic L e o
  /\ exists keys,
       credentialKeys L e o = Some keys
       /\ AES_decrypt L (Base64_parse L (ciphertext e)) (aesKey L keys)
            (Base64_parse L (iv e)) = Some s.
Proof.
  intros Hp Hrun.
  destruct (resolveKeys_cases e o w) as [(keys & Hk & _) | (_ & err & Herr & _)].
  - destruct (String.eqb_spec (integrityTag L (hmacPayloadOf e) (hmacKey L keys)) (hmac e))
      as [Heq|Hne].
    + rewrite (EncryptionFacts.decryptMessage_match L payload e o keys w Hp Hk Heq) in Hrun.
      split.
      * split; [now apply (EncryptionFacts.tryParseEnvelope_Some L payload)|].
        exists keys. auto.
      * exists keys. split; [exact Hk|].
        destruct (AES_decrypt L _ _ _) as [d|]; [|discriminate].
        destruct (JS.falsy d); [discriminate|]. now injection Hrun as -> _.
    + rewrite (EncryptionFacts.decryptMessage_mismatch L payload e o keys w Hp Hk Hne) in Hrun.
      discriminate.
  - unfold decryptMessage in Hrun. rewrite Hp in Hrun. unfold bind in Hrun.
    rewrite Herr in Hrun. discriminate.
Qed.

(** X3. On a payload that is not a versioned envelope [decryptMessage]
    makes no integrity check and derives no key: without a key it fails at
    once with the legacy-key error, and with one its single call is the
    passphrase decryption of the raw payload, whose empty result is reported
    as the legacy decryption error. The password plays no part. *)
Theorem legacy_path_has_no_integrity_check payload o w :
  tryParseEnvelope L payload = None ->
  exists log,
    snd (decryptMessage L payload o w) = logged L w log
    /\ no_mac_no_kdf L log
    /\ match key o with
       | Some k =>
           if JS.falsy k
           then log = [] /\ fst (decryptMessage L payload o w) = inl LegacyKeyRequired
           else log = [CallAESDecryptPassphrase L payload k]
                /\ fst (decryptMessage L payload o w)
                   = match AES_decrypt_passphrase L payload k with
                     | Some d => if JS.falsy d then inl LegacyDecryptionError else inr d
                     | None => inl MalformedUtf8
                     end
       | None => log = [] /\ fst (decryptMessage L payload o w) = inl LegacyKeyRequired
       end.
Proof.
  intros Hp. unfold decryptMessage. rewrite Hp.
  destruct (key o) as [k|]; simpl.
  - destruct (JS.falsy k) eqn:Hk.
    + exists []. rewrite EncryptionFacts.logged_nil. repeat split.
    + exists [CallAESDecryptPassphrase L payload k].
      unfold aesDecryptPassphrase, bind, invoke, ret, throw.
      destruct (AES_decrypt_passphrase L payload k) as [d|]; [destruct (JS.falsy d)|];
        repeat split.
  - exists []. rewrite EncryptionFacts.logged_nil. repeat split.
Qed.

(** X4. A versioned password-mode envelope opened without a password
    (absent or empty) fails with the password-required error, and one whose
    salt is missing or empty fails with the missing-salt error; in both
    cases before any call of the KDF, the MAC or the cipher. *)
Theorem password_mode_missing_credential payload e o w :
  tryParseEnvelope L payload = Some e ->
  mode e = "password" ->
  (JS.falsy_opt (password o) = true ->
   decryptMessage L payload o w = (inl PasswordRequired, w))
  /\ (JS.falsy_opt (password o) = false -> JS.falsy_opt (salt e) = true ->
      decryptMessage L payload o w = (inl MissingSalt, w)).
Proof.
  intros Hp Hm. unfold decryptMessage. rewrite Hp. unfold bind, resolveKeys.
  rewrite Hm. simpl. split.
  - now intros ->.
  - now intros -> ->.
Qed.

(** X5. Whatever the payload and the options, [decryptMessage] never
    returns the empty string, and all it does to the world is to log at most
    three calls: the random source and the clock are left alone. *)
Theorem decrypt_never_returns_empty payload o w :
  exists log,
    snd (decryptMessage L payload o w) = logged L w log
    /\ (length log <= 3)%nat
    /\ forall s, fst (decryptMessage L payload o w) = inr s -> s <> "".
Proof.
  destruct (tryParseEnvelope L payload) as [e|] eqn:Hp.
  - destruct (resolveKeys_cases e o w) as [(keys & Hk & _) | (_ & err & Herr & _)].
    + assert (Hlen : (length (derivationLog L e o) <= 1)%nat).
      { unfold derivationLog. destruct (String.eqb (mode e) "password"); simpl; lia. }
      destruct (String.eqb_spec (integrityTag L (hmacPayloadOf e) (hmacKey L keys)) (hmac e))
        as [Heq|Hne].
      * rewrite (EncryptionFacts.decryptMessage_match L payload e o keys w Hp Hk Heq).
        eexists. split; [|split].
        -- destruct (AES_decrypt L _ _ _) as [d|]; [destruct (JS.falsy d)|]; reflexivity.
        -- rewrite length_app. simpl. lia.
        -- intros s. destruct (AES_decrypt L _ _ _) as [d|]; [|discriminate].
           destruct (JS.falsy d) eqn:Hd; [discriminate|].
           simpl. intros [= <-] ->. discriminate.
      * rewrite (EncryptionFacts.decryptMessage_mismatch L payload e o keys w Hp Hk Hne).
        eexists. split; [reflexivity|]. split; [|discriminate].
        rewrite length_app. simpl. lia.
    + exists []. unfold decryptMessage. rewrite Hp. unfold bind. rewrite Herr. simpl.
      rewrite EncryptionFacts.logged_nil. split; [reflexivity|]. split; [lia|discriminate].
  - unfold decryptMessage. rewrite Hp.
    destruct (JS.falsy_opt (key o)).
    + exists []. simpl. rewrite EncryptionFacts.logged_nil.
      split; [reflexivity|]. split; [lia|discriminate].
    + exists [CallAESDecryptPassphrase L payload (JS.nullish (key o) "")].
      unfold aesDecryptPassphrase, bind, invoke, ret, throw.
      destruct (AES_decrypt_passphrase L payload _) as [d|];
        [destruct (JS.falsy d) eqn:Hd|]; simpl;
        (split; [reflexivity|]); (split; [lia|]); try discriminate.
      intros s [= <-] ->. discriminate.
Qed.

(** *** The inspection *)

Lemma tryParseEnvelope_iff payload e :
  tryParseEnvelope L payload = Some e <-> JSON_parse L payload = JObject e /\ versioned e.
Proof.
  split.
  - intros H. split; [|now apply (EncryptionFacts.tryParseEnvelope_Some L payload)].
    unfold tryParseEnvelope in H. destruct (JSON_parse L payload) as [| |p]; try discriminate.
    destruct (negb _); [discriminate|]. destruct (_ && _); [discriminate|]. congruence.
  - intros [Hp Hv]. now apply EncryptionFacts.tryParseEnvelope_versioned.
Qed.

(** X6. [inspectEncryptedPayload] reports the legacy triple (mode "link",
    version "legacy", createdAt 0) exactly for the payloads that do not parse
    to an object with the current version and a known mode: text that is not
    JSON, JSON that is not an object, a foreign version or an unknown mode.
    For every other payload it reports the envelope's own mode, version and
    createdAt. *)
Theorem inspect_version_gating payload :
  (inspectEncryptedPayload L payload = legacyInspection
   <-> ~ exists e, JSON_parse L payload = JObject e /\ versioned e)
  /\ (forall e, JSON_parse L payload = JObject e -> versioned e ->
      inspectEncryptedPayload L payload
      = {| insp_mode := mode e; insp_version := ENVELOPE_VERSION;
           insp_createdAt := createdAt e |}).
Proof.
  split.
  - unfold inspectEncryptedPayload.
    destruct (tryParseEnvelope L payload) as [e|] eqn:Hp.
    + apply tryParseEnvelope_iff in Hp. destruct Hp as [Hp [Hv Hm]]. split.
      * intros H. apply (f_equal insp_version) in H. simpl in H.
        rewrite Hv in H. discriminate.
      * intros H. exfalso. apply H. exists e. repeat split; assumption.
    + split; [|reflexivity]. intros _ (e & He & Hv).
      assert (tryParseEnvelope L payload = Some e) by now apply tryParseEnvelope_iff.
      congruence.
  - intros e He Hv. unfold inspectEncryptedPayload.
    assert (Hp : tryParseEnvelope L payload = Some e) by now apply tryParseEnvelope_iff.
    rewrite Hp. now destruct Hv as [-> _].
Qed.

(** *** What [encryptMessage] builds *)

(** The envelope, the result and the calls of [encryptMessage], in both
    modes. *)
Lemma encryptMessage_shape message options w :
  exists r e w' ivw,
    encryptMessage L message options w = (inr r, w')
    /\ ivw = fst (WordArray_random L IV_BYTES (entropy L w))
    /\ payload r = JSON_stringify L e
    /\ version e = ENVELOPE_VERSION
    /\ iv e = Base64_stringify L ivw
    /\ createdAt e = Some (clock L w)
    /\ iterations e = Some PBKDF2_ITERATIONS
    /\ integrity r = hmac e
    /\ requiresPassword r = negb (JS.falsy_opt (enc_password options))
    /\ if JS.falsy_opt (enc_password options)
       then exists masterKey,
           masterKey = fst (WordArray_random L (Z.to_nat MASTER_KEY_BYTES)
                              (snd (WordArray_random L IV_BYTES (entropy L w))))
           /\ mode e = "link" /\ salt e = None
           /\ shareKey r = Some (Base64_stringify L masterKey)
           /\ calls L w'
              = calls L w
                ++ [CallAESEncrypt L message (aesKey L (splitMasterKey L masterKey)) ivw;
                    CallHmacSHA256 L (integrityMessage (hmacPayloadOf e))
                      (hmacKey L (splitMasterKey L masterKey))]
       else exists pw saltWord,
           enc_password options = Some pw
           /\ saltWord = fst (WordArray_random L SALT_BYTES
                                (snd (WordArray_random L IV_BYTES (entropy L w))))
           /\ mode e = "password" /\ salt e = Some (Base64_stringify L saltWord)
           /\ shareKey r = None
           /\ calls L w'
              = calls L w
                ++ [CallPBKDF2 L pw saltWord 16 150000;
                    CallAESEncrypt L message
                      (aesKey L (derivedKeys L pw saltWord PBKDF2_ITERATIONS)) ivw;
                    CallHmacSHA256 L (integrityMessage (hmacPayloadOf e))
                      (hmacKey L (derivedKeys L pw saltWord PBKDF2_ITERATIONS))].
Proof.
  unfold encryptMessage, bind, random, Date_now.
  destruct (WordArray_random L IV_BYTES (entropy L w)) as [ivw g1] eqn:E1.
  destruct (JS.falsy_opt (enc_password options)) eqn:Hpw; simpl.
  - destruct (WordArray_random L (Z.to_nat MASTER_KEY_BYTES) g1) as [mk g2] eqn:E2.
    unfold aesEncrypt, invoke, computeIntegrity, bind, invoke, ret. simpl.
    eexists _, (Build_EncryptionEnvelope _ _ _ _ _ _ _ _), _, ivw.
    split; [reflexivity|]. repeat (split; [reflexivity|]).
    exists mk. cbn [fst snd]. rewrite ?E2. repeat (split; [reflexivity|]).
    simpl. now rewrite <- app_assoc.
  - destruct (enc_password options) as [pw|] eqn:Hopt; [|discriminate].
    destruct (WordArray_random L SALT_BYTES g1) as [sw g2] eqn:E2.
    unfold deriveKeyFromPassword, aesEncrypt, computeIntegrity, bind, invoke, ret. simpl.
    eexists _, (Build_EncryptionEnvelope _ _ _ _ _ _ _ _), _, ivw.
    split; [reflexivity|]. repeat (split; [reflexivity|]).
    exists pw, sw. cbn [fst snd]. rewrite ?E2. repeat (split; [reflexivity|]).
    simpl. now rewrite <- !app_assoc.
Qed.

Lemma split_hmacKey_sigBytes (HL : Laws L) (secret : WordArray L) :
  sigBytes L secret = 64%nat ->
  sigBytes L (hmacKey L (splitMasterKey L secret)) = 32%nat
  /\ sigBytes L (hmacKey L (splitDerivedKey L secret)) = 32%nat.
Proof.
  intros H. pose proof (Hex_stringify_length L HL secret) as Hlen. rewrite H in Hlen.
  split; simpl; apply (Hex_parse_sigBytes L HL); unfold JS.slice;
    rewrite EncryptionFacts.length_substring; simpl; lia.
Qed.

(** X7. What [inspectEncryptedPayload] reports for a payload that
    [encryptMessage] produced: the current version, the creation time read
    from the clock, and mode "password" exactly when a non-empty password was
    given (an empty password gives a link-mode note). *)
Theorem inspect_after_encrypt (HL : Laws L) message options w :
  exists r w',
    encryptMessage L message options w = (inr r, w')
    /\ requiresPassword r = negb (JS.falsy_opt (enc_password options))
    /\ inspectEncryptedPayload L (payload r)
       = {| insp_mode := if requiresPassword r then "password" else "link";
            insp_version := ENVELOPE_VERSION;
            insp_createdAt := Some (clock L w) |}.
Proof.
  destruct (encryptMessage_shape message options w)
    as (r & e & w' & ivw & Hrun & _ & Hpay & Hv & _ & Hc & _ & _ & Hreq & Hmode).
  exists r, w'. split; [exact Hrun|]. split; [exact Hreq|].
  assert (Hm : mode e = if requiresPassword r then "password" else "link").
  { rewrite Hreq. destruct (JS.falsy_opt (enc_password options)); simpl.
    - now destruct Hmode as (mk & _ & Hm & _).
    - now destruct Hmode as (pw & sw & _ & _ & Hm & _). }
  assert (Hver : versioned e).
  { split; [exact Hv|]. rewrite Hm. destruct (requiresPassword r); auto. }
  unfold inspectEncryptedPayload.
  rewrite Hpay, (EncryptionFacts.tryParseEnvelope_versioned L _ e
                   (JSON_roundtrip L HL e) Hver).
  now rewrite Hm, Hv, Hc.
Qed.

(** X8. The two modes of [encryptMessage]. With a non-empty password it
    asks for the password later, hands out no share key, and its first call
    is the KDF on that password with a fresh 16-byte salt, key size 16 words
    and 150000 iterations. Without one (absent or empty) it never calls the
    KDF and hands out a non-empty share key. In both modes the cipher gets a
    32-byte key and a 16-byte iv and the MAC a 32-byte key. *)
Theorem encrypt_modes (HL : Laws L) message options w :
  exists r w' log key ivw macMessage macKey,
    encryptMessage L message options w = (inr r, w')
    /\ calls L w' = calls L w ++ log
    /\ sigBytes L key = 32%nat /\ sigBytes L ivw = 16%nat /\ sigBytes L macKey = 32%nat
    /\ if JS.falsy_opt (enc_password options)
       then requiresPassword r = false
            /\ (exists k, shareKey r = Some k /\ k <> "")
            /\ log = [CallAESEncrypt L message key ivw;
                      CallHmacSHA256 L macMessage macKey]
       else requiresPassword r = true
            /\ shareKey r = None
            /\ exists pw saltWord,
                 enc_password options = Some pw
                 /\ sigBytes L saltWord = 16%nat
                 /\ log = [CallPBKDF2 L pw saltWord 16 150000;
                           CallAESEncrypt L message key ivw;
                           CallHmacSHA256 L macMessage macKey].
Proof.
  destruct (encryptMessage_shape message options w)
    as (r & e & w' & ivw & Hrun & Hiv & _ & _ & _ & _ & _ & _ & Hreq & Hmode).
  assert (Hivlen : sigBytes L ivw = 16%nat).
  { rewrite Hiv. apply (random_sigBytes L HL). }
  destruct (JS.falsy_opt (enc_password options)) eqn:Hpw.
  - destruct Hmode as (mk & Hmk & _ & _ & Hshare & Hcalls).
    assert (Hlen : sigBytes L mk = 64%nat).
    { rewrite Hmk. apply (random_sigBytes L HL). }
    eexists r, w', _, _, ivw, _, _. split; [exact Hrun|]. split; [exact Hcalls|].
    split; [apply (EncryptionFacts.split_sigBytes L HL mk Hlen)|].
    split; [exact Hivlen|].
    split; [apply (split_hmacKey_sigBytes HL mk Hlen)|].
    split; [exact Hreq|]. split; [|reflexivity].
    eexists. split; [exact Hshare|]. apply (Base64_nonempty L HL). rewrite Hlen. discriminate.
  - destruct Hmode as (pw & sw & Hopt & Hsw & _ & _ & Hshare & Hcalls).
    assert (Hlen : sigBytes L (PBKDF2 L pw sw (MASTER_KEY_BYTES / 4) PBKDF2_ITERATIONS)
                   = 64%nat) by now rewrite (PBKDF2_sigBytes L HL).
    eexists r, w', _, _, ivw, _, _. split; [exact Hrun|]. split; [exact Hcalls|].
    split; [apply (EncryptionFacts.split_sigBytes L HL _ Hlen)|].
    split; [exact Hivlen|].
    split; [apply (split_hmacKey_sigBytes HL _ Hlen)|].
    split; [exact Hreq|]. split; [exact Hshare|].
    exists pw, sw. split; [exact Hopt|]. split; [|reflexivity].
    rewrite Hsw. apply (random_sigBytes L HL).
Qed.

(** X11. In link mode the [iterations] field of the envelope plays no
    part: two payloads whose envelopes differ in that field only are
    decrypted to the same result with the same calls. *)
Theorem link_mode_ignores_iterations payload payload' e count o w :
  tryParseEnvelope L payload = Some e ->
  tryParseEnvelope L payload' = Some (with_iterations e count) ->
  mode e = "link" ->
  decryptMessage L payload' o w = decryptMessage L payload o w.
Proof.
  intros Hp Hp' Hm. unfold decryptMessage. rewrite Hp, Hp'.
  unfold resolveKeys. simpl. now rewrite Hm.
Qed.

(** X10. A changed creation time is detected like a changed ciphertext:
    on an authentic envelope whose [createdAt] was replaced by another
    timestamp, [decryptMessage] with the matching credential fails with the
    integrity error before the cipher is called. *)
Theorem createdAt_tamper_detection (HL : Laws L) (HM : IdealMac L) e stamp o w :
  authentic L e o ->
  JS.nullish stamp 0 <> JS.nullish (createdAt e) 0 ->
  exists log,
    decryptMessage L (JSON_stringify L (with_createdAt e stamp)) o w
    = (inl IntegrityError, logged L w log)
    /\ no_decrypt L log.
Proof.
  intros (Hv & keys & Hk & Htag) Hne.
  assert (Hp : tryParseEnvelope L (JSON_stringify L (with_createdAt e stamp))
               = Some (with_createdAt e stamp)).
  { apply EncryptionFacts.tryParseEnvelope_versioned; [apply (JSON_roundtrip L HL)|exact Hv]. }
  eexists. split.
  - apply (EncryptionFacts.decryptMessage_mismatch L _ (with_createdAt e stamp) o keys w Hp Hk).
    simpl. rewrite Htag. intros E.
    apply (EncryptionFacts.integrityTag_injective L HL HM) in E. destruct E as [E _].
    rewrite !EncryptionFacts.integrityMessage_unfold in E. simpl in E.
    do 8 apply (inj (String.append _)) in E.
    apply Hne. apply String_of_number_inj.
    eapply append_inv_tail_any. exact E.
  - unfold no_decrypt. rewrite forallb_app. simpl.
    rewrite (EncryptionFacts.derivationLog_no_decrypt L (with_createdAt e stamp)). reflexivity.
Qed.

End WithLib.

End EncryptionExtras.

Module EncryptionExtrasExamples.
Import CryptoJS Encryption Model.

(** The sample link envelope opens under its key. *)
Lemma decrypt_success_is_authentic_witness :
  authentic lib sample_link_envelope link_credential
  /\ exists keys,
       credentialKeys lib sample_link_envelope link_credential = Some keys
       /\ AES_decrypt lib (Base64_parse lib (ciphertext sample_link_envelope))
            (aesKey lib keys) (Base64_parse lib (iv sample_link_envelope))
          = Some (cipher "hello" (repeat_char 32 "K") (repeat_char 16 "A")).
Proof.
  eapply (EncryptionExtras.decrypt_success_is_authentic lib
            (JSON_stringify lib sample_link_envelope) sample_link_envelope
            link_credential _ (world 0 0)).
  - vm_compute. reflexivity.
  - vm_compute. reflexivity.
Defined.

(** Text that is not JSON, opened with a key. *)
Lemma legacy_path_has_no_integrity_check_witness :
  exists log,
    snd (decryptMessage lib "not json" {| key := Some "k"; password := None |} (world 0 0))
    = logged lib (world 0 0) log
    /\ no_mac_no_kdf lib log
    /\ log = [CallAESDecryptPassphrase lib "not json" "k"]
    /\ fst (decryptMessage lib "not json" {| key := Some "k"; password := None |} (world 0 0))
       = inr "not json".
Proof.
  apply (EncryptionExtras.legacy_path_has_no_integrity_check lib "not json"
           {| key := Some "k"; password := None |} (world 0 0)).
  vm_compute. reflexivity.
Defined.

(** The sample password envelope opened with an empty password, and the
    one without salt opened with a password. *)
Lemma password_mode_missing_credential_witness :
  decryptMessage lib (JSON_stringify lib (sample_password_envelope None))
    (password_credential "") (world 0 0)
  = (inl PasswordRequired, world 0 0)
  /\ decryptMessage lib (JSON_stringify lib sample_saltless_envelope)
       (password_credential "hunter2") (world 0 0)
     = (inl MissingSalt, world 0 0).
Proof.
  split.
  - apply (proj1 (EncryptionExtras.password_mode_missing_credential lib
                    (JSON_stringify lib (sample_password_envelope None))
                    (sample_password_envelope None) (password_credential "") (world 0 0)
                    ltac:(vm_compute; reflexivity) eq_refl)).
    reflexivity.
  - apply (proj2 (EncryptionExtras.password_mode_missing_credential lib
                    (JSON_stringify lib sample_saltless_envelope)
                    sample_saltless_envelope (password_credential "hunter2") (world 0 0)
                    ltac:(vm_compute; reflexivity) eq_refl)); reflexivity.
Defined.

Lemma inspect_after_encrypt_witness :
  exists r w',
    encryptMessage lib "hello" {| enc_password := Some "hunter2" |} (world 0 1700000000000)
    = (inr r, w')
    /\ requiresPassword r = true
    /\ inspectEncryptedPayload lib (payload r)
       = {| insp_mode := if requiresPassword r then "password" else "link";
            insp_version := ENVELOPE_VERSION;
            insp_createdAt := Some 1700000000000 |}.
Proof.
  exact (EncryptionExtras.inspect_after_encrypt lib ModelFacts.model_laws "hello"
           {| enc_password := Some "hunter2" |} (world 0 1700000000000)).
Defined.

Lemma encrypt_modes_witness :
  exists r w' log key ivw macMessage macKey,
    encryptMessage lib "hello" {| enc_password := Some "" |} (world 0 1700000000000)
    = (inr r, w')
    /\ calls lib w' = calls lib (world 0 1700000000000) ++ log
    /\ sigBytes lib key = 32%nat /\ sigBytes lib ivw = 16%nat
    /\ sigBytes lib macKey = 32%nat
    /\ requiresPassword r = false
    /\ (exists k, shareKey r = Some k /\ k <> "")
    /\ log = [CallAESEncrypt lib "hello" key ivw; CallHmacSHA256 lib macMessage macKey].
Proof.
  exact (EncryptionExtras.encrypt_modes lib ModelFacts.model_laws "hello"
           {| enc_password := Some "" |} (world 0 1700000000000)).
Defined.

(** Two envelopes that differ in their tag only have one MAC input. *)
Lemma integrityMessage_determines_fields_witness :
  mode sample_link_envelope = mode (with_hmac sample_link_envelope "other")
  /\ ciphertext sample_link_envelope = ciphertext (with_hmac sample_link_envelope "other")
  /\ iv sample_link_envelope = iv (with_hmac sample_link_envelope "other")
  /\ JS.nullish (salt sample_link_envelope) ""
     = JS.nullish (salt (with_hmac sample_link_envelope "other")) ""
  /\ JS.nullish (createdAt sample_link_envelope) 0
     = JS.nullish (createdAt (with_hmac sample_link_envelope "other")) 0.
Proof.
  apply (EncryptionExtras.integrityMessage_determines_fields sample_link_envelope
           (with_hmac sample_link_envelope "other")).
  - split; [reflexivity|left; reflexivity].
  - split; [reflexivity|left; reflexivity].
  - repeat split.
  - repeat split.
  - reflexivity.
Defined.

Lemma createdAt_tamper_detection_witness :
  exists log,
    decryptMessage lib (JSON_stringify lib (with_createdAt sample_link_envelope (Some 1)))
      link_credential (world 0 0)
    = (inl IntegrityError, logged lib (world 0 0) log)
    /\ no_decrypt lib log.
Proof.
  apply (EncryptionExtras.createdAt_tamper_detection lib ModelFacts.model_laws
           ModelFacts.model_ideal_mac sample_link_envelope (Some 1) link_credential).
  - exact EncryptionExamples.sample_link_authentic.
  - discriminate.
Defined.

Lemma link_mode_ignores_iterations_witness :
  decryptMessage lib (JSON_stringify lib (with_iterations sample_link_envelope (Some 1)))
    link_credential (world 0 0)
  = decryptMessage lib (JSON_stringify lib sample_link_envelope) link_credential (world 0 0).
Proof.
  apply (EncryptionExtras.link_mode_ignores_iterations lib
           (JSON_stringify lib sample_link_envelope) _ sample_link_envelope (Some 1)).
  - vm_compute. reflexivity.
  - vm_compute. reflexivity.
  - reflexivity.
Defined.

End EncryptionExtrasExamples.


(** ** Facts about the JavaScript helpers *)

Module JSFacts.

Lemma split_from_app (c : ascii) (a b piece : string) :
  JS.split_from c piece (String.append a (String c b))
  = JS.split_from c piece a ++ JS.split_from c EmptyString b.
Proof.
  revert piece. induction a as [|d a IH]; intros piece.
  - change (String.append EmptyString (String c b)) with (String c b).
    cbn [JS.split_from]. now rewrite Ascii.eqb_refl.
  - change (String.append (String d a) (String c b))
      with (String d (String.append a (String c b))).
    cbn [JS.split_from]. destruct (Ascii.eqb d c); now rewrite IH.
Qed.

Lemma trimStart_head (s : string) :
  JS.trimStart s = EmptyString
  \/ exists c r, JS.trimStart s = String c r /\ JS.is_whitespace c = false.
Proof.
  induction s as [|c r IH]; cbn; [now left|].
  destruct (JS.is_whitespace c) eqn:W; [exact IH|]. right. now exists c, r.
Qed.

Lemma trimEnd_head (c : ascii) (r : string) :
  JS.is_whitespace c = false -> exists t, JS.trimEnd (String c r) = String c t.
Proof.
  intros W. cbn. rewrite W. destruct (JS.trimEnd r); eauto.
Qed.

Lemma trimEnd_idempotent (s : string) : JS.trimEnd (JS.trimEnd s) = JS.trimEnd s.
Proof.
  induction s as [|c r IH]; [reflexivity|]. cbn.
  destruct (JS.trimEnd r) as [|d t] eqn:T.
  - destruct (JS.is_whitespace c) eqn:W; [reflexivity|]. cbn. now rewrite W.
  - change (JS.trimEnd (String c (String d t))) with
      (match JS.trimEnd (String d t) with
       | EmptyString => if JS.is_whitespace c then EmptyString else String c EmptyString
       | u => String c u
       end).
    now rewrite IH.
Qed.

Lemma trim_idempotent (s : string) : JS.trim (JS.trim s) = JS.trim s.
Proof.
  unfold JS.trim. destruct (trimStart_head s) as [->|(c & r & -> & W)]; [reflexivity|].
  destruct (trimEnd_head c r W) as [t Ht]. rewrite Ht.
  assert (HS : JS.trimStart (String c t) = String c t) by (cbn; now rewrite W).
  rewrite HS, <- Ht. apply trimEnd_idempotent.
Qed.

Lemma trim_head (s : string) :
  JS.trim s = EmptyString
  \/ exists c t, JS.trim s = String c t /\ JS.is_whitespace c = false.
Proof.
  unfold JS.trim. destruct (trimStart_head s) as [->|(c & r & -> & W)]; [now left|].
  right. destruct (trimEnd_head c r W) as [t Ht]. now exists c, t.
Qed.

Lemma includes_remove (c : ascii) (s : string) : JS.includes c (JS.remove c s) = false.
Proof.
  induction s as [|d r IH]; [reflexivity|]. cbn.
  destruct (Ascii.eqb d c) eqn:E; [exact IH|]. cbn. now rewrite E, IH.
Qed.

Lemma remove_absent (c : ascii) (s : string) : JS.includes c s = false -> JS.remove c s = s.
Proof.
  induction s as [|d r IH]; [reflexivity|]. cbn.
  destruct (Ascii.eqb d c); [discriminate|]. cbn. intros H. now rewrite IH.
Qed.

Lemma includes_trimStart (c : ascii) (s : string) :
  JS.includes c s = false -> JS.includes c (JS.trimStart s) = false.
Proof.
  induction s as [|d r IH]; [reflexivity|]. cbn [JS.trimStart].
  destruct (JS.is_whitespace d); [|auto]. cbn. intros H.
  apply orb_false_iff in H as [_ H]. auto.
Qed.

Lemma includes_trimEnd (c : ascii) (s : string) :
  JS.includes c s = false -> JS.includes c (JS.trimEnd s) = false.
Proof.
  induction s as [|d r IH]; [reflexivity|]. cbn [JS.includes JS.trimEnd].
  intros H. apply orb_false_iff in H as [Hd Hr]. specialize (IH Hr).
  destruct (JS.trimEnd r) as [|e t].
  - destruct (JS.is_whitespace d); [reflexivity|]. cbn. now rewrite Hd.
  - change (Ascii.eqb d c || JS.includes c (String e t) = false). now rewrite Hd, IH.
Qed.

Lemma length_trimStart (s : string) : (String.length (JS.trimStart s) <= String.length s)%nat.
Proof.
  induction s as [|d r IH]; [reflexivity|]. cbn [JS.trimStart].
  destruct (JS.is_whitespace d); cbn; lia.
Qed.

Lemma length_trimEnd (s : string) : (String.length (JS.trimEnd s) <= String.length s)%nat.
Proof.
  induction s as [|d r IH]; [reflexivity|]. cbn [JS.trimEnd].
  destruct (JS.trimEnd r) as [|e t].
  - destruct (JS.is_whitespace d); cbn; lia.
  - cbn in *. lia.
Qed.

Lemma length_remove (c : ascii) (s : string) :
  (String.length (JS.remove c s) <= String.length s)%nat.
Proof.
  induction s as [|d r IH]; [reflexivity|]. cbn.
  destruct (Ascii.eqb d c); cbn; lia.
Qed.

Lemma falsy_false (s : string) : JS.falsy s = false <-> s <> ""%string.
Proof. unfold JS.falsy. apply String.eqb_neq. Qed.

Lemma Math_round_integer (n : Z) : JS.Math_round (inject_Z n) = n.
Proof.
  unfold JS.Math_round, Qfloor, Qplus, inject_Z. cbn.
  change (Z.pos (1 * 2)) with 2. symmetry. apply Z.div_unique with 1; lia.
Qed.

End JSFacts.

(** ** More of [server/index.js]: validation, the store invariant, the
    sweeper, isolation between ids and the origin allow-list *)

Module ServerExtras.
Import Server.

Section Handlers.
Context (StringToNumber : string -> JsNumber).
Context (cfg : Config).

Implicit Types (s : gmap string Entry) (e : Entry) (i target : string).

(** *** The POST handler *)

Lemma post_cases now createdAt req s :
  (valid_request StringToNumber req = false
   /\ snd (post_api_message StringToNumber cfg now createdAt req s) = s
   /\ status (fst (post_api_message StringToNumber cfg now createdAt req s)) = 400)
  \/ (valid_request StringToNumber req = true
      /\ exists i enc minutes,
           id req = JsStr i /\ encrypted req = JsStr enc
           /\ 6 <= Z.of_nat (String.length i) <= 36
           /\ 1 <= Z.of_nat (String.length enc) <= 20000
           /\ Number StringToNumber (expiresInMinutes req) = Finite minutes
           /\ (0 < minutes)%Q).
Proof.
  unfold valid_request, post_api_message.
  destruct (id req) as [| |b|n|i]; try (left; repeat split; reflexivity).
  destruct (Z.of_nat (String.length i) <? 6) eqn:E1.
  { left. apply Z.ltb_lt in E1.
    replace (6 <=? Z.of_nat (String.length i)) with false by (symmetry; apply Z.leb_gt; lia).
    cbn. destruct (encrypted req); repeat split; reflexivity. }
  destruct (36 <? Z.of_nat (String.length i)) eqn:E2.
  { left. apply Z.ltb_lt in E2.
    replace (Z.of_nat (String.length i) <=? 36) with false by (symmetry; apply Z.leb_gt; lia).
    rewrite andb_false_r. cbn. destruct (encrypted req); repeat split; reflexivity. }
  apply Z.ltb_ge in E1, E2.
  replace (6 <=? Z.of_nat (String.length i)) with true by (symmetry; apply Z.leb_le; lia).
  replace (Z.of_nat (String.length i) <=? 36) with true by (symmetry; apply Z.leb_le; lia).
  cbn [orb andb].
  destruct (encrypted req) as [| |b|n|enc]; try (left; repeat split; reflexivity).
  destruct (Z.of_nat (String.length enc) =? 0) eqn:E3.
  { left. apply Z.eqb_eq in E3.
    replace (1 <=? Z.of_nat (String.length enc)) with false by (symmetry; apply Z.leb_gt; lia).
    repeat split; reflexivity. }
  destruct (20000 <? Z.of_nat (String.length enc)) eqn:E4.
  { left. apply Z.ltb_lt in E4.
    replace (Z.of_nat (String.length enc) <=? 20000) with false
      by (symmetry; apply Z.leb_gt; lia).
    rewrite andb_false_r. repeat split; reflexivity. }
  apply Z.eqb_neq in E3. apply Z.ltb_ge in E4.
  replace (1 <=? Z.of_nat (String.length enc)) with true by (symmetry; apply Z.leb_le; lia).
  replace (Z.of_nat (String.length enc) <=? 20000) with true by (symmetry; apply Z.leb_le; lia).
  cbn [orb andb].
  destruct (Number StringToNumber (expiresInMinutes req)) as [|neg|minutes] eqn:EN;
    cbn [Number_isFinite]; try (left; repeat split; reflexivity).
  destruct (Qle_bool minutes 0) eqn:E5; [left; repeat split; reflexivity|].
  right. split; [reflexivity|]. exists i, enc, minutes.
  repeat split; try lia.
  apply Qnot_le_lt. intros H. apply Qle_bool_iff in H. congruence.
Qed.

(** X12. The POST handler answers 201 or 400; it answers 201 exactly for a
    request whose id is a string of 6 to 36 characters, whose payload is a
    string of 1 to 20000 characters and whose expiry converts to a finite
    positive number; a request it rejects leaves the store as it was. *)
Theorem post_accepts_exactly_valid_requests now createdAt req s :
  let res := post_api_message StringToNumber cfg now createdAt req s in
  (status (fst res) = 201 <-> valid_request StringToNumber req = true)
  /\ (status (fst res) = 201 \/ status (fst res) = 400)
  /\ (valid_request StringToNumber req = false -> snd res = s).
Proof.
  intros res. subst res.
  destruct (post_cases now createdAt req s)
    as [(V & Hs & Hc)|(V & i & enc & m & Hi & He & Li & Le & Hn & Hm)].
  - rewrite V, Hc. repeat split; try congruence; auto.
  - pose proof (ServerFacts.post_accepts StringToNumber cfg now createdAt req i enc m s
                  Hi Li He Le Hn Hm) as HP.
    cbv zeta in HP. rewrite HP, V. cbn [fst snd status].
    repeat split; auto; congruence.
Qed.


(** *** The view budget *)


(** *** One read, completely *)

Lemma get_cases now i s :
  (s !! i = None /\ get_api_message now i s = (NotFound, s))
  \/ (exists e, s !! i = Some e /\ expired now e = true
                /\ get_api_message now i s = (Gone, delete i s))
  \/ (exists e, s !! i = Some e /\ expired now e = false /\ e_remainingViews e <= 0
                /\ get_api_message now i s = (NotFound, delete i s))
  \/ (exists e, s !! i = Some e /\ expired now e = false /\ 0 < e_remainingViews e
                /\ e_burnAfterRead e = true
                /\ get_api_message now i s
                   = ({| status := 200;
                         body := Fetched (e_encrypted e) (e_expiresAt e) 0 |}, delete i s))
  \/ (exists e, s !! i = Some e /\ expired now e = false /\ 0 < e_remainingViews e
                /\ e_burnAfterRead e = false
                /\ get_api_message now i s
                   = ({| status := 200;
                         body := Fetched (e_encrypted e) (e_expiresAt e)
                                   (e_remainingViews e - 1) |},
                      if e_remainingViews e - 1 <=? 0 then delete i s
                      else <[i := set_remainingViews e (e_remainingViews e - 1)]> s)).
Proof.
  destruct (s !! i) as [e|] eqn:E.
  2:{ left. split; [reflexivity|]. now apply ServerFacts.get_absent. }
  right. destruct (expired now e) eqn:X.
  { left. exists e. repeat split; auto. now apply (ServerFacts.get_expired now i s e). }
  right. destruct (Z.leb_spec (e_remainingViews e) 0) as [L|L].
  { left. exists e. repeat split; auto. unfold get_api_message. rewrite E, X.
    now replace (e_remainingViews e <=? 0) with true by (symmetry; apply Z.leb_le; lia). }
  right. destruct (e_burnAfterRead e) eqn:B.
  - left. exists e. repeat split; auto. now apply (ServerFacts.get_burn now i s e).
  - right. exists e. repeat split; auto. now apply (ServerFacts.get_vault now i s e).
Qed.

(** X13. A read answers 200, 404 or 410. It answers 200 only for an entry
    that is stored, not expired and has a view left, with that entry's
    payload and expiry, and it uses up exactly one view; after any other
    answer the id is absent from the store. *)
Theorem read_succeeds_only_on_live_entry now i s :
  let res := fst (get_api_message now i s) in
  let s' := snd (get_api_message now i s) in
  (status res = 200
   /\ exists e, s !! i = Some e /\ expired now e = false /\ 0 < e_remainingViews e
                /\ body res = Fetched (e_encrypted e) (e_expiresAt e)
                                (if e_burnAfterRead e then 0 else e_remainingViews e - 1)
                /\ views_left i s' = budget e - 1)
  \/ ((res = NotFound \/ res = Gone) /\ s' !! i = None).
Proof.
  cbv zeta.
  destruct (get_cases now i s)
    as [(E & ->)|[(e & E & X & ->)|[(e & E & X & L & ->)|[(e & E & X & L & B & ->)
       |(e & E & X & L & B & ->)]]]]; cbn [fst snd].
  - right. auto.
  - right. split; [auto|]. apply lookup_delete_eq.
  - right. split; [auto|]. apply lookup_delete_eq.
  - left. split; [reflexivity|]. exists e. unfold views_left, budget.
    rewrite lookup_delete_eq, B. repeat split; auto.
  - left. split; [reflexivity|]. exists e. unfold views_left, budget. rewrite B.
    repeat split; auto.
    destruct (Z.leb_spec (e_remainingViews e - 1) 0).
    + rewrite lookup_delete_eq. lia.
    + rewrite lookup_insert_eq. cbn. rewrite B. reflexivity.
Qed.

Lemma post_then_get now createdAt req s i enc minutes t :
  id req = JsStr i -> 6 <= Z.of_nat (String.length i) <= 36 ->
  encrypted req = JsStr enc -> 1 <= Z.of_nat (String.length enc) <= 20000 ->
  Number StringToNumber (expiresInMinutes req) = Finite minutes -> (0 < minutes)%Q ->
  1 <= MAX_VIEWS cfg ->
  let expiresAt := JS.expiry now (Qmin minutes (inject_Z (MAX_MINUTES cfg))) in
  let burnFlag := Boolean (burnAfterRead req) in
  let views := resolveViews StringToNumber cfg burnFlag (maxViews req) in
  (inject_Z t < expiresAt)%Q ->
  fst (get_api_message t i (snd (post_api_message StringToNumber cfg now createdAt req s)))
  = {| status := 200; body := Fetched enc expiresAt (if burnFlag then 0 else views - 1) |}.
Proof.
  intros Hi Li He Le Hn Hm HV. cbv zeta. intros Ht.
  pose proof (ServerFacts.post_accepts StringToNumber cfg now createdAt req i enc minutes s
                Hi Li He Le Hn Hm) as HP.
  cbv zeta in HP. rewrite HP. cbn [fst snd].
  pose proof (ServerFacts.resolveViews_positive StringToNumber cfg
                (Boolean (burnAfterRead req)) (maxViews req) HV) as HR.
  destruct (Boolean (burnAfterRead req)) eqn:B.
  - match goal with
    | |- context [<[i := ?e]> s] => pose proof (lookup_insert_eq s i e) as HL
    end.
    rewrite (ServerFacts.get_burn t i _ _ HL).
    + reflexivity.
    + now apply ServerFacts.Qle_bool_false_of_lt.
    + cbn [e_remainingViews]. lia.
    + reflexivity.
  - match goal with
    | |- context [<[i := ?e]> s] => pose proof (lookup_insert_eq s i e) as HL
    end.
    rewrite (ServerFacts.get_vault t i _ _ HL).
    + reflexivity.
    + now apply ServerFacts.Qle_bool_false_of_lt.
    + cbn [e_remainingViews]. lia.
    + reflexivity.
Qed.

(** X14. Creating a note and reading it back: a valid request is stored
    under its id whatever the store held there, and a read made while the
    clock is below the expiry that the creation reported returns the payload
    that was posted, that expiry, and one view less than the creation
    reported. The expiry is the one the handler computes in binary64
    arithmetic; the window is within 2^53 minutes, so that it is finite. *)
Theorem read_after_create now createdAt req s i enc t :
  valid_request StringToNumber req = true ->
  1 <= MAX_VIEWS cfg -> Z.abs (MAX_MINUTES cfg) <= 2 ^ 53 ->
  id req = JsStr i -> encrypted req = JsStr enc ->
  let burnFlag := Boolean (burnAfterRead req) in
  let views := resolveViews StringToNumber cfg burnFlag (maxViews req) in
  let created := post_api_message StringToNumber cfg now createdAt req s in
  exists minutes,
    Number StringToNumber (expiresInMinutes req) = Finite minutes
    /\ let expiresAt := JS.expiry now (Qmin minutes (inject_Z (MAX_MINUTES cfg))) in
       fst created
       = {| status := 201;
            body := Created expiresAt (if burnFlag then None else Some views) |}
       /\ ((inject_Z t < expiresAt)%Q ->
           fst (get_api_message t i (snd created))
           = {| status := 200;
                body := Fetched enc expiresAt (if burnFlag then 0 else views - 1) |}).
Proof.
  intros V HV _ Hi He. cbv zeta.
  destruct (post_cases now createdAt req s)
    as [(V' & _)|(_ & i' & enc' & m & Hi' & He' & Li & Le & Hn & Hm)];
    [congruence|].
  assert (i' = i) by congruence. assert (enc' = enc) by congruence. subst i' enc'.
  exists m. split; [exact Hn|]. split.
  { now rewrite (ServerFacts.post_accepts StringToNumber cfg now createdAt req i enc m s
                   Hi Li He Le Hn Hm). }
  intros Ht. now apply (post_then_get now createdAt req s i enc m t).
Qed.

(** *** What the handlers keep true of the store *)

Lemma serve_sound now (r : Request) s :
  1 <= MAX_VIEWS cfg ->
  sound_store s -> sound_store (snd (serve StringToNumber cfg now r s)).
Proof.
  intros HV HS. destruct r as [req createdAt|i|i|].
  - rewrite ServerFacts.serve_post. cbn [snd].
    destruct (post_cases now createdAt req s)
      as [(_ & -> & _)|(_ & i & enc & m & Hi & He & Li & Le & Hn & Hm)]; [exact HS|].
    pose proof (ServerFacts.post_accepts StringToNumber cfg now createdAt req i enc m s
                  Hi Li He Le Hn Hm) as HP.
    cbv zeta in HP. rewrite HP. cbn [snd].
    intros k e [[_ <-]|[_ Hk]]%lookup_insert_Some; [|now apply (HS k)].
    unfold sound_entry. cbn.
    split; [now apply ServerFacts.resolveViews_positive|].
    intros ->; reflexivity.
  - rewrite ServerFacts.serve_get. cbn [snd].
    destruct (get_cases now i s)
      as [(E & ->)|[(e & E & X & ->)|[(e & E & X & L & ->)|[(e & E & X & L & B & ->)
         |(e & E & X & L & B & ->)]]]]; cbn [snd]; auto;
      try (intros k e' [_ Hk]%lookup_delete_Some; now apply (HS k)).
    destruct (Z.leb_spec (e_remainingViews e - 1) 0).
    + intros k e' [_ Hk]%lookup_delete_Some; now apply (HS k).
    + intros k e' [[_ <-]|[_ Hk]]%lookup_insert_Some; [|now apply (HS k)].
      destruct (HS i e E) as (H1 & H2).
      unfold sound_entry. cbn. rewrite B. split; [lia|congruence].
  - cbn. unfold delete_api_message. destruct (s !! i); cbn [snd]; [|exact HS].
    intros k e' [_ Hk]%lookup_delete_Some; now apply (HS k).
  - cbn. unfold sweep. intros k e' [Hk _]%map_lookup_filter_Some. now apply (HS k).
Qed.

(** X15. Every entry of a store that the handlers built keeps at least
    one view, and exactly one when it burns after reading: the property
    holds of the empty store and every request of every schedule keeps it. *)
Theorem handlers_keep_store_sound schedule s :
  1 <= MAX_VIEWS cfg ->
  sound_store s ->
  sound_store (snd (run StringToNumber cfg schedule s)).
Proof.
  intros HV. revert s. induction schedule as [|[now r] rest IH]; intros s HS.
  - exact HS.
  - rewrite ServerFacts.run_cons. cbn [snd]. apply IH. now apply serve_sound.
Qed.

(** *** The sweeper *)

Lemma expired_mono now t e : now <= t -> expired now e = true -> expired t e = true.
Proof.
  unfold expired. intros Ht H. apply Qle_bool_iff in H. apply Qle_bool_iff.
  apply Qle_trans with (inject_Z now); [exact H|]. now rewrite <- Zle_Qle.
Qed.

Lemma sweep_lookup now s i :
  sweep now s !! i
  = match s !! i with
    | Some e => if expired now e || (e_remainingViews e <=? 0) then None else Some e
    | None => None
    end.
Proof.
  unfold sweep. destruct (s !! i) as [e|] eqn:E.
  - destruct (expired now e || (e_remainingViews e <=? 0)) eqn:X.
    + apply map_lookup_filter_None. right. intros e' E'. cbn.
      assert (e' = e) by congruence. subst e'. rewrite X. cbn. congruence.
    + apply map_lookup_filter_Some. split; [exact E|]. cbn. now rewrite X.
  - apply map_lookup_filter_None. now left.
Qed.

(** X16. The sweeper keeps exactly the entries that are unexpired and have
    a view left, and a later sweep subsumes an earlier one; in particular
    sweeping twice at the same time is sweeping once. *)
Theorem sweep_subsumed_by_later_sweep now t s :
  now <= t ->
  (forall i,
     sweep now s !! i
     = match s !! i with
       | Some e => if expired now e || (e_remainingViews e <=? 0) then None else Some e
       | None => None
       end)
  /\ sweep t (sweep now s) = sweep t s.
Proof.
  intros Ht. split; [intros i; apply sweep_lookup|].
  apply map_eq. intros i. rewrite !sweep_lookup.
  destruct (s !! i) as [e|]; [|reflexivity].
  destruct (expired now e) eqn:X.
  - cbn [orb]. now rewrite (expired_mono now t e Ht X).
  - cbn [orb]. destruct (e_remainingViews e <=? 0) eqn:L.
    + now rewrite orb_true_r.
    + now rewrite L.
Qed.

Lemma sweep_delete now i s : sweep now (delete i s) = delete i (sweep now s).
Proof.
  apply map_eq. intros k. rewrite sweep_lookup.
  destruct (decide (k = i)) as [->|N].
  - now rewrite !lookup_delete_eq.
  - rewrite !lookup_delete_ne by congruence. now rewrite sweep_lookup.
Qed.

Lemma sweep_insert now i e s :
  expired now e = false -> 0 < e_remainingViews e ->
  sweep now (<[i := e]> s) = <[i := e]> (sweep now s).
Proof.
  intros X L. apply map_eq. intros k. rewrite sweep_lookup.
  destruct (decide (k = i)) as [->|N].
  - rewrite !lookup_insert_eq, X.
    now replace (e_remainingViews e <=? 0) with false by (symmetry; apply Z.leb_gt; lia).
  - rewrite !lookup_insert_ne by congruence. now rewrite sweep_lookup.
Qed.

Lemma expired_false_earlier now t e : now <= t -> expired t e = false -> expired now e = false.
Proof.
  intros Ht X. destruct (expired now e) eqn:Y; [|reflexivity].
  rewrite (expired_mono now t e Ht Y) in X. discriminate.
Qed.

(** X17. A sweep changes no answer but one: a read after a sweep finds the
    store that the sweep of the read's outcome would give, and gets the same
    response, except that an entry the sweep removed, for which the read
    would have answered 410, is answered 404. *)
Theorem sweep_then_read now t i s :
  now <= t ->
  let direct := get_api_message t i s in
  let swept := get_api_message t i (sweep now s) in
  snd swept = sweep now (snd direct)
  /\ (fst swept = fst direct \/ (fst direct = Gone /\ fst swept = NotFound)).
Proof.
  intros Ht. cbv zeta.
  destruct (get_cases t i s)
    as [(E & ->)|[(e & E & X & ->)|[(e & E & X & L & ->)|[(e & E & X & L & B & ->)
       |(e & E & X & L & B & ->)]]]]; cbn [fst snd].
  - rewrite ServerFacts.get_absent by (rewrite sweep_lookup, E; reflexivity). auto.
  - rewrite sweep_delete.
    destruct (expired now e || (e_remainingViews e <=? 0)) eqn:D.
    + assert (HN : sweep now s !! i = None) by (rewrite sweep_lookup, E, D; reflexivity).
      rewrite ServerFacts.get_absent by exact HN. cbn [fst snd].
      rewrite delete_id by exact HN. auto.
    + assert (HS : sweep now s !! i = Some e) by (rewrite sweep_lookup, E, D; reflexivity).
      rewrite (ServerFacts.get_expired t i _ e HS X). auto.
  - rewrite sweep_delete.
    assert (HN : sweep now s !! i = None).
    { rewrite sweep_lookup, E.
      replace (e_remainingViews e <=? 0) with true by (symmetry; apply Z.leb_le; lia).
      now rewrite orb_true_r. }
    rewrite ServerFacts.get_absent by exact HN. cbn [fst snd].
    rewrite delete_id by exact HN. auto.
  - assert (HS : sweep now s !! i = Some e).
    { rewrite sweep_lookup, E, (expired_false_earlier now t e Ht X).
      now replace (e_remainingViews e <=? 0) with false by (symmetry; apply Z.leb_gt; lia). }
    rewrite (ServerFacts.get_burn t i _ e HS X L B). cbn [fst snd].
    rewrite sweep_delete. auto.
  - assert (HS : sweep now s !! i = Some e).
    { rewrite sweep_lookup, E, (expired_false_earlier now t e Ht X).
      now replace (e_remainingViews e <=? 0) with false by (symmetry; apply Z.leb_gt; lia). }
    rewrite (ServerFacts.get_vault t i _ e HS X L B). cbn [fst snd].
    split; [|auto].
    destruct (Z.leb_spec (e_remainingViews e - 1) 0).
    + now rewrite sweep_delete.
    + rewrite sweep_insert; auto. cbn. exact (expired_false_earlier now t e Ht X).
Qed.

(** *** Requests address one id *)

Lemma serve_delete now i s :
  serve StringToNumber cfg now (DELETE i) s
  = (Some (fst (delete_api_message i s)), snd (delete_api_message i s)).
Proof. cbn. now destruct (delete_api_message i s). Qed.

Lemma post_response_store_free now createdAt req s s2 :
  fst (post_api_message StringToNumber cfg now createdAt req s2)
  = fst (post_api_message StringToNumber cfg now createdAt req s).
Proof.
  unfold post_api_message.
  destruct (id req); try reflexivity.
  destruct (_ || _); try reflexivity.
  destruct (encrypted req); try reflexivity.
  destruct (_ || _); try reflexivity.
  destruct (Number_isFinite _); try reflexivity.
  destruct (Qle_bool _ _); reflexivity.
Qed.

(** X18. A request reads and writes only the entry of the id it addresses:
    it leaves every other entry as it was, and its response and the entry
    it leaves depend on nothing else in the store. *)
Theorem requests_touch_only_their_id now (r : Request) j s :
  target_of r = Some j ->
  (forall k, k <> j -> snd (serve StringToNumber cfg now r s) !! k = s !! k)
  /\ (forall s2, s2 !! j = s !! j ->
        fst (serve StringToNumber cfg now r s2) = fst (serve StringToNumber cfg now r s)
        /\ snd (serve StringToNumber cfg now r s2) !! j
           = snd (serve StringToNumber cfg now r s) !! j).
Proof.
  intros Hr. destruct r as [req createdAt|i|i|]; cbn in Hr; try discriminate.
  - destruct (id req) as [| | | |i] eqn:Hi; try discriminate.
    assert (i = j) by congruence. subst i.
    split.
    + intros k Hk. rewrite ServerFacts.serve_post. cbn [snd].
      apply ServerFacts.post_other. cbn. rewrite Hi. apply String.eqb_neq. congruence.
    + intros s2 H2. rewrite !ServerFacts.serve_post. cbn [fst snd].
      split; [f_equal; apply post_response_store_free|].
      destruct (post_cases now createdAt req s)
        as [(V & -> & _)|(_ & i & enc & m & Hi' & He & Li & Le & Hn & Hm)].
      * destruct (post_cases now createdAt req s2) as [(_ & -> & _)|(V2 & _)];
          [exact H2|congruence].
      * assert (i = j) by congruence. subst i.
        rewrite !(ServerFacts.post_accepts StringToNumber cfg now createdAt req j enc m _
                    Hi Li He Le Hn Hm).
        cbn [snd]. now rewrite !lookup_insert_eq.
  - assert (i = j) by congruence. subst i. split.
    + intros k Hk. rewrite ServerFacts.serve_get. cbn [snd].
      apply ServerFacts.get_other. congruence.
    + intros s2 H2. rewrite !ServerFacts.serve_get. cbn [fst snd].
      unfold get_api_message. rewrite H2. destruct (s !! j) as [e|] eqn:E; [|cbn [fst snd]; split; [reflexivity|congruence]].
      destruct (expired now e); [cbn [fst snd]; now rewrite !lookup_delete_eq|].
      destruct (e_remainingViews e <=? 0); [cbn [fst snd]; now rewrite !lookup_delete_eq|].
      destruct (e_burnAfterRead e); [cbn [fst snd]; now rewrite !lookup_delete_eq|].
      cbn [fst snd]. split; [reflexivity|].
      destruct (_ <=? 0); [now rewrite !lookup_delete_eq|now rewrite !lookup_insert_eq].
  - assert (i = j) by congruence. subst i. split.
    + intros k Hk. rewrite serve_delete. cbn [snd].
      apply ServerFacts.delete_other. congruence.
    + intros s2 H2. rewrite !serve_delete. cbn [fst snd].
      unfold delete_api_message. rewrite H2.
      destruct (s !! j) as [e|] eqn:E; cbn [fst snd]; [|split; [reflexivity|congruence]].
      now rewrite !lookup_delete_eq.
Qed.

(** X19. A note that is gone stays gone: while no request posts to an id
    that the store does not hold, the id stays absent whatever else the
    schedule does, and every read of it answers 404. *)
Theorem absent_stays_absent target schedule :
  forall s,
    s !! target = None ->
    Forall (fun tr => forall req createdAt,
                        snd tr = POST req createdAt -> id req <> JsStr target) schedule ->
    snd (run StringToNumber cfg schedule s) !! target = None
    /\ Forall (fun r => r = NotFound)
         (reads_of target (fst (run StringToNumber cfg schedule s))).
Proof.
  induction schedule as [|[now r] rest IH]; intros s Hs HF.
  - split; [exact Hs|constructor].
  - inversion HF as [|? ? Hr HF']; subst. cbn [snd] in Hr.
    rewrite ServerFacts.run_cons. cbn [fst snd].
    assert (Hs' : snd (serve StringToNumber cfg now r s) !! target = None).
    { destruct r as [req createdAt|i|i|].
      - rewrite ServerFacts.serve_post. cbn [snd].
        rewrite ServerFacts.post_other; [exact Hs|].
        cbn. destruct (id req) as [| | | |i] eqn:Hi; try reflexivity.
        apply String.eqb_neq. intros ->. now apply (Hr req createdAt).
      - rewrite ServerFacts.serve_get. cbn [snd].
        destruct (decide (i = target)) as [->|N].
        + now rewrite ServerFacts.get_absent.
        + now rewrite ServerFacts.get_other.
      - rewrite serve_delete. cbn [snd]. destruct (decide (i = target)) as [->|N].
        + unfold delete_api_message. now rewrite Hs.
        + now rewrite ServerFacts.delete_other.
      - cbn. now apply ServerFacts.sweep_absent. }
    destruct (IH _ Hs' HF') as [IH1 IH2]. split; [exact IH1|].
    unfold reads_of. cbn [omap list_omap fst snd]. fold (reads_of target).
    destruct (is_read target r) eqn:R; [|exact IH2].
    destruct r as [req createdAt|i|i|]; try discriminate.
    cbn in R. apply String.eqb_eq in R. subst i.
    rewrite ServerFacts.serve_get in IH2 |- *.
    rewrite ServerFacts.get_absent in IH2 |- * by exact Hs.
    cbn [fst snd] in IH2 |- *. constructor; [reflexivity|exact IH2].
Qed.

End Handlers.

(** *** The origin allow-list *)

Section Cors.
Context (RegExp_test : string -> string -> bool).

Lemma matcher_of_literal (entry value : string) :
  JS.includes "*" entry = false ->
  createOriginMatcher RegExp_test entry value = String.eqb value entry.
Proof.
  intros H. unfold createOriginMatcher. rewrite H.
  destruct (String.eqb entry "*") eqn:E; [|reflexivity].
  apply String.eqb_eq in E. subst entry. discriminate.
Qed.

(** X20. The origin check. A request without an [Origin] header is
    allowed, and so is every request when the allow-list is empty or holds
    the entry [*]; when the list is not empty and no entry has a wildcard, an
    origin is allowed exactly when it is one of the entries. *)
Theorem origin_allowed_by_list (env : option string) :
  let entries := allowedOrigins env in
  isOriginAllowed RegExp_test env None = true
  /\ (forall origin, entries = [] -> isOriginAllowed RegExp_test env origin = true)
  /\ (forall origin, In "*"%string entries -> isOriginAllowed RegExp_test env origin = true)
  /\ (forall origin,
        entries <> [] -> origin <> ""%string ->
        Forall (fun entry => JS.includes "*" entry = false) entries ->
        (isOriginAllowed RegExp_test env (Some origin) = true <-> In origin entries)).
Proof.
  cbv zeta. unfold isOriginAllowed. repeat split.
  - intros origin ->. cbn. now rewrite orb_true_r.
  - intros origin HIn.
    destruct (JS.falsy_opt origin || _); [reflexivity|].
    apply existsb_exists. exists (createOriginMatcher RegExp_test "*"). split; [|reflexivity].
    apply in_map_iff. now exists "*"%string.
  - assert (HF : JS.falsy_opt (Some origin) = false)
      by (cbn; unfold JS.falsy; now apply String.eqb_neq).
    rewrite HF, length_map. cbn [orb].
    destruct (allowedOrigins env) as [|e0 rest] eqn:E; [congruence|]. cbn [length Nat.eqb].
    intros [m [Hm Hv]]%existsb_exists. apply in_map_iff in Hm as [entry [<- Hentry]].
    rewrite List.Forall_forall in H1. cbn [JS.nullish] in Hv.
    rewrite matcher_of_literal in Hv by (apply H1; exact Hentry).
    apply String.eqb_eq in Hv. now subst.
  - assert (HF : JS.falsy_opt (Some origin) = false)
      by (cbn; unfold JS.falsy; now apply String.eqb_neq).
    rewrite HF, length_map. cbn [orb].
    destruct (allowedOrigins env) as [|e0 rest] eqn:E; [congruence|]. cbn [length Nat.eqb].
    intros HIn. apply existsb_exists. exists (createOriginMatcher RegExp_test origin).
    split; [apply in_map_iff; now exists origin|].
    rewrite List.Forall_forall in H1. cbn [JS.nullish].
    rewrite matcher_of_literal by (apply H1; exact HIn). apply String.eqb_refl.
Qed.

End Cors.

(** X21. Reading [ALLOWED_ORIGINS]: the entries are what stands between
    the commas, trimmed, blank ones dropped. So every entry is non-empty and
    has no surrounding white space, an unset or empty variable gives no
    entry, and the entries of [a,b] are those of [a] followed by those of
    [b]. *)
Theorem allowedOrigins_entries (env : option string) :
  Forall (fun entry => entry <> ""%string /\ JS.trim entry = entry) (allowedOrigins env)
  /\ allowedOrigins None = []
  /\ allowedOrigins (Some ""%string) = []
  /\ (forall a b : string,
        allowedOrigins (Some (String.append a (String "," b)))
        = allowedOrigins (Some a) ++ allowedOrigins (Some b)).
Proof.
  repeat split.
  - unfold allowedOrigins. apply List.Forall_forall. intros entry [Hin Hne]%filter_In.
    apply in_map_iff in Hin as [raw [<- _]]. split.
    + intros E. rewrite E in Hne. discriminate.
    + apply JSFacts.trim_idempotent.
  - intros a b. unfold allowedOrigins, JS.split. cbn [JS.nullish].
    now rewrite JSFacts.split_from_app, List.map_app, List.filter_app.
Qed.

End ServerExtras.



(** ** The further store properties on sample requests *)

Module ServerExtrasExamples.
Import Server.

(** A vault of five created at time 0 for one minute and read after a
    second. *)
Lemma read_after_create_witness :
  exists minutes,
    Number sample_StringToNumber (expiresInMinutes (sample_request 5)) = Finite minutes
    /\ let expiresAt := JS.expiry 0 (Qmin minutes (inject_Z (MAX_MINUTES defaultConfig))) in
       fst (post_api_message sample_StringToNumber defaultConfig 0 3 (sample_request 5) ∅)
       = {| status := 201;
            body := Created expiresAt
                      (if Boolean (burnAfterRead (sample_request 5)) then None
                       else Some (resolveViews sample_StringToNumber defaultConfig
                                    (Boolean (burnAfterRead (sample_request 5)))
                                    (maxViews (sample_request 5)))) |}
       /\ ((inject_Z 1000 < expiresAt)%Q ->
           fst (get_api_message 1000 "note-0001"
                  (snd (post_api_message sample_StringToNumber defaultConfig 0 3
                          (sample_request 5) ∅)))
           = {| status := 200;
                body := Fetched "opaque-envelope" expiresAt
                          (if Boolean (burnAfterRead (sample_request 5)) then 0
                           else resolveViews sample_StringToNumber defaultConfig
                                  (Boolean (burnAfterRead (sample_request 5)))
                                  (maxViews (sample_request 5)) - 1) |}).
Proof.
  apply (ServerExtras.read_after_create sample_StringToNumber defaultConfig 0 3
           (sample_request 5) ∅ "note-0001" "opaque-envelope" 1000);
    [reflexivity|simpl; lia|vm_compute; discriminate|reflexivity|reflexivity].
Defined.

(** A note created, read, swept and deleted, starting from the empty
    store. *)
Lemma handlers_keep_store_sound_witness :
  sound_store
    (snd (run sample_StringToNumber defaultConfig
            [(0, POST (sample_request 5) 3); (1000, GET "note-0001"); (2000, SWEEP);
             (3000, DELETE "note-0001")] ∅)).
Proof.
  apply (ServerExtras.handlers_keep_store_sound sample_StringToNumber defaultConfig
           [(0, POST (sample_request 5) 3); (1000, GET "note-0001"); (2000, SWEEP);
            (3000, DELETE "note-0001")] ∅).
  - simpl; lia.
  - intros i entry H. rewrite lookup_empty in H. discriminate.
Defined.

(** A store with one live entry, swept at 10 and again at 20. *)
Lemma sweep_subsumed_by_later_sweep_witness :
  let s := {["note-0001" := sample_entry false 3]} in
  (forall i,
     sweep 10 s !! i
     = match s !! i with
       | Some e => if expired 10 e || (e_remainingViews e <=? 0) then None else Some e
       | None => None
       end)
  /\ sweep 20 (sweep 10 s) = sweep 20 s.
Proof.
  apply (ServerExtras.sweep_subsumed_by_later_sweep 10 20
           {["note-0001" := sample_entry false 3]}).
  lia.
Defined.

(** An entry that expired at 60000, swept at 70000 and read at 80000. *)
Lemma sweep_then_read_witness :
  let s := {["note-0001" := sample_entry false 3]} in
  snd (get_api_message 80000 "note-0001" (sweep 70000 s))
  = sweep 70000 (snd (get_api_message 80000 "note-0001" s))
  /\ (fst (get_api_message 80000 "note-0001" (sweep 70000 s))
      = fst (get_api_message 80000 "note-0001" s)
      \/ (fst (get_api_message 80000 "note-0001" s) = Gone
          /\ fst (get_api_message 80000 "note-0001" (sweep 70000 s)) = NotFound)).
Proof.
  apply (ServerExtras.sweep_then_read 70000 80000 "note-0001"
           {["note-0001" := sample_entry false 3]}).
  lia.
Defined.

(** A read of one note in a store that holds it. *)
Lemma requests_touch_only_their_id_witness :
  let s := {["note-0001" := sample_entry false 3]} in
  let r := GET "note-0001" in
  (forall k, k <> "note-0001"%string ->
     snd (serve sample_StringToNumber defaultConfig 10 r s) !! k = s !! k)
  /\ (forall s2, s2 !! "note-0001"%string = s !! "note-0001"%string ->
        fst (serve sample_StringToNumber defaultConfig 10 r s2)
        = fst (serve sample_StringToNumber defaultConfig 10 r s)
        /\ snd (serve sample_StringToNumber defaultConfig 10 r s2) !! "note-0001"%string
           = snd (serve sample_StringToNumber defaultConfig 10 r s) !! "note-0001"%string).
Proof.
  apply (ServerExtras.requests_touch_only_their_id sample_StringToNumber defaultConfig 10
           (GET "note-0001") "note-0001" {["note-0001" := sample_entry false 3]}).
  reflexivity.
Defined.

(** Reads, a delete and a sweep of an id the empty store does not hold. *)
Lemma absent_stays_absent_witness :
  let schedule :=
    [(10, GET "note-0001"); (20, SWEEP); (30, DELETE "note-0001"); (40, GET "note-0001")] in
  snd (run sample_StringToNumber defaultConfig schedule ∅) !! "note-0001"%string = None
  /\ Forall (fun r => r = NotFound)
       (reads_of "note-0001" (fst (run sample_StringToNumber defaultConfig schedule ∅))).
Proof.
  apply (ServerExtras.absent_stays_absent sample_StringToNumber defaultConfig "note-0001"
           [(10, GET "note-0001"); (20, SWEEP); (30, DELETE "note-0001");
            (40, GET "note-0001")] ∅).
  - apply lookup_empty.
  - repeat constructor; intros req createdAt H; discriminate.
Defined.

End ServerExtrasExamples.

(** ** More of [message-service.ts]: what a read returns and the round
    trips on either backend *)

Module MessageServiceExtras.
Import MessageService.

Implicit Types (ls : gmap string LocalEntry) (ms : gmap string Server.Entry).

(** *** The local path *)

Lemma pruneExpired_lookup now ls i :
  pruneExpired now ls !! i
  = match ls !! i with
    | Some le => if kept now le then Some le else None
    | None => None
    end.
Proof.
  unfold pruneExpired. destruct (ls !! i) as [le|] eqn:E.
  - destruct (kept now le) eqn:K.
    + apply map_lookup_filter_Some. split; [exact E|]. exact K.
    + apply map_lookup_filter_None. right. intros le' E'.
      assert (le' = le) by congruence. subst le'. cbn [snd]. unfold kept in K.
      rewrite K. discriminate.
  - apply map_lookup_filter_None. now left.
Qed.

Lemma fetchLocal_run readAt now i ls :
  fst (fetchLocal readAt now i ls)
  = match ls !! i with
    | None => inl (Err "Message is no longer available")
    | Some le =>
        if negb (kept readAt le) then inl (Err "Message is no longer available")
        else if Qle_bool (l_expiresAt le) (inject_Z now) then
          inl (Err "This link has expired")
        else
          inr {| fr_encrypted := l_encrypted le; fr_expiresAt := l_expiresAt le;
                 fr_servedBy := local;
                 fr_remainingViews :=
                   Some (if l_burnAfterRead le then 0 else l_remainingViews le - 1) |}
    end.
Proof.
  unfold fetchLocal, readStore. rewrite pruneExpired_lookup.
  destruct (ls !! i) as [le|]; [|reflexivity].
  destruct (kept readAt le) eqn:K; [|reflexivity]. cbn [negb].
  destruct (Qle_bool (l_expiresAt le) (inject_Z now)); [reflexivity|].
  destruct (l_burnAfterRead le) eqn:B; [reflexivity|].
  cbn [fst l_encrypted l_expiresAt l_remainingViews].
  unfold kept in K. rewrite B in K. cbn [negb andb] in K.
  apply andb_prop in K as [_ K]. apply negb_true_iff, Z.leb_gt in K.
  now rewrite Z.max_r by lia.
Qed.

Lemma kept_mono readAt t le : readAt <= t -> kept readAt le = false -> kept t le = false.
Proof.
  unfold kept. intros Ht K. apply andb_false_iff in K as [K|K].
  - apply negb_false_iff in K. apply Qle_bool_iff in K.
    apply andb_false_iff. left. apply negb_false_iff, Qle_bool_iff.
    apply Qle_trans with (inject_Z readAt); [exact K|]. now rewrite <- Zle_Qle.
  - rewrite K. apply andb_false_r.
Qed.

(** *** The remote path *)

Lemma fetchRemote_run now i ms :
  fst (fetchRemote now i ms)
  = match ms !! i with
    | None => inl (Err "Message not found or already burned")
    | Some e =>
        if Server.expired now e then inl (Err "Message expired")
        else if Server.e_remainingViews e <=? 0 then
          inl (Err "Message not found or already burned")
        else
          inr {| fr_encrypted := Server.e_encrypted e; fr_expiresAt := Server.e_expiresAt e;
                 fr_servedBy := remote;
                 fr_remainingViews :=
                   Some (if Server.e_burnAfterRead e then 0
                         else Server.e_remainingViews e - 1) |}
    end.
Proof.
  unfold fetchRemote.
  destruct (ServerExtras.get_cases now i ms)
    as [(E & ->)|[(e & E & X & ->)|[(e & E & X & L & ->)|[(e & E & X & L & B & ->)
       |(e & E & X & L & B & ->)]]]]; rewrite E; cbn [fst]; try rewrite X; try reflexivity.
  - now replace (Server.e_remainingViews e <=? 0) with true by (symmetry; apply Z.leb_le; lia).
  - replace (Server.e_remainingViews e <=? 0) with false by (symmetry; apply Z.leb_gt; lia).
    now rewrite B.
  - replace (Server.e_remainingViews e <=? 0) with false by (symmetry; apply Z.leb_gt; lia).
    now rewrite B.
Qed.

(** X22. What a read returns, on either path, for an id that a URL
    carries unchanged and that names no property of [Object.prototype]. The
    remote path turns the server's [404] and [410] into errors that carry
    the server's message and its [200] into the payload, the expiry and the
    count of the response. The local path says that the message is no longer
    available for a note that the storage does not hold, or holds expired at
    the time of the pruning or as a vault without views, and that the link
    has expired for a note that expired between the pruning and the check,
    which cannot happen when both see the same clock value; of any other
    note it returns the payload and the expiry that are stored and the views
    left after this one. *)
Theorem fetch_outcomes readAt now i ms ls :
  plain_id i = true ->
  fst (fetchRemote now i ms)
  = match ms !! i with
    | None => inl (Err "Message not found or already burned")
    | Some e =>
        if Server.expired now e then inl (Err "Message expired")
        else if Server.e_remainingViews e <=? 0 then
          inl (Err "Message not found or already burned")
        else
          inr {| fr_encrypted := Server.e_encrypted e; fr_expiresAt := Server.e_expiresAt e;
                 fr_servedBy := remote;
                 fr_remainingViews :=
                   Some (if Server.e_burnAfterRead e then 0
                         else Server.e_remainingViews e - 1) |}
    end
  /\ fst (fetchLocal readAt now i ls)
     = match ls !! i with
       | None => inl (Err "Message is no longer available")
       | Some le =>
           if negb (kept readAt le) then inl (Err "Message is no longer available")
           else if Qle_bool (l_expiresAt le) (inject_Z now) then
             inl (Err "This link has expired")
           else
             inr {| fr_encrypted := l_encrypted le; fr_expiresAt := l_expiresAt le;
                    fr_servedBy := local;
                    fr_remainingViews :=
                      Some (if l_burnAfterRead le then 0 else l_remainingViews le - 1) |}
       end
  /\ fst (fetchLocal now now i ls) <> inl (Err "This link has expired").
Proof.
  intros _.
  split; [apply fetchRemote_run|]. split; [apply fetchLocal_run|].
  rewrite fetchLocal_run. destruct (ls !! i) as [le|]; [|discriminate].
  destruct (kept now le) eqn:K; [|discriminate]. cbn [negb].
  unfold kept in K. apply andb_prop in K as [K _]. apply negb_true_iff in K.
  rewrite K. discriminate.
Qed.

(** *** Saving a note and reading it back, on either backend *)

Lemma clampViews_bounds (value : Q) : 2 <= clampViews value <= 50.
Proof. unfold clampViews. lia. Qed.

Lemma persistLocal_then_fetchLocal readAt0 now payload ls readAt t :
  readAt <= t ->
  (inject_Z t < pr_expiresAt (fst (persistLocal readAt0 now payload ls)))%Q ->
  fst (fetchLocal readAt t (id payload) (snd (persistLocal readAt0 now payload ls)))
  = inr {| fr_encrypted := encrypted payload;
           fr_expiresAt := pr_expiresAt (fst (persistLocal readAt0 now payload ls));
           fr_servedBy := local;
           fr_remainingViews :=
             Some (views_after_first_read (fst (persistLocal readAt0 now payload ls))) |}.
Proof.
  intros Hr Ht. rewrite fetchLocal_run. unfold persistLocal in *.
  cbn [fst snd pr_expiresAt l_expiresAt] in *.
  rewrite lookup_insert_eq.
  set (views := if burnAfterRead payload then 1
                else clampViews match maxViews payload with
                                | mvNumber q => q
                                | _ => 10
                                end) in *.
  assert (HV : 1 <= views).
  { subst views. destruct (burnAfterRead payload); [lia|].
    pose proof (clampViews_bounds match maxViews payload with
                                  | mvNumber q => q
                                  | _ => 10
                                  end). lia. }
  assert (HX : Qle_bool (JS.add (inject_Z now)
                           (JS.mul (JS.mul (expiresInMinutes payload) 60) 1000))
                 (inject_Z t) = false)
    by now apply ServerFacts.Qle_bool_false_of_lt.
  assert (HX' : Qle_bool (JS.add (inject_Z now)
                            (JS.mul (JS.mul (expiresInMinutes payload) 60) 1000))
                  (inject_Z readAt) = false).
  { apply ServerFacts.Qle_bool_false_of_lt.
    apply Qle_lt_trans with (inject_Z t); [now rewrite <- Zle_Qle|exact Ht]. }
  unfold kept. cbn [l_expiresAt l_burnAfterRead l_remainingViews l_encrypted].
  rewrite HX, HX'.
  replace (views <=? 0) with false by (symmetry; apply Z.leb_gt; lia).
  rewrite andb_false_r. cbn [negb andb].
  unfold views_after_first_read. cbn [pr_remainingViews].
  subst views. now destruct (burnAfterRead payload).
Qed.

Section Client.
Context (StringToNumber : string -> Server.JsNumber).
Context (cfg : Server.Config).

Lemma persistRemote_then_fetchRemote now createdAt payload ms t :
  within_limits payload -> (0 < expiresInMinutes payload)%Q -> 1 <= Server.MAX_VIEWS cfg ->
  exists pr,
    fst (persistRemote StringToNumber cfg now createdAt payload ms) = inr pr
    /\ pr_servedBy pr = remote
    /\ ((inject_Z t < pr_expiresAt pr)%Q ->
        fst (fetchRemote t (id payload)
               (snd (persistRemote StringToNumber cfg now createdAt payload ms)))
        = inr {| fr_encrypted := encrypted payload; fr_expiresAt := pr_expiresAt pr;
                 fr_servedBy := remote;
                 fr_remainingViews := Some (views_after_first_read pr) |}).
Proof.
  intros [Li Le] Hm HV. unfold persistRemote, fetchRemote.
  pose proof (ServerFacts.post_accepts StringToNumber cfg now createdAt
                (toRequestBody payload)
                (id payload) (encrypted payload) (expiresInMinutes payload) ms
                eq_refl Li eq_refl Le eq_refl Hm) as HP.
  cbv zeta in HP.
  pose proof (fun Ht => ServerExtras.post_then_get StringToNumber cfg now createdAt
                (toRequestBody payload) ms (id payload) (encrypted payload)
                (expiresInMinutes payload) t eq_refl Li eq_refl Le eq_refl Hm HV Ht) as HG.
  cbv zeta in HG. rewrite HP in HG |- *. cbn [fst snd] in HG |- *.
  eexists. split; [reflexivity|]. split; [reflexivity|].
  cbn [pr_expiresAt]. intros Ht. specialize (HG Ht).
  destruct (Server.get_api_message t (id payload) _) as [res s'].
  cbn [fst] in HG |- *. subst res. unfold fetchRemote_response, ok. cbn.
  unfold views_after_first_read. cbn [pr_remainingViews].
  now destruct (burnAfterRead payload).
Qed.

Lemma fetch_after_persist_run (API_BASE_URL : option string) readAt now createdAt payload st
    readAt' t :
  (backend API_BASE_URL = remote ->
   within_limits payload /\ (0 < expiresInMinutes payload)%Q /\ 1 <= Server.MAX_VIEWS cfg) ->
  readAt' <= t ->
  exists response,
    fst (persistMessage StringToNumber cfg API_BASE_URL readAt now createdAt payload st)
    = inr response
    /\ pr_servedBy response = backend API_BASE_URL
    /\ ((inject_Z t < pr_expiresAt response)%Q ->
        fst (fetchMessage API_BASE_URL readAt' t (id payload)
               (snd (persistMessage StringToNumber cfg API_BASE_URL readAt now createdAt
                       payload st)))
        = inr {| fr_encrypted := encrypted payload;
                 fr_expiresAt := pr_expiresAt response;
                 fr_servedBy := backend API_BASE_URL;
                 fr_remainingViews := Some (views_after_first_read response) |}).
Proof.
  intros HR Hr. unfold persistMessage, fetchMessage, backend in *.
  destruct (negb (JS.falsy_opt API_BASE_URL)).
  - destruct (HR eq_refl) as (HL & Hm & HV).
    destruct (persistRemote_then_fetchRemote now createdAt payload (messageStore st) t
                HL Hm HV)
      as (pr & H1 & H2 & H3).
    destruct (persistRemote StringToNumber cfg now createdAt payload (messageStore st))
      as [r s].
    cbn [fst snd messageStore] in *. exists pr. repeat split; auto.
    intros Ht. specialize (H3 Ht).
    destruct (fetchRemote t (id payload) s) as [r' s']. exact H3.
  - pose proof (persistLocal_then_fetchLocal readAt now payload (localStorage st) readAt' t Hr)
      as HF.
    destruct (persistLocal readAt now payload (localStorage st)) as [r l] eqn:EP.
    cbn [fst snd localStorage] in *. exists r. split; [reflexivity|].
    split.
    { unfold persistLocal in EP. now inversion EP. }
    intros Ht. specialize (HF Ht).
    destruct (fetchLocal readAt' t (id payload) l) as [r' l']. exact HF.
Qed.

(** What the server accepted was within its limits. *)
Lemma persistMessage_accepted (API_BASE_URL : option string) readAt now createdAt payload st
    response st' :
  persistMessage StringToNumber cfg API_BASE_URL readAt now createdAt payload st
  = (inr response, st') ->
  backend API_BASE_URL = remote ->
  within_limits payload /\ (0 < expiresInMinutes payload)%Q.
Proof.
  unfold persistMessage, backend, persistRemote.
  destruct (negb (JS.falsy_opt API_BASE_URL)); [|discriminate]. intros H _.
  destruct (ServerExtras.post_cases StringToNumber cfg now createdAt (toRequestBody payload)
              (messageStore st))
    as [(_ & _ & Hc)|(_ & i & enc & m & Hi & He & Li & Le & Hn & Hm)].
  - destruct (Server.post_api_message _ _ _ _ _ _) as [res s]. cbn [fst] in Hc.
    unfold persistRemote_response, ok in H. rewrite Hc in H. discriminate.
  - cbn in Hi, He, Hn. inversion Hi; inversion He; inversion Hn; subst.
    repeat split; auto; lia.
Qed.


End Client.

Lemma fetchRemote_last_view now i ms fr :
  fst (fetchRemote now i ms) = inr fr -> fr_remainingViews fr = Some 0 ->
  snd (fetchRemote now i ms) !! i = None.
Proof.
  unfold fetchRemote.
  destruct (ServerExtras.get_cases now i ms)
    as [(E & ->)|[(e & E & X & ->)|[(e & E & X & L & ->)|[(e & E & X & L & B & ->)
       |(e & E & X & L & B & ->)]]]]; cbn [fst snd]; try discriminate.
  - intros _ _. apply lookup_delete_eq.
  - unfold fetchRemote_response, ok. cbn. intros H H0. inversion H; subst; clear H.
    cbn in H0. injection H0 as H1.
    replace (Server.e_remainingViews e - 1 <=? 0) with true
      by (symmetry; apply Z.leb_le; lia).
    apply lookup_delete_eq.
Qed.

Lemma fetchLocal_last_view readAt now i ls fr readAt' :
  fst (fetchLocal readAt now i ls) = inr fr -> fr_remainingViews fr = Some 0 ->
  pruneExpired readAt' (snd (fetchLocal readAt now i ls)) !! i = None.
Proof.
  unfold fetchLocal, readStore.
  destruct (pruneExpired readAt ls !! i) as [le|]; [|discriminate].
  destruct (Qle_bool (l_expiresAt le) (inject_Z now)); [discriminate|].
  destruct (l_burnAfterRead le).
  - intros _ _. cbn [snd]. rewrite pruneExpired_lookup. now rewrite lookup_delete_eq.
  - cbn [fst snd l_remainingViews]. intros H H0. inversion H; subst; clear H.
    cbn in H0. injection H0 as H1. rewrite H1. cbn.
    rewrite pruneExpired_lookup. now rewrite lookup_delete_eq.
Qed.

Lemma fetch_after_final_view (API_BASE_URL : option string) readAt t i st fr readAt' t' :
  fst (fetchMessage API_BASE_URL readAt t i st) = inr fr ->
  fr_remainingViews fr = Some 0 ->
  fst (fetchMessage API_BASE_URL readAt' t' i
         (snd (fetchMessage API_BASE_URL readAt t i st)))
  = inl (Err (match backend API_BASE_URL with
              | remote => "Message not found or already burned"
              | local => "Message is no longer available"
              end)).
Proof.
  unfold fetchMessage, backend. destruct (negb (JS.falsy_opt API_BASE_URL)).
  - intros H H0.
    pose proof (fetchRemote_last_view t i (messageStore st) fr) as HL.
    destruct (fetchRemote t i (messageStore st)) as [r s]. cbn [fst snd messageStore] in *.
    specialize (HL H H0).
    pose proof (fetchRemote_run t' i s) as HF. rewrite HL in HF.
    destruct (fetchRemote t' i s). exact HF.
  - intros H H0.
    pose proof (fetchLocal_last_view readAt t i (localStorage st) fr readAt') as HL.
    destruct (fetchLocal readAt t i (localStorage st)) as [r l]. cbn [fst snd localStorage] in *.
    specialize (HL H H0).
    pose proof (fetchLocal_run readAt' t' i l) as HF.
    rewrite pruneExpired_lookup in HL.
    destruct (fetchLocal readAt' t' i l) as [r' l']. cbn [fst] in *. rewrite HF.
    destruct (l !! i) as [le|]; [|reflexivity].
    destruct (kept readAt' le); [discriminate|reflexivity].
Qed.

(** X24. The final view removes the note, on either backend, for an id
    that a URL carries unchanged and that names no property of
    [Object.prototype]: after a [fetchMessage] whose response reports no
    view left, as every response for a burn-after-read note does, every
    later [fetchMessage] of that id fails. *)
Theorem final_view_removes_note (API_BASE_URL : option string) readAt t i st fr readAt' t' :
  plain_id i = true ->
  fst (fetchMessage API_BASE_URL readAt t i st) = inr fr ->
  fr_remainingViews fr = Some 0 ->
  fst (fetchMessage API_BASE_URL readAt' t' i
         (snd (fetchMessage API_BASE_URL readAt t i st)))
  = inl (Err (match backend API_BASE_URL with
              | remote => "Message not found or already burned"
              | local => "Message is no longer available"
              end)).
Proof. intros _. apply fetch_after_final_view. Qed.

(** X25. A note that was deleted cannot be fetched, on either backend, for
    an id that a URL carries unchanged and that names no property of
    [Object.prototype]: [deleteMessage] does not throw, whether or not the
    note was there, and every later [fetchMessage] of that id fails. *)
Theorem fetch_after_delete (API_BASE_URL : option string) readAt i st readAt' t :
  plain_id i = true ->
  readAt <= readAt' ->
  let gone := deleteMessage API_BASE_URL readAt i st in
  fst gone = inr tt
  /\ fst (fetchMessage API_BASE_URL readAt' t i (snd gone))
     = inl (Err (match backend API_BASE_URL with
                 | remote => "Message not found or already burned"
                 | local => "Message is no longer available"
                 end)).
Proof.
  intros _ Hr. cbv zeta. unfold deleteMessage, fetchMessage, backend.
  destruct (negb (JS.falsy_opt API_BASE_URL)).
  - unfold deleteRemote, Server.delete_api_message.
    destruct (messageStore st !! i) as [e|] eqn:E; cbn [fst snd messageStore].
    + split; [reflexivity|].
      pose proof (fetchRemote_run t i (delete i (messageStore st))) as HF.
      rewrite lookup_delete_eq in HF.
      destruct (fetchRemote t i (delete i (messageStore st))). exact HF.
    + split; [reflexivity|].
      pose proof (fetchRemote_run t i (messageStore st)) as HF. rewrite E in HF.
      destruct (fetchRemote t i (messageStore st)). exact HF.
  - cbn [fst snd localStorage]. split; [reflexivity|].
    pose proof (fetchLocal_run readAt' t i (deleteLocal readAt i (localStorage st))) as HF.
    destruct (fetchLocal readAt' t i (deleteLocal readAt i (localStorage st))) as [r l].
    cbn [fst] in *. rewrite HF. clear HF.
    unfold deleteLocal, readStore. rewrite pruneExpired_lookup.
    destruct (localStorage st !! i) as [le|] eqn:E.
    + destruct (kept readAt le) eqn:K.
      * now rewrite lookup_delete_eq.
      * rewrite E. now rewrite (kept_mono readAt readAt' le Hr K).
    + now rewrite E.
Qed.

End MessageServiceExtras.

(** ** The browser's storage against the server, call by call *)

Module MirrorFacts.
Import MessageService.

Implicit Types (ls : gmap string LocalEntry) (ms : gmap string Server.Entry).

(** *** What stays visible *)













(** *** One call on both backends *)

Section Client.
Context (StringToNumber : string -> Server.JsNumber).











(** *** A history on both backends *)




End Client.

End MirrorFacts.

Module MirrorExamples.
Import MessageService.



End MirrorExamples.

(** ** Properties of [message-composer.tsx] *)

Module ComposerFacts.
Import Composer.

Lemma clampViewLimit_bounds (value : Server.JsNumber) : 2 <= clampViewLimit value <= 50.
Proof.
  unfold clampViewLimit, MIN_VIEW_LIMIT, MAX_VIEW_LIMIT.
  destruct (Server.Number_isFinite value); lia.
Qed.

Lemma vault_checks_pass (burn : bool) (value : Server.JsNumber) :
  negb burn && (clampViewLimit value <? MIN_VIEW_LIMIT) = false
  /\ negb burn && (MAX_VIEW_LIMIT <? clampViewLimit value) = false.
Proof.
  pose proof (clampViewLimit_bounds value). unfold MIN_VIEW_LIMIT, MAX_VIEW_LIMIT.
  replace (clampViewLimit value <? 2) with false by (symmetry; apply Z.ltb_ge; lia).
  replace (50 <? clampViewLimit value) with false by (symmetry; apply Z.ltb_ge; lia).
  now rewrite andb_false_r.
Qed.

(** X26. The view limit of the composer: always between 2 and 50, 2 for a
    value that is not finite, the value itself for an integer between 2 and
    50; the browser's storage keeps the limit as the composer sends it; and
    [handleSubmit] never refuses a vault for its view limit. *)
Theorem clampViewLimit_range (value : Server.JsNumber) :
  2 <= clampViewLimit value <= 50
  /\ clampViewLimit Server.NaN = 2
  /\ (forall negative, clampViewLimit (Server.Infinity negative) = 2)
  /\ (forall n, 2 <= n <= 50 -> clampViewLimit (Server.Finite (inject_Z n)) = n)
  /\ MessageService.clampViews (inject_Z (clampViewLimit value)) = clampViewLimit value
  /\ (forall summary form,
        viewLimit form = value ->
        checks summary form <> inl "Team vault mode needs at least 2 views."%string
        /\ checks summary form <> inl "Vault view limits max out at 50 openings."%string).
Proof.
  pose proof (clampViewLimit_bounds value) as HR.
  split; [exact HR|]. split; [reflexivity|]. split; [reflexivity|].
  split.
  { intros n Hn. unfold clampViewLimit, MIN_VIEW_LIMIT, MAX_VIEW_LIMIT.
    cbn [Server.Number_isFinite]. rewrite JSFacts.Math_round_integer. lia. }
  split.
  { unfold MessageService.clampViews. rewrite Qfloor_Z. lia. }
  intros summary form <-.
  destruct (vault_checks_pass (burnAfterRead form) (viewLimit form)) as [V1 V2].
  unfold checks. rewrite V1, V2.
  split; intros H;
    repeat match type of H with
           | context [if ?b then _ else _] => destruct b
           | context [match ?x with _ => _ end] => destruct x
           end;
    try discriminate H; vm_compute in H; discriminate H.
Qed.

Lemma checks_accepted summary form sub :
  checks summary form = inr sub ->
  sanitized sub = cleanMessage (message form)
  /\ JS.falsy (sanitized sub) = false
  /\ Z.of_nat (String.length (sanitized sub)) <= MAX_MESSAGE_LENGTH
  /\ finalPassword sub = (if protectWithPassword form then JS.trim (password form) else ""%string)
  /\ (protectWithPassword form = true ->
      PASSWORD_MIN_LENGTH <= Z.of_nat (String.length (finalPassword sub))
      /\ finalPassword sub = JS.trim (confirmPassword form))
  /\ match expiryMode form with
     | preset => minutesUntilExpiry sub = expiryMinutes form
     | custom =>
         exists chosen,
           summary = Some chosen
           /\ minutesUntilExpiry sub = inject_Z (minutes chosen)
           /\ MIN_CUSTOM_MINUTES <= minutes chosen
           /\ exceedsWindow chosen = false
     end.
Proof.
  unfold checks.
  destruct (vault_checks_pass (burnAfterRead form) (viewLimit form)) as [V1 V2].
  rewrite V1, V2.
  destruct (JS.falsy (cleanMessage (message form))) eqn:F; [discriminate|].
  destruct (MAX_MESSAGE_LENGTH <? _) eqn:Len; [discriminate|].
  apply Z.ltb_ge in Len.
  destruct (protectWithPassword form) eqn:P; cbn [andb].
  - destruct (Z.of_nat (String.length (JS.trim (password form))) <? PASSWORD_MIN_LENGTH)
      eqn:PL; [discriminate|].
    apply Z.ltb_ge in PL.
    destruct (String.eqb (JS.trim (password form)) (JS.trim (confirmPassword form)))
      eqn:PC; [|discriminate].
    apply String.eqb_eq in PC. cbn [negb].
    destruct (expiryMode form).
    + intros H. inversion H; subst; clear H. cbn. repeat split; auto.
    + destruct summary as [chosen|]; [|discriminate].
      destruct (minutes chosen <? MIN_CUSTOM_MINUTES) eqn:M; [discriminate|].
      apply Z.ltb_ge in M.
      destruct (exceedsWindow chosen) eqn:X; [discriminate|].
      intros H. inversion H; subst; clear H. cbn. repeat split; auto.
      exists chosen. repeat split; auto.
  - destruct (expiryMode form).
    + intros H. inversion H; subst; clear H. cbn. repeat split; auto; discriminate.
    + destruct summary as [chosen|]; [|discriminate].
      destruct (minutes chosen <? MIN_CUSTOM_MINUTES) eqn:M; [discriminate|].
      apply Z.ltb_ge in M.
      destruct (exceedsWindow chosen) eqn:X; [discriminate|].
      intros H. inversion H; subst; clear H. cbn. repeat split; auto; try discriminate.
      exists chosen. repeat split; auto.
Qed.

(** X27. What [handleSubmit] lets through. A form that passes its checks
    yields a message that is the cleaned input, not empty and of at most 4000
    characters; with password protection, a trimmed password of at least 8
    characters equal to the trimmed confirmation; and an expiry that is the
    preset or, for a custom date, the minutes from the render to that date
    rounded up, between 5 and 10080. *)
Theorem checks_let_through (Date_getTime : string -> Server.JsNumber) (renderedAt : Z)
    form sub :
  checks (customExpirySummary Date_getTime renderedAt (expiryMode form) (customExpiry form))
    form = inr sub ->
  sanitized sub = cleanMessage (message form)
  /\ sanitized sub <> ""%string
  /\ Z.of_nat (String.length (sanitized sub)) <= 4000
  /\ finalPassword sub = (if protectWithPassword form then JS.trim (password form) else ""%string)
  /\ (protectWithPassword form = true ->
      8 <= Z.of_nat (String.length (finalPassword sub))
      /\ finalPassword sub = JS.trim (confirmPassword form))
  /\ match expiryMode form with
     | preset => minutesUntilExpiry sub = expiryMinutes form
     | custom =>
         exists timestamp,
           Server.Number_isFinite (Date_getTime (customExpiry form)) = Some timestamp
           /\ minutesUntilExpiry sub
              = inject_Z (JS.Math_ceil ((timestamp - inject_Z renderedAt) / 60000))
           /\ 5 <= JS.Math_ceil ((timestamp - inject_Z renderedAt) / 60000) <= 10080
     end.
Proof.
  intros H. destruct (checks_accepted _ form sub H) as (H1 & H2 & H3 & H4 & H5 & H6).
  split; [exact H1|]. split; [now apply JSFacts.falsy_false|].
  split; [exact H3|]. split; [exact H4|]. split; [exact H5|].
  destruct (expiryMode form); [exact H6|].
  destruct H6 as (chosen & Hs & Hm & Hmin & Hx).
  unfold customExpirySummary in Hs.
  destruct (JS.falsy (customExpiry form)); [discriminate|].
  destruct (Server.Number_isFinite (Date_getTime (customExpiry form))) as [ts|];
    [|discriminate].
  destruct (JS.Math_ceil ((ts - inject_Z renderedAt) / 60000) <=? 0); [discriminate|].
  inversion Hs; subst; clear Hs. cbn [minutes exceedsWindow] in *.
  exists ts. split; [reflexivity|]. split; [exact Hm|].
  apply Z.ltb_ge in Hx. unfold MIN_CUSTOM_MINUTES, MAX_EXPIRY_MINUTES in *. lia.
Qed.

Lemma cleanMessage_no_NUL (raw : string) : JS.includes NUL (cleanMessage raw) = false.
Proof.
  unfold cleanMessage, JS.trim.
  apply JSFacts.includes_trimEnd, JSFacts.includes_trimStart, JSFacts.includes_remove.
Qed.

(** X28. [cleanMessage] returns a text without the code unit U+0000 and
    without white space at either end, no longer than its input, and leaves
    such a text as it is. *)
Theorem cleanMessage_clean (raw : string) :
  JS.includes NUL (cleanMessage raw) = false
  /\ JS.trim (cleanMessage raw) = cleanMessage raw
  /\ cleanMessage (cleanMessage raw) = cleanMessage raw
  /\ (String.length (cleanMessage raw) <= String.length raw)%nat.
Proof.
  split; [apply cleanMessage_no_NUL|].
  split; [apply JSFacts.trim_idempotent|].
  split.
  - unfold cleanMessage at 1.
    rewrite (JSFacts.remove_absent NUL _ (cleanMessage_no_NUL raw)).
    apply JSFacts.trim_idempotent.
  - unfold cleanMessage, JS.trim.
    pose proof (JSFacts.length_trimEnd (JS.trimStart (JS.remove NUL raw))).
    pose proof (JSFacts.length_trimStart (JS.remove NUL raw)).
    pose proof (JSFacts.length_remove NUL raw). lia.
Qed.

End ComposerFacts.

(** ** From the composer to the viewer *)

Module AppFacts.
Import CryptoJS Encryption.

Section WithLib.
Context (L : Lib).
Context (StringToNumber : string -> Server.JsNumber).
Context (cfg : Server.Config).
Context (API_BASE_URL : option string).

(** What [inspectEncryptedPayload] makes of a payload of [encryptMessage]. *)
Lemma inspection_of_encrypted (HL : Laws L) message options w r w' :
  encryptMessage L message options w = (inr r, w') ->
  requiresPassword r = negb (JS.falsy_opt (enc_password options))
  /\ shareKey r = (if requiresPassword r then None else shareKey r)
  /\ (requiresPassword r = false -> JS.falsy_opt (shareKey r) = false)
  /\ inspectEncryptedPayload L (payload r)
     = {| insp_mode := if requiresPassword r then "password" else "link";
          insp_version := ENVELOPE_VERSION;
          insp_createdAt := Some (clock L w) |}.
Proof.
  intros Hrun.
  destruct (EncryptionExtras.encryptMessage_shape L message options w)
    as (r0 & e & w0 & ivw & Hrun0 & _ & Hpay & Hv & _ & Hc & _ & _ & Hreq & Hmode).
  rewrite Hrun in Hrun0. inversion Hrun0; subst r0 w0; clear Hrun0.
  split; [exact Hreq|].
  assert (Hm : mode e = if requiresPassword r then "password" else "link").
  { rewrite Hreq. destruct (JS.falsy_opt (enc_password options)); simpl.
    - now destruct Hmode as (mk & _ & Hm & _).
    - now destruct Hmode as (pw & sw & _ & _ & Hm & _). }
  assert (Hver : versioned e).
  { split; [exact Hv|]. rewrite Hm. destruct (requiresPassword r); auto. }
  split.
  { rewrite Hreq. destruct (JS.falsy_opt (enc_password options)); simpl; [reflexivity|].
    now destruct Hmode as (pw & sw & _ & _ & _ & _ & Hs & _). }
  split.
  { rewrite Hreq. destruct (JS.falsy_opt (enc_password options)); simpl; [|discriminate].
    intros _. destruct Hmode as (mk & Hmk & _ & _ & Hs & _). rewrite Hs. cbn.
    apply JSFacts.falsy_false. apply (Base64_nonempty L HL).
    rewrite Hmk, (random_sigBytes L HL). discriminate. }
  unfold inspectEncryptedPayload.
  rewrite Hpay, (EncryptionFacts.tryParseEnvelope_versioned L _ e
                   (JSON_roundtrip L HL e) Hver).
  now rewrite Hm, Hv, Hc.
Qed.

Lemma falsy_of_length (s : string) (n : nat) :
  String.length s = S n -> JS.falsy s = false.
Proof. destruct s; [discriminate|reflexivity]. Qed.

Lemma falsy_of_min_length (s : string) : 8 <= Z.of_nat (String.length s) -> JS.falsy s = false.
Proof. destruct s; [cbn; lia|reflexivity]. Qed.

(** X29. A note that the composer shared opens in the viewer. Once
    [handleSubmit] has produced a share link, mounting the viewer on that
    link before the reported expiry shows the cleaned message: at once for a
    link that carries its key, and for a password note after the viewer has
    asked for the password and been given the one that was typed into the
    composer, surrounding white space or not. It holds on either backend. *)
Theorem shared_note_opens (HL : Laws L) summary form id readAt now createdAt w st shared
    w' st' readAt' t v w2 :
  String.length id = 21%nat ->
  (MessageService.backend API_BASE_URL = MessageService.remote ->
   1 <= Server.MAX_VIEWS cfg) ->
  Composer.handleSubmit L StringToNumber cfg API_BASE_URL summary form id readAt now
    createdAt w st
  = (Composer.Done shared, w', st') ->
  readAt' <= t ->
  (inject_Z t < Composer.expiresAt shared)%Q ->
  let link := Composer.shareLink shared in
  let opened :=
    Viewer.hydrate L API_BASE_URL (Some (Composer.link_id link)) (Composer.link_key link)
      readAt' t v w2 st' in
  let state := fst (fst opened) in
  if Composer.protectWithPassword form then
    Viewer.phase state = Viewer.awaiting_password
    /\ (let unlocked :=
          fst (Viewer.handlePasswordSubmit L
                 (Viewer.setPasswordInput (Composer.password form) state)
                 (snd (fst opened))) in
        Viewer.phase unlocked = Viewer.ready
        /\ Viewer.message unlocked = Composer.cleanMessage (Composer.message form))
  else
    Viewer.phase state = Viewer.ready
    /\ Viewer.message state = Composer.cleanMessage (Composer.message form).
Proof.
  intros Hid HV Hrun Hr Ht. cbv zeta.
  unfold Composer.handleSubmit in Hrun.
  destruct (Composer.checks summary form) as [refusal|sub] eqn:C; [discriminate|].
  destruct (ComposerFacts.checks_accepted summary form sub C)
    as (Hs & Hne & _ & Hpw & Hpw' & _).
  destruct (encryptMessage L (Composer.sanitized sub) _ w) as [[[reason]|r] w1] eqn:E;
    [discriminate|].
  set (payload := Composer.toPersistPayload form sub id r) in *.
  destruct (MessageService.persistMessage StringToNumber cfg API_BASE_URL readAt now
              createdAt payload st) as [[[reason]|response] st1] eqn:P; [discriminate|].
  inversion Hrun; subst shared w' st'; clear Hrun.
  cbn [Composer.shareLink Composer.link_id Composer.link_key Composer.expiresAt] in *.
  destruct (inspection_of_encrypted HL _ _ _ _ _ E) as (Hreq & Hshare & Hkey & Hinsp).
  assert (HF : fst (MessageService.fetchMessage API_BASE_URL readAt' t id st1)
               = inr {| MessageService.fr_encrypted := Encryption.payload r;
                        MessageService.fr_expiresAt := MessageService.pr_expiresAt response;
                        MessageService.fr_servedBy := MessageService.backend API_BASE_URL;
                        MessageService.fr_remainingViews :=
                          Some (MessageService.views_after_first_read response) |}).
  { destruct (MessageServiceExtras.fetch_after_persist_run StringToNumber cfg API_BASE_URL
                readAt now createdAt payload st readAt' t) as (response' & H1 & _ & H3).
    - intros HB.
      destruct (MessageServiceExtras.persistMessage_accepted StringToNumber cfg API_BASE_URL
                  readAt now createdAt payload st response st1 P HB) as [HL1 HL2].
      auto.
    - exact Hr.
    - rewrite P in H1, H3. cbn [fst snd] in H1, H3.
      assert (response' = response) by congruence. subst response'.
      exact (H3 Ht). }
  unfold Viewer.hydrate.
  cbn [JS.falsy_opt JS.nullish]. rewrite (falsy_of_length id 20 Hid).
  destruct (MessageService.fetchMessage API_BASE_URL readAt' t id st1) as [fetched st2].
  cbn [fst] in HF. subst fetched. cbn [MessageService.fr_encrypted].
  rewrite Hinsp. cbn [insp_version insp_mode].
  change (String.eqb ENVELOPE_VERSION "legacy") with false. cbn iota.
  destruct (Composer.protectWithPassword form) eqn:Protect.
  - assert (Hlong : JS.falsy (Composer.finalPassword sub) = false)
      by exact (falsy_of_min_length _ (proj1 (Hpw' eq_refl))).
    assert (Hreq' : requiresPassword r = true).
    { rewrite Hreq. cbn. now rewrite Hlong. }
    rewrite Hreq'. change (String.eqb "password" "password") with true. cbn iota.
    cbn [fst snd Viewer.phase Viewer.setPhase]. split; [reflexivity|].
    unfold Viewer.handlePasswordSubmit.
    cbn [Viewer.noteMeta Viewer.setPasswordInput Viewer.setPhase Viewer.setNoteMeta
         Viewer.passwordInput Viewer.nm_encrypted].
    rewrite <- Hpw, Hlong.
    destruct (EncryptionFacts.decrypt_after_encrypt L HL (Composer.sanitized sub)
                {| enc_password := Some (Composer.finalPassword sub) |} w w2)
      as (r0 & w0 & w2' & E0 & D).
    rewrite E in E0. inversion E0; subst r0 w0; clear E0.
    unfold matchingCredential in D. rewrite Hshare, Hreq' in D.
    cbn [enc_password] in D. rewrite Hne in D. rewrite D.
    cbn. split; [reflexivity|exact Hs].
  - assert (Hreq' : requiresPassword r = false).
    { rewrite Hreq. reflexivity. }
    rewrite Hreq'. change (String.eqb "link" "password") with false. cbn iota.
    rewrite (Hkey Hreq'). cbn iota. rewrite (Hkey Hreq').
    destruct (EncryptionFacts.decrypt_after_encrypt L HL (Composer.sanitized sub)
                {| enc_password := None |} w w2)
      as (r0 & w0 & w2' & E0 & D).
    rewrite E in E0. inversion E0; subst r0 w0; clear E0.
    unfold matchingCredential in D. cbn [enc_password] in D.
    rewrite Hne in D. rewrite D.
    cbn. split; [reflexivity|exact Hs].
Qed.

(** X30. Opening a burn-after-read link without its key destroys the
    note. The viewer fetches the note, which uses up its one view, before it
    looks for the key: mounted on the id alone it reports that the link is
    missing its secret key, and mounted afterwards on the complete link it
    finds no note. *)
Theorem opening_without_key_burns_note (HL : Laws L) summary form id readAt now createdAt
    w st shared w' st' readAt' t v w2 readAt'' t' v' w3 :
  String.length id = 21%nat ->
  (MessageService.backend API_BASE_URL = MessageService.remote ->
   1 <= Server.MAX_VIEWS cfg) ->
  Composer.burnAfterRead form = true ->
  Composer.protectWithPassword form = false ->
  Composer.handleSubmit L StringToNumber cfg API_BASE_URL summary form id readAt now
    createdAt w st
  = (Composer.Done shared, w', st') ->
  readAt' <= t ->
  (inject_Z t < Composer.expiresAt shared)%Q ->
  let link := Composer.shareLink shared in
  let first :=
    Viewer.hydrate L API_BASE_URL (Some (Composer.link_id link)) None readAt' t v w2 st' in
  let second :=
    Viewer.hydrate L API_BASE_URL (Some (Composer.link_id link)) (Composer.link_key link)
      readAt'' t' v' w3 (snd first) in
  Viewer.phase (fst (fst first)) = Viewer.error
  /\ Viewer.error_message (fst (fst first)) = Some "This link is missing its secret key."%string
  /\ snd (fst first) = w2
  /\ Viewer.phase (fst (fst second)) = Viewer.error
  /\ Viewer.error_message (fst (fst second))
     = Some (match MessageService.backend API_BASE_URL with
             | MessageService.remote => "Message not found or already burned"
             | MessageService.local => "Message is no longer available"
             end)%string.
Proof.
  intros Hid HV Hburn Hprotect Hrun Hr Ht. cbv zeta.
  unfold Composer.handleSubmit in Hrun.
  destruct (Composer.checks summary form) as [refusal|sub] eqn:C; [discriminate|].
  rewrite Hprotect in Hrun.
  destruct (encryptMessage L (Composer.sanitized sub) _ w) as [[[reason]|r] w1] eqn:E;
    [discriminate|].
  set (payload := Composer.toPersistPayload form sub id r) in *.
  destruct (MessageService.persistMessage StringToNumber cfg API_BASE_URL readAt now
              createdAt payload st) as [[[reason]|response] st1] eqn:P; [discriminate|].
  inversion Hrun; subst shared w' st'; clear Hrun.
  cbn [Composer.shareLink Composer.link_id Composer.link_key Composer.expiresAt] in *.
  destruct (inspection_of_encrypted HL _ _ _ _ _ E) as (Hreq & _ & _ & Hinsp).
  cbn in Hreq.
  assert (Hnone : MessageService.pr_remainingViews response = None).
  { unfold MessageService.persistMessage in P.
    destruct (negb (JS.falsy_opt API_BASE_URL)).
    - unfold MessageService.persistRemote in P.
      destruct (ServerExtras.post_cases StringToNumber cfg now createdAt
                  (MessageService.toRequestBody payload) (MessageService.messageStore st))
        as [(_ & _ & Hc)|(_ & i & enc & m & Hi & He & Li & Le & Hn & Hm)].
      + destruct (Server.post_api_message _ _ _ _ _ _) as [res s]. cbn [fst] in Hc.
        unfold MessageService.persistRemote_response, MessageService.ok in P.
        rewrite Hc in P. discriminate.
      + rewrite (ServerFacts.post_accepts StringToNumber cfg now createdAt _ i enc m _
                   Hi Li He Le Hn Hm) in P.
        cbn in P. rewrite Hburn in P. cbn in P. now inversion P.
    - unfold MessageService.persistLocal in P. cbn in P. rewrite Hburn in P.
      now inversion P. }
  assert (HF : fst (MessageService.fetchMessage API_BASE_URL readAt' t id st1)
               = inr {| MessageService.fr_encrypted := Encryption.payload r;
                        MessageService.fr_expiresAt := MessageService.pr_expiresAt response;
                        MessageService.fr_servedBy := MessageService.backend API_BASE_URL;
                        MessageService.fr_remainingViews := Some 0 |}).
  { destruct (MessageServiceExtras.fetch_after_persist_run StringToNumber cfg API_BASE_URL
                readAt now createdAt payload st readAt' t) as (response' & H1 & _ & H3).
    - intros HB.
      destruct (MessageServiceExtras.persistMessage_accepted StringToNumber cfg API_BASE_URL
                  readAt now createdAt payload st response st1 P HB) as [HL1 HL2].
      auto.
    - exact Hr.
    - rewrite P in H1, H3. cbn [fst snd] in H1, H3.
      assert (response' = response) by congruence. subst response'.
      specialize (H3 Ht). change (MessageService.id payload) with id in H3.
      rewrite H3. unfold MessageService.views_after_first_read. now rewrite Hnone. }
  pose proof (MessageServiceExtras.fetch_after_final_view API_BASE_URL readAt' t id st1 _
                readAt'' t' HF eq_refl) as HG.
  unfold Viewer.hydrate.
  cbn [JS.falsy_opt JS.nullish]. rewrite (falsy_of_length id 20 Hid).
  destruct (MessageService.fetchMessage API_BASE_URL readAt' t id st1) as [fetched st2].
  cbn [fst snd] in HF, HG. subst fetched. cbn [MessageService.fr_encrypted].
  rewrite Hinsp, Hreq. cbn [insp_version insp_mode].
  change (String.eqb ENVELOPE_VERSION "legacy") with false. cbn iota.
  change (String.eqb "link" "password") with false. cbn iota.
  cbn [fst snd]. split; [reflexivity|]. split; [reflexivity|]. split; [reflexivity|].
  destruct (MessageService.fetchMessage API_BASE_URL readAt'' t' id st2) as [again st3].
  cbn [fst] in HG. subst again. cbn. split; reflexivity.
Qed.

End WithLib.
End AppFacts.

(** ** The client, the composer and the viewer on sample notes *)

Module MessageServiceExtrasExamples.
Import MessageService.

(** A read of a vault of three, held by the server and by the browser. *)
Lemma fetch_outcomes_witness :
  let ms : gmap string Server.Entry := {["note-0001" := Server.sample_entry false 3]} in
  let ls : gmap string LocalEntry := {["note-0001" := sample_local_entry 3]} in
  fst (fetchRemote 10 "note-0001" ms)
  = match ms !! "note-0001"%string with
    | None => inl (Err "Message not found or already burned")
    | Some e =>
        if Server.expired 10 e then inl (Err "Message expired")
        else if Server.e_remainingViews e <=? 0 then
          inl (Err "Message not found or already burned")
        else
          inr {| fr_encrypted := Server.e_encrypted e; fr_expiresAt := Server.e_expiresAt e;
                 fr_servedBy := remote;
                 fr_remainingViews :=
                   Some (if Server.e_burnAfterRead e then 0
                         else Server.e_remainingViews e - 1) |}
    end
  /\ fst (fetchLocal 5 10 "note-0001" ls)
     = match ls !! "note-0001"%string with
       | None => inl (Err "Message is no longer available")
       | Some le =>
           if negb (kept 5 le) then inl (Err "Message is no longer available")
           else if Qle_bool (l_expiresAt le) (inject_Z 10) then
             inl (Err "This link has expired")
           else
             inr {| fr_encrypted := l_encrypted le; fr_expiresAt := l_expiresAt le;
                    fr_servedBy := local;
                    fr_remainingViews :=
                      Some (if l_burnAfterRead le then 0 else l_remainingViews le - 1) |}
       end
  /\ fst (fetchLocal 10 10 "note-0001" ls) <> inl (Err "This link has expired").
Proof.
  apply (MessageServiceExtras.fetch_outcomes 5 10 "note-0001"
           {["note-0001" := Server.sample_entry false 3]}
           {["note-0001" := sample_local_entry 3]}).
  reflexivity.
Defined.


(** A note in the browser's storage, deleted at 10 and fetched at 20. *)
Lemma fetch_after_delete_witness :
  let st := {| messageStore := ∅;
               localStorage := {["note-0001" := sample_local_entry 3]} |} in
  let gone := deleteMessage None 10 "note-0001" st in
  fst gone = inr tt
  /\ fst (fetchMessage None 20 20 "note-0001" (snd gone))
     = inl (Err (match backend None with
                 | remote => "Message not found or already burned"
                 | local => "Message is no longer available"
                 end)).
Proof.
  apply (MessageServiceExtras.fetch_after_delete None 10 "note-0001"
           {| messageStore := ∅;
              localStorage := {["note-0001" := sample_local_entry 3]} |} 20 20).
  - reflexivity.
  - lia.
Defined.

(** A burn-after-read note on the server, fetched at 10 and again at 20. *)
Lemma final_view_removes_note_witness :
  let st := {| messageStore := {["note-0001" := Server.sample_entry true 1]};
               localStorage := ∅ |} in
  fst (fetchMessage Model.sample_api 20 20 "note-0001"
         (snd (fetchMessage Model.sample_api 10 10 "note-0001" st)))
  = inl (Err (match backend Model.sample_api with
              | remote => "Message not found or already burned"
              | local => "Message is no longer available"
              end)).
Proof.
  apply (MessageServiceExtras.final_view_removes_note Model.sample_api 10 10 "note-0001"
           {| messageStore := {["note-0001" := Server.sample_entry true 1]};
              localStorage := ∅ |}
           {| fr_encrypted := "opaque-envelope"; fr_expiresAt := 60000;
              fr_servedBy := remote; fr_remainingViews := Some 0 |} 20 20).
  - reflexivity.
  - vm_compute. reflexivity.
  - reflexivity.
Defined.

End MessageServiceExtrasExamples.

Module ComposerExamples.
Import Composer.

(** The sample form with password protection: the message and the
    password are trimmed. *)
Lemma checks_let_through_witness :
  let form := sample_form true false in
  let sub := {| sanitized := "hello"; finalPassword := "correct horse";
                minutesUntilExpiry := 60 |} in
  sanitized sub = cleanMessage (message form)
  /\ sanitized sub <> ""%string
  /\ Z.of_nat (String.length (sanitized sub)) <= 4000
  /\ finalPassword sub = (if protectWithPassword form then JS.trim (password form) else ""%string)
  /\ (protectWithPassword form = true ->
      8 <= Z.of_nat (String.length (finalPassword sub))
      /\ finalPassword sub = JS.trim (confirmPassword form))
  /\ match expiryMode form with
     | preset => minutesUntilExpiry sub = expiryMinutes form
     | custom =>
         exists timestamp,
           Server.Number_isFinite (Server.sample_StringToNumber (customExpiry form))
           = Some timestamp
           /\ minutesUntilExpiry sub
              = inject_Z (JS.Math_ceil ((timestamp - inject_Z 0) / 60000))
           /\ 5 <= JS.Math_ceil ((timestamp - inject_Z 0) / 60000) <= 10080
     end.
Proof.
  apply (ComposerFacts.checks_let_through Server.sample_StringToNumber 0
           (sample_form true false)
           {| sanitized := "hello"; finalPassword := "correct horse";
              minutesUntilExpiry := 60 |}).
  vm_compute. reflexivity.
Defined.

End ComposerExamples.

Module AppExamples.
Import CryptoJS Encryption Model.

(** A password note shared through the API, opened ten seconds later and
    unlocked with the password as it was typed. *)
Lemma shared_note_opens_witness :
  let shared := sample_shared sample_api true false in
  let link := Composer.shareLink shared in
  let opened :=
    Viewer.hydrate lib sample_api (Some (Composer.link_id link)) (Composer.link_key link)
      1700000010000 1700000010000 Viewer.initial (world 1 1700000010000)
      (snd (sample_submit sample_api true false)) in
  let state := fst (fst opened) in
  Viewer.phase state = Viewer.awaiting_password
  /\ (let unlocked :=
        fst (Viewer.handlePasswordSubmit lib
               (Viewer.setPasswordInput " correct horse " state) (snd (fst opened))) in
      Viewer.phase unlocked = Viewer.ready
      /\ Viewer.message unlocked = "hello"%string).
Proof.
  assert (Hid : String.length Composer.sample_id = 21%nat) by reflexivity.
  assert (HV : MessageService.backend sample_api = MessageService.remote ->
               1 <= Server.MAX_VIEWS Server.defaultConfig) by (intros _; cbn; lia).
  assert (Hrun : Composer.handleSubmit lib Server.sample_StringToNumber Server.defaultConfig
                   sample_api None (Composer.sample_form true false) Composer.sample_id
                   1700000000000 1700000000000 1700000000001 (world 0 1700000000000)
                   MessageService.no_stores
                 = (Composer.Done (sample_shared sample_api true false),
                    snd (fst (sample_submit sample_api true false)),
                    snd (sample_submit sample_api true false)))
    by (vm_compute; reflexivity).
  assert (Hr : 1700000010000 <= 1700000010000) by lia.
  assert (Ht : (inject_Z 1700000010000
                < Composer.expiresAt (sample_shared sample_api true false))%Q)
    by (vm_compute; reflexivity).
  exact (AppFacts.shared_note_opens lib Server.sample_StringToNumber Server.defaultConfig
           sample_api ModelFacts.model_laws None (Composer.sample_form true false)
           Composer.sample_id 1700000000000 1700000000000 1700000000001
           (world 0 1700000000000)
           MessageService.no_stores _ _ _ 1700000010000 1700000010000 Viewer.initial
           (world 1 1700000010000) Hid HV Hrun Hr Ht).
Defined.

(** A burn-after-read link note in the browser's storage, opened first
    without its key and then with it. *)
Lemma opening_without_key_burns_note_witness :
  let shared := sample_shared None false true in
  let link := Composer.shareLink shared in
  let first :=
    Viewer.hydrate lib None (Some (Composer.link_id link)) None
      1700000010000 1700000010000 Viewer.initial (world 1 1700000010000)
      (snd (sample_submit None false true)) in
  let second :=
    Viewer.hydrate lib None (Some (Composer.link_id link)) (Composer.link_key link)
      1700000020000 1700000020000 Viewer.initial (world 2 1700000020000) (snd first) in
  Viewer.phase (fst (fst first)) = Viewer.error
  /\ Viewer.error_message (fst (fst first)) = Some "This link is missing its secret key."%string
  /\ snd (fst first) = world 1 1700000010000
  /\ Viewer.phase (fst (fst second)) = Viewer.error
  /\ Viewer.error_message (fst (fst second))
     = Some (match MessageService.backend None with
             | MessageService.remote => "Message not found or already burned"
             | MessageService.local => "Message is no longer available"
             end)%string.
Proof.
  assert (Hid : String.length Composer.sample_id = 21%nat) by reflexivity.
  assert (HV : MessageService.backend None = MessageService.remote ->
               1 <= Server.MAX_VIEWS Server.defaultConfig) by (intros _; cbn; lia).
  assert (Hrun : Composer.handleSubmit lib Server.sample_StringToNumber Server.defaultConfig
                   None None (Composer.sample_form false true) Composer.sample_id
                   1700000000000 1700000000000 1700000000001 (world 0 1700000000000)
                   MessageService.no_stores
                 = (Composer.Done (sample_shared None false true),
                    snd (fst (sample_submit None false true)),
                    snd (sample_submit None false true)))
    by (vm_compute; reflexivity).
  assert (Hr : 1700000010000 <= 1700000010000) by lia.
  assert (Ht : (inject_Z 1700000010000
                < Composer.expiresAt (sample_shared None false true))%Q)
    by (vm_compute; reflexivity).
  exact (AppFacts.opening_without_key_burns_note lib Server.sample_StringToNumber
           Server.defaultConfig None ModelFacts.model_laws None
           (Composer.sample_form false true)
           Composer.sample_id 1700000000000 1700000000000 1700000000001
           (world 0 1700000000000)
           MessageService.no_stores _ _ _ 1700000010000 1700000010000 Viewer.initial
           (world 1 1700000010000) 1700000020000 1700000020000 Viewer.initial
           (world 2 1700000020000) Hid HV eq_refl eq_refl Hrun Hr Ht).
Defined.

End AppExamples.
